(** * The Glk adapter of zork1-web (js/glk-adapter.js) and its terminal

    A shallow embedding of [createGlk] and of the part of [ZorkTerminal]
    (js/main.js) that the adapter talks to, followed by the properties
    the specification states about them.

    Conventions of the embedding.
    - A JavaScript string is the list of its UTF-16 code units.
    - A JavaScript number is a mathematical integer ([Z]); floating-point
      values and the loss of precision beyond 2^53 are outside the model.
    - [str.data] is an array of numbers in every stream of the state. The
      one place where the adapter can put another value there is
      [glk_stream_open_file], which then says so in what it returns; what
      the adapter does with such a stream afterwards is outside the model.
    - Objects that the source shares by reference (streams, windows, the
      arrays and [RefStruct]s owned by the VM) live in tables of the
      state and are named by their index or key; [===] on them is
      equality of these names.
    - A call that throws is modelled by the state at the moment of the
      throw (the effects made before it persist, as in JavaScript). *)

From Stdlib Require Import ZArith String Ascii DecimalPos.
From stdpp Require Import gmap list.

Open Scope Z_scope.

(** ** JavaScript values and built-ins *)

Abbreviation jstring := (list Z).

(** A Rocq string literal as a JavaScript string (one unit per character). *)
Fixpoint jstr (t : string) : jstring :=
  match t with
  | EmptyString => []
  | String c r => Z.of_N (N_of_ascii c) :: jstr r
  end.

Inductive jsval :=
  | Undefined
  | NaN
  | Num (n : Z)
  | WinRef (w : nat).

Global Instance jsval_eq_dec : EqDecision jsval.
Proof. solve_decision. Defined.

(** Truthiness of the values the adapter tests. *)
Definition truthy_string (t : jstring) : bool :=
  match t with [] => false | _ :: _ => true end.

Definition truthy (v : jsval) : bool :=
  match v with
  | Undefined | NaN => false
  | Num n => negb (n =? 0)
  | WinRef _ => true
  end.

(** Every array is truthy, the empty one included. *)
Definition truthy_array {A} (a : list A) : bool := true.

(** [text.length] and [text.charCodeAt(i)]. *)
Definition str_length (t : jstring) : Z := Z.of_nat (length t).

Definition charCodeAt (t : jstring) (i : Z) : jsval :=
  if i <? 0 then NaN
  else match t !! Z.to_nat i with Some c => Num c | None => NaN end.

(** [String.fromCharCode(ch)]: the unit [ToUint16(ch)]. *)
Definition String_fromCharCode (ch : Z) : jstring := [ch `mod` 65536].

(** [String.fromCodePoint(cp)]: [None] stands for the [RangeError]. *)
Definition String_fromCodePoint (cp : Z) : option jstring :=
  if (cp <? 0) || (0x10FFFF <? cp) then None
  else if cp <=? 0xFFFF then Some [cp]
  else Some [0xD800 + (cp - 0x10000) ≫ 10;
             0xDC00 + Z.land (cp - 0x10000) 0x3FF].

(** [a[i]] and [a[i] = v] on the elements of a JavaScript [Array]: a
    read outside the array gives [undefined]; a store past the end
    extends the array and leaves holes. A negative index is no element:
    a store there leaves the elements alone and creates a property,
    which [array_get] below finds in the record of the stores. *)
Definition js_array_get (a : list jsval) (i : Z) : jsval :=
  if i <? 0 then Undefined else default Undefined (a !! Z.to_nat i).

Definition js_array_set (a : list jsval) (i : Z) (v : jsval) : list jsval :=
  if i <? 0 then a
  else if i <? Z.of_nat (length a) then <[Z.to_nat i := v]> a
  else a ++ replicate (Z.to_nat i - length a)%nat Undefined ++ [v].

(** [data[i]] on a dense array of numbers. *)
Definition data_get (d : list Z) (i : Z) : jsval :=
  if i <? 0 then Undefined
  else match d !! Z.to_nat i with Some n => Num n | None => Undefined end.

(** A JSON value, as [JSON.parse] returns it. *)
#[local] Unset Elimination Schemes.
Inductive json :=
  | JNull
  | JBool (b : bool)
  | JNumber (n : Z)
  | JString (t : jstring)
  | JArray (items : list json)
  | JObject (members : list (jstring * json)).
#[local] Set Elimination Schemes.

(** The array of the numbers [d], and the numbers of a value that is an
    array of numbers. *)
Definition number_json (d : list Z) : json := JArray (JNumber <$> d).

Definition number_array (v : json) : option (list Z) :=
  match v with
  | JArray items =>
      mapM (λ x, match x with JNumber n => Some n | _ => None end) items
  | _ => None
  end.

(** [JSON.stringify] on an array of integers: ["[1,2,3]"]. *)
Fixpoint uint_digits (u : Decimal.uint) : jstring :=
  match u with
  | Decimal.Nil => []
  | Decimal.D0 r => 48 :: uint_digits r
  | Decimal.D1 r => 49 :: uint_digits r
  | Decimal.D2 r => 50 :: uint_digits r
  | Decimal.D3 r => 51 :: uint_digits r
  | Decimal.D4 r => 52 :: uint_digits r
  | Decimal.D5 r => 53 :: uint_digits r
  | Decimal.D6 r => 54 :: uint_digits r
  | Decimal.D7 r => 55 :: uint_digits r
  | Decimal.D8 r => 56 :: uint_digits r
  | Decimal.D9 r => 57 :: uint_digits r
  end.

Definition number_to_string (n : Z) : jstring :=
  match Z.to_int n with
  | Decimal.Pos u => uint_digits u
  | Decimal.Neg u => 45 :: uint_digits u
  end.

Fixpoint join_comma (l : list jstring) : jstring :=
  match l with
  | [] => []
  | [x] => x
  | x :: r => x ++ 44 :: join_comma r
  end.

Definition JSON_stringify (d : list Z) : jstring :=
  91 :: join_comma (map number_to_string d) ++ [93].

(** A reader of the texts [JSON_stringify] writes and of the decimal
    text of a single integer, used to instantiate [JSON.parse] in
    examples. *)
Module NumericJSON.

Definition digit_value (c : Z) : option Z :=
  if (48 <=? c) && (c <=? 57) then Some (c - 48) else None.

Fixpoint parse_digits (acc : Z) (t : jstring) : option Z :=
  match t with
  | [] => Some acc
  | c :: r =>
      match digit_value c with
      | Some d => parse_digits (10 * acc + d) r
      | None => None
      end
  end.

Definition parse_number (t : jstring) : option Z :=
  match t with
  | [] => None
  | c :: r =>
      if c =? 45
      then match r with [] => None | _ => Z.opp <$> parse_digits 0 r end
      else parse_digits 0 t
  end.

Fixpoint split_commas (cur : jstring) (t : jstring) : list jstring :=
  match t with
  | [] => [reverse cur]
  | c :: r =>
      if c =? 44 then reverse cur :: split_commas [] r
      else split_commas (c :: cur) r
  end.

Definition parse_array (t : jstring) : option (list Z) :=
  match t with
  | [] => None
  | c :: r =>
      if c =? 91 then
        match reverse r with
        | [] => None
        | d :: inner =>
            if d =? 93 then
              match inner with
              | [] => Some []
              | _ => mapM parse_number (split_commas [] (reverse inner))
              end
            else None
        end
      else None
  end.

Definition parse_integer (t : jstring) : option Z :=
  match parse_number t with
  | Some n => if decide (number_to_string n = t) then Some n else None
  | None => None
  end.

Definition parse (t : jstring) : option json :=
  match parse_array t with
  | Some d => Some (number_json d)
  | None => JNumber <$> parse_integer t
  end.

End NumericJSON.

(** ** Glk constants *)

Definition evtype_None : Z := 0.
Definition evtype_CharInput : Z := 2.
Definition evtype_LineInput : Z := 3.

Definition wintype_TextBuffer : Z := 3.
Definition wintype_TextGrid : Z := 4.

Definition filemode_Write : Z := 0x01.
Definition filemode_Read : Z := 0x02.
Definition filemode_ReadWrite : Z := 0x03.

Definition seekmode_Start : Z := 0.
Definition seekmode_Current : Z := 1.
Definition seekmode_End : Z := 2.

Definition gestalt_CharOutput : Z := 2.
Definition gestalt_CharOutput_ExactPrint : Z := 2.
Definition gestalt_LineInput : Z := 3.
Definition gestalt_Unicode : Z := 15.

(** ** The objects of the adapter *)

(** The object [glk_fileref_create_by_name] and [_by_prompt] return. *)
Record fileref := Fileref {
  fref_rock : Z;
  fref_usage : Z;
  fref_fmode : option Z;
  filename : jstring
}.

(** The object of [createStream]; [buf], [buflen], [fref] and [fmode] are
    the properties the [glk_stream_open_*] functions add ([buflen] is
    read only where [buf] is set). *)
Record stream := Stream {
  rock : Z;
  write_count : Z;
  read_count : Z;
  data : list Z;
  pos : Z;
  buf : option nat;
  buflen : Z;
  fref : option fileref;
  fmode : option Z
}.

Inductive request_kind := LineRequest | CharRequest.

(** The object of [createWindow]; [win_str] names the owned stream. *)
Record window := Window {
  win_type : Z;
  win_rock : Z;
  win_str : nat;
  input_request_type : option request_kind;
  line_input_buf : option nat
}.

(** [inputState]. *)
Record input_state := InputState {
  is_buffer : option nat;
  is_maxLen : Z;
  is_pending : bool;
  is_event : option nat
}.

(** The only function ever passed to [terminal.waitForInput] is the arrow
    function of [_request_line]; it closes over [inputState] alone. *)
Inductive callback := LineInputCallback.

(** What a call does to the world outside the adapter's own variables, in
    program order: calls on the terminal, stores into arrays and
    [RefStruct]s of the VM, and assignments to [inputState.pending]. *)
Inductive effect :=
  | TerminalPrint (text : jstring)
  | TerminalClear
  | TerminalHandleError (text : jstring)
  | TerminalWaitForInput
  | ArrayStore (b : nat) (i : Z) (v : jsval)
  | FieldStore (e : nat) (idx : Z) (v : jsval)
  | PendingStore (p : bool).

(** The variables of [createGlk], the [inputResolver] slot of the
    terminal, [localStorage], the VM's arrays and [RefStruct]s (their
    [fields]), and the effects so far. *)
Record glk_state := GlkState {
  outputBuffer : jstring;
  windows : list window;
  streams : list stream;
  currentStream : nat;
  inputState : input_state;
  inputResolver : option callback;
  localStorage : gmap jstring jstring;
  arrays : gmap nat (list jsval);
  structs : gmap nat (list jsval);
  effects : list effect
}.

Definition mainWindow : nat := 0%nat.
Definition mainStream : nat := 0%nat.

(** ** Assignments to one variable or property *)

Definition set_outputBuffer (t : jstring) (s : glk_state) : glk_state :=
  {| outputBuffer := t; windows := windows s; streams := streams s;
     currentStream := currentStream s; inputState := inputState s;
     inputResolver := inputResolver s; localStorage := localStorage s;
     arrays := arrays s; structs := structs s; effects := effects s |}.

Definition set_windows (w : list window) (s : glk_state) : glk_state :=
  {| outputBuffer := outputBuffer s; windows := w; streams := streams s;
     currentStream := currentStream s; inputState := inputState s;
     inputResolver := inputResolver s; localStorage := localStorage s;
     arrays := arrays s; structs := structs s; effects := effects s |}.

Definition set_streams (l : list stream) (s : glk_state) : glk_state :=
  {| outputBuffer := outputBuffer s; windows := windows s; streams := l;
     currentStream := currentStream s; inputState := inputState s;
     inputResolver := inputResolver s; localStorage := localStorage s;
     arrays := arrays s; structs := structs s; effects := effects s |}.

Definition set_currentStream (c : nat) (s : glk_state) : glk_state :=
  {| outputBuffer := outputBuffer s; windows := windows s;
     streams := streams s; currentStream := c; inputState := inputState s;
     inputResolver := inputResolver s; localStorage := localStorage s;
     arrays := arrays s; structs := structs s; effects := effects s |}.

Definition set_inputState (i : input_state) (s : glk_state) : glk_state :=
  {| outputBuffer := outputBuffer s; windows := windows s;
     streams := streams s; currentStream := currentStream s;
     inputState := i; inputResolver := inputResolver s;
     localStorage := localStorage s; arrays := arrays s;
     structs := structs s; effects := effects s |}.

Definition set_inputResolver (r : option callback) (s : glk_state)
  : glk_state :=
  {| outputBuffer := outputBuffer s; windows := windows s;
     streams := streams s; currentStream := currentStream s;
     inputState := inputState s; inputResolver := r;
     localStorage := localStorage s; arrays := arrays s;
     structs := structs s; effects := effects s |}.

Definition set_localStorage (m : gmap jstring jstring) (s : glk_state)
  : glk_state :=
  {| outputBuffer := outputBuffer s; windows := windows s;
     streams := streams s; currentStream := currentStream s;
     inputState := inputState s; inputResolver := inputResolver s;
     localStorage := m; arrays := arrays s; structs := structs s;
     effects := effects s |}.

Definition set_arrays (m : gmap nat (list jsval)) (s : glk_state)
  : glk_state :=
  {| outputBuffer := outputBuffer s; windows := windows s;
     streams := streams s; currentStream := currentStream s;
     inputState := inputState s; inputResolver := inputResolver s;
     localStorage := localStorage s; arrays := m; structs := structs s;
     effects := effects s |}.

Definition set_structs (m : gmap nat (list jsval)) (s : glk_state)
  : glk_state :=
  {| outputBuffer := outputBuffer s; windows := windows s;
     streams := streams s; currentStream := currentStream s;
     inputState := inputState s; inputResolver := inputResolver s;
     localStorage := localStorage s; arrays := arrays s; structs := m;
     effects := effects s |}.

(** Appends one effect to the record of effects. *)
Definition emit (e : effect) (s : glk_state) : glk_state :=
  {| outputBuffer := outputBuffer s; windows := windows s;
     streams := streams s; currentStream := currentStream s;
     inputState := inputState s; inputResolver := inputResolver s;
     localStorage := localStorage s; arrays := arrays s;
     structs := structs s; effects := effects s ++ [e] |}.

Definition set_pos (p : Z) (st : stream) : stream :=
  {| rock := rock st; write_count := write_count st;
     read_count := read_count st; data := data st; pos := p;
     buf := buf st; buflen := buflen st; fref := fref st;
     fmode := fmode st |}.

Definition set_data (d : list Z) (st : stream) : stream :=
  {| rock := rock st; write_count := write_count st;
     read_count := read_count st; data := d; pos := pos st;
     buf := buf st; buflen := buflen st; fref := fref st;
     fmode := fmode st |}.

Definition set_write_count (n : Z) (st : stream) : stream :=
  {| rock := rock st; write_count := n; read_count := read_count st;
     data := data st; pos := pos st; buf := buf st; buflen := buflen st;
     fref := fref st; fmode := fmode st |}.

Definition set_read_count (n : Z) (st : stream) : stream :=
  {| rock := rock st; write_count := write_count st; read_count := n;
     data := data st; pos := pos st; buf := buf st; buflen := buflen st;
     fref := fref st; fmode := fmode st |}.

Definition set_file (fr : fileref) (fm : Z) (st : stream) : stream :=
  {| rock := rock st; write_count := write_count st;
     read_count := read_count st; data := data st; pos := pos st;
     buf := buf st; buflen := buflen st; fref := Some fr;
     fmode := Some fm |}.

Definition set_memory (b : option nat) (len fm : Z) (st : stream) : stream :=
  {| rock := rock st; write_count := write_count st;
     read_count := read_count st; data := data st; pos := pos st;
     buf := b; buflen := len; fref := fref st; fmode := Some fm |}.

Definition set_input_request_type (k : option request_kind) (w : window)
  : window :=
  {| win_type := win_type w; win_rock := win_rock w; win_str := win_str w;
     input_request_type := k; line_input_buf := line_input_buf w |}.

Definition set_line_input_buf (b : option nat) (w : window) : window :=
  {| win_type := win_type w; win_rock := win_rock w; win_str := win_str w;
     input_request_type := input_request_type w; line_input_buf := b |}.

(** [str.p = f(str.p)] on the stream object named [str]; no object, no
    change. *)
Definition update_stream (str : nat) (f : stream → stream) (s : glk_state)
  : glk_state :=
  set_streams (alter f str (streams s)) s.

Definition update_window (win : nat) (f : window → window) (s : glk_state)
  : glk_state :=
  set_windows (alter f win (windows s)) s.

(** ** The terminal, as the adapter and the host drive it *)

Definition terminal_print (text : jstring) (s : glk_state) : glk_state :=
  emit (TerminalPrint text) s.

Definition terminal_clear (s : glk_state) : glk_state :=
  emit TerminalClear s.

Definition terminal_handleError (text : jstring) (s : glk_state)
  : glk_state :=
  emit (TerminalHandleError text) s.

(** [waitForInput(callback)]: [this.inputResolver = callback]. *)
Definition terminal_waitForInput (cb : callback) (s : glk_state)
  : glk_state :=
  set_inputResolver (Some cb) (emit TerminalWaitForInput s).

(** The texts [terminal.print] has received, in order. *)
Definition printed_of (e : effect) : option jstring :=
  match e with TerminalPrint t => Some t | _ => None end.

Definition printed (s : glk_state) : list jstring :=
  omap printed_of (effects s).

(** ** Stores into the VM's memory *)

(** [b[i] = v] on the array named [b]. *)
Definition array_store (b : nat) (i : Z) (v : jsval) (s : glk_state)
  : glk_state :=
  set_arrays (<[b := js_array_set (arrays s !!! b) i v]> (arrays s))
    (emit (ArrayStore b i v) s).

(** What the stores [es] have left at index [i] of the array [b]:
    [undefined] without a store there, and the value stored last
    otherwise. *)
Definition stored_at (b : nat) (i : Z) (es : list effect) : jsval :=
  foldl (λ v e,
           match e with
           | ArrayStore b' i' v' =>
               if bool_decide (b' = b ∧ i' = i) then v' else v
           | _ => v
           end) Undefined es.

(** [b[i]] on the array named [b], which had no property at a negative
    index when the adapter was created. *)
Definition array_get (b : nat) (i : Z) (s : glk_state) : jsval :=
  if i <? 0 then stored_at b i (effects s)
  else js_array_get (arrays s !!! b) i.

(** [RefStruct.set_field]: [this.fields[idx] = val]. *)
Definition set_field (e : nat) (idx : Z) (v : jsval) (s : glk_state)
  : glk_state :=
  set_structs (<[e := js_array_set (structs s !!! e) idx v]> (structs s))
    (emit (FieldStore e idx v) s).

(** [RefStruct.get_field]: [this.fields[idx] || 0]. *)
Definition get_field (e : nat) (idx : Z) (s : glk_state) : jsval :=
  let v := js_array_get (structs s !!! e) idx in
  if truthy v then v else Num 0.

(** [inputState.pending = p]. *)
Definition set_pending (p : bool) (s : glk_state) : glk_state :=
  set_inputState
    {| is_buffer := is_buffer (inputState s);
       is_maxLen := is_maxLen (inputState s);
       is_pending := p;
       is_event := is_event (inputState s) |}
    (emit (PendingStore p) s).

(** ** [createGlk] *)

Section Adapter.

(** [JSON.parse] of the host, with [None] for the [SyntaxError]. *)
Variable JSON_parse : jstring → option json.

(** [rock || 0] is [rock] on numbers. *)
Definition createStream (rk : Z) (s : glk_state) : nat * glk_state :=
  let str :=
    {| rock := rk; write_count := 0; read_count := 0; data := [];
       pos := 0; buf := None; buflen := 0; fref := None;
       fmode := None |} in
  (length (streams s), set_streams (streams s ++ [str]) s).

Definition createWindow (type rk : Z) (s : glk_state) : nat * glk_state :=
  let '(str, s1) := createStream rk s in
  let win :=
    {| win_type := type; win_rock := rk; win_str := str;
       input_request_type := None; line_input_buf := None |} in
  (length (windows s1), set_windows (windows s1 ++ [win]) s1).

(** The state [createGlk] starts from, in a host with the given
    storage and VM memory: the main window and its stream are created
    first and get the names [mainWindow] and [mainStream]. *)
Definition createGlk (storage : gmap jstring jstring)
    (arrs strs : gmap nat (list jsval)) : glk_state :=
  let s0 :=
    {| outputBuffer := []; windows := []; streams := [];
       currentStream := mainStream;
       inputState :=
         {| is_buffer := None; is_maxLen := 0; is_pending := false;
            is_event := None |};
       inputResolver := None; localStorage := storage; arrays := arrs;
       structs := strs; effects := [] |} in
  let '(_, s1) := createWindow wintype_TextBuffer 201 s0 in
  set_currentStream mainStream s1.

(** [outputBuffer += text]. *)
Definition append_output (text : jstring) (s : glk_state) : glk_state :=
  set_outputBuffer (outputBuffer s ++ text) s.

(** The block [if (outputBuffer) { terminal.print(outputBuffer);
    outputBuffer = ''; }] that [glk_exit], [_request_line],
    [glk_request_char_event] and [update] share. *)
Definition flush_output (s : glk_state) : glk_state :=
  if truthy_string (outputBuffer s)
  then set_outputBuffer [] (terminal_print (outputBuffer s) s)
  else s.

Definition fatal_error (msg : jstring) (s : glk_state) : glk_state :=
  terminal_handleError msg s.

Definition session_ended : jstring :=
  10 :: jstr "*** Game session ended ***".

Definition glk_exit (s : glk_state) : glk_state :=
  terminal_print session_ended (flush_output s).

Definition glk_gestalt (sel : Z) (val : option Z) : Z :=
  if sel =? gestalt_CharOutput then gestalt_CharOutput_ExactPrint
  else if sel =? gestalt_LineInput then 1
  else if sel =? gestalt_Unicode then 1
  else if sel =? 0x1100 then 0
  else 0.

Definition glk_gestalt_ext (sel : Z) (val : option Z) (arr : option nat)
  : Z :=
  glk_gestalt sel val.

(** *** Windows *)

Definition glk_window_open (split method size wintype rk : Z)
    (s : glk_state) : nat * glk_state :=
  createWindow wintype rk s.

Definition glk_window_close (win : nat) (result : option nat)
    (s : glk_state) : glk_state :=
  match result with
  | Some r =>
      match windows s !! win with
      | Some w =>
          match streams s !! win_str w with
          | Some st =>
              set_field r 1 (Num (write_count st))
                (set_field r 0 (Num (read_count st)) s)
          | None => s
          end
      | None => s
      end
  | None => s
  end.

Definition glk_window_get_stream (win : option nat) (s : glk_state)
  : option nat :=
  match win with
  | Some w => win_str <$> windows s !! w
  | None => Some mainStream
  end.

Definition glk_window_clear (win : option nat) (s : glk_state)
  : glk_state :=
  match win with
  | Some w =>
      match windows s !! w with
      | Some wd =>
          if win_type wd =? wintype_TextBuffer then terminal_clear s
          else s
      | None => s
      end
  | None => s
  end.

Definition glk_set_window (win : option nat) (s : glk_state) : glk_state :=
  match win with
  | Some w =>
      match windows s !! w with
      | Some wd => set_currentStream (win_str wd) s
      | None => s
      end
  | None => s
  end.

Definition glk_window_get_parent (win : option nat) : nat := mainWindow.

(** *** Streams *)

Definition glk_stream_set_current (str : option nat) (s : glk_state)
  : glk_state :=
  set_currentStream (default mainStream str) s.

Definition glk_stream_get_current (s : glk_state) : nat := currentStream s.

(** What [glk_stream_open_file] returns: the stream, the state, and in
    [opened_value] the value [str.data] was given when that value is not
    an array of numbers. The adapter keeps such a value as it is; the
    stream of the state cannot hold it and shows the empty array of
    [createStream] in its place. *)
Record opened := Opened {
  opened_stream : nat;
  opened_state : glk_state;
  opened_value : option json
}.

Definition glk_stream_open_file (fr : fileref) (fm rk : Z) (s : glk_state)
  : opened :=
  let '(str, s1) := createStream rk s in
  let s2 := update_stream str (set_file fr fm) s1 in
  if (fm =? filemode_Read) || (fm =? filemode_ReadWrite) then
    match localStorage s2 !! filename fr with
    | Some saved =>
        if truthy_string saved then
          match JSON_parse saved with
          | Some v =>
              match number_array v with
              | Some d => Opened str (update_stream str (set_data d) s2) None
              | None => Opened str s2 (Some v)
              end
          | None => Opened str (update_stream str (set_data []) s2) None
          end
        else Opened str s2 None
    | None => Opened str s2 None
    end
  else Opened str s2 None.

Definition glk_stream_open_file_uni := glk_stream_open_file.

Definition glk_stream_open_memory (bf : option nat) (len fm rk : Z)
    (s : glk_state) : nat * glk_state :=
  let '(str, s1) := createStream rk s in
  (str, update_stream str (set_memory bf len fm) s1).

Definition glk_stream_open_memory_uni := glk_stream_open_memory.

Definition glk_stream_close (str : nat) (result : option nat)
    (s : glk_state) : glk_state :=
  match streams s !! str with
  | Some st =>
      let s1 :=
        match result with
        | Some r =>
            set_field r 1 (Num (write_count st))
              (set_field r 0 (Num (read_count st)) s)
        | None => s
        end in
      match fref st with
      | Some fr =>
          if bool_decide (fmode st = Some filemode_Write)
             || bool_decide (fmode st = Some filemode_ReadWrite)
          then set_localStorage
                 (<[filename fr := JSON_stringify (data st)]>
                    (localStorage s1)) s1
          else s1
      | None => s1
      end
  | None => s
  end.

Definition glk_stream_set_position (str : nat) (p seekmode : Z)
    (s : glk_state) : glk_state :=
  if seekmode =? seekmode_Start then update_stream str (set_pos p) s
  else if seekmode =? seekmode_Current then
    update_stream str (λ st, set_pos (pos st + p) st) s
  else if seekmode =? seekmode_End then
    update_stream str
      (λ st, set_pos ((if truthy_array (data st)
                       then Z.of_nat (length (data st)) else 0) + p) st) s
  else s.

Definition glk_stream_get_position (str : nat) (s : glk_state)
  : option Z :=
  pos <$> streams s !! str.

(** *** Output *)

(** [str === mainStream || str === currentStream]. *)
Definition to_screen (str : nat) (s : glk_state) : bool :=
  bool_decide (str = mainStream) || bool_decide (str = currentStream s).

Definition glk_put_char (ch : Z) (s : glk_state) : glk_state :=
  append_output (String_fromCharCode ch) s.

Definition glk_put_char_stream (str : nat) (ch : Z) (s : glk_state)
  : glk_state :=
  let s1 :=
    if to_screen str s then append_output (String_fromCharCode ch) s
    else
      match streams s !! str with
      | Some st =>
          match buf st with
          | Some b =>
              if pos st <? buflen st
              then update_stream str (set_pos (pos st + 1))
                     (array_store b (pos st) (Num ch) s)
              else s
          | None =>
              if truthy_array (data st)
              then update_stream str (set_data (data st ++ [ch])) s
              else s
          end
      | None => s
      end in
  update_stream str (λ st, set_write_count (write_count st + 1) st) s1.

Definition glk_put_string (text : jstring) (s : glk_state) : glk_state :=
  append_output text s.

(** The loop [for (i...) str.data.push(text.charCodeAt(i))] appends the
    units of [text]. *)
Definition glk_put_string_stream (str : nat) (text : jstring)
    (s : glk_state) : glk_state :=
  let s1 :=
    if to_screen str s then append_output text s
    else
      match streams s !! str with
      | Some st =>
          if truthy_array (data st)
          then update_stream str (set_data (data st ++ text)) s
          else s
      | None => s
      end in
  update_stream str
    (λ st, set_write_count (write_count st + str_length text) st) s1.

Definition glk_put_buffer (bf : list Z) (s : glk_state) : glk_state :=
  foldl (λ s' c, append_output (String_fromCharCode c) s') s bf.

(** The loop of the [str.buf] branch of [glk_put_buffer_stream]:
    [for (i...; i < buf.length && str.pos < str.buflen; i++)
       str.buf[str.pos++] = buf[i]]. *)
Fixpoint put_buffer_loop (str b : nat) (bf : list Z) (s : glk_state)
  : glk_state :=
  match bf with
  | [] => s
  | c :: rest =>
      match streams s !! str with
      | Some st =>
          if pos st <? buflen st
          then put_buffer_loop str b rest
                 (update_stream str (set_pos (pos st + 1))
                    (array_store b (pos st) (Num c) s))
          else s
      | None => s
      end
  end.

Definition glk_put_buffer_stream (str : nat) (bf : list Z) (s : glk_state)
  : glk_state :=
  let s1 :=
    if to_screen str s
    then foldl (λ s' c, append_output (String_fromCharCode c) s') s bf
    else
      match streams s !! str with
      | Some st =>
          if truthy_array (data st)
          then update_stream str (set_data (data st ++ bf)) s
          else
            match buf st with
            | Some b => put_buffer_loop str b bf s
            | None => s
            end
      | None => s
      end in
  update_stream str
    (λ st, set_write_count (write_count st + Z.of_nat (length bf)) st) s1.

(** A call that may throw ends in [Returned] or in [Thrown], each with
    the state it leaves. *)
Inductive outcome :=
  | Returned (s : glk_state)
  | Thrown (s : glk_state).

Definition state_of (o : outcome) : glk_state :=
  match o with Returned s | Thrown s => s end.

Definition glk_put_char_uni (ch : Z) (s : glk_state) : outcome :=
  match String_fromCodePoint ch with
  | Some t => Returned (append_output t s)
  | None => Thrown s
  end.

Definition glk_put_char_stream_uni := glk_put_char_stream.

Definition glk_put_string_uni (text : jstring) (s : glk_state)
  : glk_state :=
  append_output text s.

Fixpoint glk_put_buffer_uni (bf : list Z) (s : glk_state) : outcome :=
  match bf with
  | [] => Returned s
  | c :: rest =>
      match String_fromCodePoint c with
      | Some t => glk_put_buffer_uni rest (append_output t s)
      | None => Thrown s
      end
  end.

Definition glk_put_jstring (text : jstring) (s : glk_state) : glk_state :=
  if truthy_string text then append_output text s else s.

Definition glk_put_jstring_stream (str : nat) (text : jstring)
    (s : glk_state) : glk_state :=
  if negb (truthy_string text) then s
  else
    let s1 :=
      if to_screen str s then append_output text s
      else
        match streams s !! str with
        | Some st =>
            if truthy_array (data st)
            then update_stream str (set_data (data st ++ text)) s
            else s
        | None => s
        end in
    update_stream str
      (λ st, set_write_count (write_count st + str_length text) st) s1.

(** *** Reading from a stream *)

(** [str.read_count++] and the [str.pos++] of the indexing. *)
Definition advance_read (st : stream) : stream :=
  set_pos (pos st + 1) (set_read_count (read_count st + 1) st).

Definition glk_get_char_stream (str : nat) (s : glk_state)
  : jsval * glk_state :=
  match streams s !! str with
  | Some st =>
      match (* str.buf && str.pos < str.buflen *)
            (if pos st <? buflen st then buf st else None) with
      | Some b =>
          (array_get b (pos st) s, update_stream str advance_read s)
      | None =>
          if truthy_array (data st)
             && (pos st <? Z.of_nat (length (data st)))
          then (data_get (data st) (pos st),
                update_stream str advance_read s)
          else (Num (-1), s)
      end
  | None => (Undefined, s)
  end.

Definition glk_get_char_stream_uni := glk_get_char_stream.

(** The loop of [glk_get_buffer_stream] over the indices still to
    fill, with [count] so far. *)
Fixpoint get_buffer_loop (str b : nat) (idxs : list Z) (count : Z)
    (s : glk_state) : Z * glk_state :=
  match idxs with
  | [] => (count, s)
  | i :: rest =>
      let '(ch, s1) := glk_get_char_stream str s in
      if bool_decide (ch = Num (-1)) then (count, s1)
      else get_buffer_loop str b rest (count + 1) (array_store b i ch s1)
  end.

(** [len || buf.length]. *)
Definition len_or_length (len : Z) (b : nat) (s : glk_state) : Z :=
  if len =? 0 then Z.of_nat (length (arrays s !!! b)) else len.

Definition glk_get_buffer_stream (str b : nat) (len : Z) (s : glk_state)
  : Z * glk_state :=
  get_buffer_loop str b (seqZ 0 (len_or_length len b s)) 0 s.

Definition glk_get_buffer_stream_uni := glk_get_buffer_stream.

Fixpoint get_line_loop (str b : nat) (idxs : list Z) (count : Z)
    (s : glk_state) : Z * glk_state :=
  match idxs with
  | [] => (count, s)
  | i :: rest =>
      let '(ch, s1) := glk_get_char_stream str s in
      if bool_decide (ch = Num (-1)) then (count, s1)
      else
        let s2 := array_store b i ch s1 in
        if bool_decide (ch = Num 10) then (count + 1, s2)
        else get_line_loop str b rest (count + 1) s2
  end.

Definition glk_get_line_stream (str b : nat) (len : Z) (s : glk_state)
  : Z * glk_state :=
  get_line_loop str b (seqZ 0 (len_or_length len b s - 1)) 0 s.

Definition glk_get_line_stream_uni := glk_get_line_stream.

(** *** Input requests and events *)

(** The loop of the callback: [for (let i = 0; i < len; i++)
    inputState.buffer[i] = input.charCodeAt(i)]. *)
Definition copy_input (b : nat) (input : jstring) (len : Z) (s : glk_state)
  : glk_state :=
  foldl (λ s' i, array_store b i (charCodeAt input i) s') s (seqZ 0 len).

(** The body of the arrow function [_request_line] hands to
    [terminal.waitForInput]; it reads [inputState] when it runs. *)
Definition line_input_callback (input : jstring) (s : glk_state)
  : glk_state :=
  match is_buffer (inputState s) with
  | Some b =>
      if is_pending (inputState s) then
        let len := Z.min (str_length input) (is_maxLen (inputState s)) in
        let s1 := copy_input b input len s in
        let s2 :=
          match is_event (inputState s1) with
          | Some e => set_field e 2 (Num len) s1
          | None => s1
          end in
        set_pending false s2
      else s
  | None => s
  end.

Definition run_callback (cb : callback) (input : jstring) (s : glk_state)
  : glk_state :=
  match cb with LineInputCallback => line_input_callback input s end.

Definition _request_line (win bf : option nat) (initlen : Z)
    (s : glk_state) : glk_state :=
  let s1 := flush_output s in
  let maxlen :=
    match bf with
    | Some b => Z.of_nat (length (arrays s1 !!! b))
    | None => 0
    end in
  let s2 :=
    set_pending true
      (set_inputState
         {| is_buffer := bf; is_maxLen := maxlen;
            is_pending := is_pending (inputState s1);
            is_event := is_event (inputState s1) |} s1) in
  let s3 :=
    match win with
    | Some w =>
        update_window w
          (λ wd, set_line_input_buf bf
                   (set_input_request_type (Some LineRequest) wd)) s2
    | None => s2
    end in
  terminal_waitForInput LineInputCallback s3.

Definition glk_request_line_event := _request_line.
Definition glk_request_line_event_uni := _request_line.

Definition glk_request_char_event (win : option nat) (s : glk_state)
  : glk_state :=
  let s1 := flush_output s in
  match win with
  | Some w => update_window w (set_input_request_type (Some CharRequest)) s1
  | None => s1
  end.

Definition glk_request_char_event_uni := glk_request_char_event.

Definition glk_cancel_line_event (win event : option nat) (s : glk_state)
  : glk_state :=
  let s1 :=
    match win with
    | Some w =>
        update_window w
          (λ wd, set_line_input_buf None (set_input_request_type None wd))
          s
    | None => s
    end in
  match event with
  | Some e => set_field e 0 (Num 0) s1
  | None => s1
  end.

Definition glk_cancel_char_event (win : option nat) (s : glk_state)
  : glk_state :=
  match win with
  | Some w => update_window w (set_input_request_type None) s
  | None => s
  end.

Definition glk_select (event : nat) (s : glk_state) : glk_state :=
  let s1 :=
    set_inputState
      {| is_buffer := is_buffer (inputState s);
         is_maxLen := is_maxLen (inputState s);
         is_pending := is_pending (inputState s);
         is_event := Some event |} s in
  set_field event 3 (Num 0)
    (set_field event 2 (Num 0)
       (set_field event 1 (WinRef mainWindow)
          (set_field event 0 (Num evtype_LineInput) s1))).

Definition glk_select_poll (event : nat) (s : glk_state) : glk_state :=
  set_field event 0 (Num evtype_None) s.

(** *** File references and the per-step flush *)

Definition glk_fileref_create_by_prompt (usage fm rk : Z) : fileref :=
  {| fref_rock := rk; fref_usage := usage; fref_fmode := Some fm;
     filename := jstr "zork1-save" |}.

Definition glk_fileref_create_by_name (usage : Z) (name : jstring)
    (rk : Z) : fileref :=
  {| fref_rock := rk; fref_usage := usage; fref_fmode := None;
     filename := name |}.

Definition glk_fileref_does_file_exist (fr : fileref) (s : glk_state)
  : Z :=
  match localStorage s !! filename fr with Some _ => 1 | None => 0 end.

Definition update (s : glk_state) : glk_state := flush_output s.

(** ** The host side: [ZorkTerminal.handleCommand]

    Of [handleCommand] the part that reaches the adapter: the pending
    resolver is taken out of its slot and called with the command. The
    echo, the history and [vm.resume] belong to the page and the VM. *)
Definition handleCommand (command : jstring) (s : glk_state) : glk_state :=
  match inputResolver s with
  | Some resolver => run_callback resolver command (set_inputResolver None s)
  | None => s
  end.

(** ** Sequences of calls

    The calls of the VM that change the state, as data; the value a
    call returns is dropped. Left out are the functions with an empty
    body or a constant result (the style hints, [glk_tick],
    [glk_window_move_cursor], [glk_window_set_arrangement], the
    iterators, [glk_window_get_parent], [glk_fileref_destroy]), the pure
    queries, and [glk_window_get_size], which only stores 80 and 24 into
    the [RefBox]es it is given. A session is followed in the state that
    [glk_stream_open_file] returns, also where [opened_value] says that
    the adapter holds more than this state shows. *)
Inductive call :=
  | Fatal_error (msg : jstring)
  | Exit
  | Window_open (split method size wintype rk : Z)
  | Window_close (win : nat) (result : option nat)
  | Window_clear (win : option nat)
  | Set_window (win : option nat)
  | Stream_set_current (str : option nat)
  | Stream_open_file (fr : fileref) (fm rk : Z)
  | Stream_open_memory (bf : option nat) (len fm rk : Z)
  | Stream_close (str : nat) (result : option nat)
  | Stream_set_position (str : nat) (p seekmode : Z)
  | Put_char (ch : Z)
  | Put_char_stream (str : nat) (ch : Z)
  | Put_string (text : jstring)
  | Put_string_stream (str : nat) (text : jstring)
  | Put_buffer (bf : list Z)
  | Put_buffer_stream (str : nat) (bf : list Z)
  | Put_char_uni (ch : Z)
  | Put_char_stream_uni (str : nat) (ch : Z)
  | Put_string_uni (text : jstring)
  | Put_buffer_uni (bf : list Z)
  | Put_jstring (text : jstring)
  | Put_jstring_stream (str : nat) (text : jstring)
  | Get_char_stream (str : nat)
  | Get_buffer_stream (str b : nat) (len : Z)
  | Get_line_stream (str b : nat) (len : Z)
  | Request_line_event (win bf : option nat) (initlen : Z)
  | Request_char_event (win : option nat)
  | Cancel_line_event (win event : option nat)
  | Cancel_char_event (win : option nat)
  | Select (event : nat)
  | Select_poll (event : nat)
  | Update.

Definition step (c : call) (s : glk_state) : glk_state :=
  match c with
  | Fatal_error msg => fatal_error msg s
  | Exit => glk_exit s
  | Window_open split method size wintype rk =>
      (glk_window_open split method size wintype rk s).2
  | Window_close win result => glk_window_close win result s
  | Window_clear win => glk_window_clear win s
  | Set_window win => glk_set_window win s
  | Stream_set_current str => glk_stream_set_current str s
  | Stream_open_file fr fm rk =>
      opened_state (glk_stream_open_file fr fm rk s)
  | Stream_open_memory bf len fm rk =>
      (glk_stream_open_memory bf len fm rk s).2
  | Stream_close str result => glk_stream_close str result s
  | Stream_set_position str p seekmode =>
      glk_stream_set_position str p seekmode s
  | Put_char ch => glk_put_char ch s
  | Put_char_stream str ch => glk_put_char_stream str ch s
  | Put_string text => glk_put_string text s
  | Put_string_stream str text => glk_put_string_stream str text s
  | Put_buffer bf => glk_put_buffer bf s
  | Put_buffer_stream str bf => glk_put_buffer_stream str bf s
  | Put_char_uni ch => state_of (glk_put_char_uni ch s)
  | Put_char_stream_uni str ch => glk_put_char_stream_uni str ch s
  | Put_string_uni text => glk_put_string_uni text s
  | Put_buffer_uni bf => state_of (glk_put_buffer_uni bf s)
  | Put_jstring text => glk_put_jstring text s
  | Put_jstring_stream str text => glk_put_jstring_stream str text s
  | Get_char_stream str => (glk_get_char_stream str s).2
  | Get_buffer_stream str b len => (glk_get_buffer_stream str b len s).2
  | Get_line_stream str b len => (glk_get_line_stream str b len s).2
  | Request_line_event win bf initlen =>
      glk_request_line_event win bf initlen s
  | Request_char_event win => glk_request_char_event win s
  | Cancel_line_event win event => glk_cancel_line_event win event s
  | Cancel_char_event win => glk_cancel_char_event win s
  | Select event => glk_select event s
  | Select_poll event => glk_select_poll event s
  | Update => update s
  end.

Definition run (cs : list call) (s : glk_state) : glk_state :=
  foldl (λ s' c, step c s') s cs.

(** ** Notions the properties are stated with *)

(** Everything [terminal.print] has received, as one text. *)
Definition printed_text (s : glk_state) : jstring := concat (printed s).

(** The text of the code points of [bf] up to the first one
    [String.fromCodePoint] rejects. *)
Fixpoint code_points_text (bf : list Z) : jstring :=
  match bf with
  | [] => []
  | c :: rest =>
      match String_fromCodePoint c with
      | Some t => t ++ code_points_text rest
      | None => []
      end
  end.

(** The text a call writes to the selected stream: that of a write
    without a stream argument, and that of a write to a stream when the
    stream is the main or the current one. The text of a character is
    its one unit, the text of a code point its UTF-16 encoding. *)
Definition written_by (c : call) (s : glk_state) : jstring :=
  match c with
  | Put_char ch => String_fromCharCode ch
  | Put_string text | Put_string_uni text | Put_jstring text => text
  | Put_buffer bf => bf ≫= String_fromCharCode
  | Put_char_uni ch => default [] (String_fromCodePoint ch)
  | Put_buffer_uni bf => code_points_text bf
  | Put_char_stream str ch =>
      if to_screen str s then String_fromCharCode ch else []
  | Put_char_stream_uni str ch =>
      if to_screen str s then default [] (String_fromCodePoint ch) else []
  | Put_string_stream str text | Put_jstring_stream str text =>
      if to_screen str s then text else []
  | Put_buffer_stream str bf =>
      if to_screen str s then bf ≫= String_fromCharCode else []
  | _ => []
  end.

(** The written text of a sequence of calls, in call order. *)
Fixpoint written_text (cs : list call) (s : glk_state) : jstring :=
  match cs with
  | [] => []
  | c :: rest => written_by c s ++ written_text rest (step c s)
  end.

(** The same with the closing line of [glk_exit] at each [Exit]. *)
Definition shown_by (c : call) (s : glk_state) : jstring :=
  match c with
  | Exit => session_ended
  | _ => written_by c s
  end.

Fixpoint shown_text (cs : list call) (s : glk_state) : jstring :=
  match cs with
  | [] => []
  | c :: rest => shown_by c s ++ shown_text rest (step c s)
  end.

(** The value [glk_stream_open_file] gives [str.data]: that of
    [JSON.parse] on a stored text that is not empty, when the stream is
    opened for reading; the empty array when [JSON.parse] throws; and
    otherwise the empty array of [createStream]. *)
Definition loaded_value (fr : fileref) (fm : Z) (s : glk_state) : json :=
  if (fm =? filemode_Read) || (fm =? filemode_ReadWrite)
  then match localStorage s !! filename fr with
       | Some saved =>
           if truthy_string saved
           then default (number_json []) (JSON_parse saved)
           else number_json []
       | None => number_json []
       end
  else number_json [].

(** Every call of a sequence satisfies [ok] in the state it is made
    in. *)
Fixpoint every_call (ok : call → glk_state → bool) (cs : list call)
    (s : glk_state) : Prop :=
  match cs with
  | [] => True
  | c :: rest => ok c s = true ∧ every_call ok rest (step c s)
  end.

(** The writes whose text reaches the output buffer as it is. Left out
    is [glk_put_char_stream_uni] to the screen with a code point that is
    not a single unit. *)
Definition keeps_text (c : call) (s : glk_state) : bool :=
  match c with
  | Put_char_stream_uni str ch =>
      negb (to_screen str s) || ((0 <=? ch) && (ch <=? 0xFFFF))
  | _ => true
  end.

(** The flush checkpoints. *)
Definition is_flush (c : call) : bool :=
  match c with
  | Update | Request_line_event _ _ _ | Request_char_event _ | Exit => true
  | _ => false
  end.

(** What the user has seen and what is waiting to be seen. *)
Definition screen (s : glk_state) : list jstring * jstring :=
  (printed s, outputBuffer s).

(** A state shows [t] more than another when the printed text followed
    by the buffer has grown by [t]. *)
Definition shows (s s' : glk_state) (t : jstring) : Prop :=
  printed_text s' ++ outputBuffer s' = printed_text s ++ outputBuffer s ++ t.

(** The host delivers the lines [inputs], one [handleCommand] each. *)
Definition deliver_lines (inputs : list jstring) (s : glk_state) : glk_state :=
  foldl (λ s' t, handleCommand t s') s inputs.

(** The capacity [buf.length] of the array named [b]. *)
Definition capacity (b : nat) (s : glk_state) : Z :=
  Z.of_nat (length (arrays s !!! b)).

(** A stream has a unit left to read when its cursor is below the
    capacity of its bound buffer or below the length of its data. *)
Definition has_more (st : stream) : bool :=
  (bool_decide (is_Some (buf st)) && (pos st <? buflen st))
  || (pos st <? Z.of_nat (length (data st))).

(** The unit under the cursor of a stream that has one. *)
Definition unit_at_cursor (st : stream) (s : glk_state) : jsval :=
  match buf st with
  | Some b =>
      if pos st <? buflen st then array_get b (pos st) s
      else data_get (data st) (pos st)
  | None => data_get (data st) (pos st)
  end.

(** With its cursor at [p] the stream has a unit left in the state [s],
    and the unit is the number -1, which the bulk and the line read take
    for the end of the data. *)
Definition sentinel_unit_at (p : Z) (st : stream) (s : glk_state) : Prop :=
  has_more (set_pos p st) = true
  ∧ unit_at_cursor (set_pos p st) s = Num (-1).



(** A bulk write to the stream [str] goes into [str.data] although the
    stream is bound to an array. *)
Definition misses_bound_array (str : nat) (s : glk_state) : bool :=
  negb (to_screen str s)
  && match streams s !! str with
     | Some st => bool_decide (is_Some (buf st))
     | None => false
     end.

(** The calls the bounds of the cursor are stated for. Left out are the
    seek, a bulk write of units that misses a bound array, the opening
    of a memory stream over an array with a negative capacity, and the
    opening of a file whose stored text is a value that the streams of
    the model do not hold. *)
Definition keeps_bounds (c : call) (s : glk_state) : bool :=
  match c with
  | Stream_set_position _ _ _ => false
  | Stream_open_memory bf len _ _ =>
      match bf with Some _ => 0 <=? len | None => true end
  | Stream_open_file fr fm rk =>
      match opened_value (glk_stream_open_file fr fm rk s) with
      | None => true
      | Some _ => false
      end
  | Put_string_stream str text | Put_jstring_stream str text
  | Put_buffer_stream str text =>
      negb (misses_bound_array str s && truthy_string text)
  | _ => true
  end.


(** A stream is another one read [n] units further: cursor and read
    counter are [n] higher and the rest is the same. *)
Definition advanced_by (n : Z) (st st' : stream) : Prop :=
  pos st' = pos st + n ∧ read_count st' = read_count st + n
  ∧ data st' = data st ∧ buf st' = buf st ∧ buflen st' = buflen st
  ∧ write_count st' = write_count st.

End Adapter.

(** ** Concrete sessions

    The sessions the properties are tried on: [JSON.parse] is
    [NumericJSON.parse]; the VM owns the arrays 7 and 8 and the event
    structure 9. *)

Definition ten_zeros : gmap nat (list jsval) :=
  {[ 7%nat := replicate 10 (Num 0); 8%nat := replicate 10 (Num 0) ]}.

Definition one_struct : gmap nat (list jsval) :=
  {[ 9%nat := [Num 0; Num 0; Num 0; Num 0] ]}.

Definition slot1 : fileref := glk_fileref_create_by_name 0 (jstr "slot1") 0.
Definition slot2 : fileref := glk_fileref_create_by_name 0 (jstr "slot2") 0.

(** The state after a line request on the main window with array 7 and a
    [glk_select] with structure 9. *)
Definition waiting_for_line : glk_state :=
  glk_select 9
    (glk_request_line_event (Some mainWindow) (Some 7%nat) 0
       (createGlk ∅ ten_zeros one_struct)).

(** The state after a file stream for [slot1] was opened for writing
    (it gets the name 1) and [1, 2, 3] was written to it. *)
Definition saving_123 : glk_state :=
  run NumericJSON.parse
    [Stream_open_file slot1 filemode_Write 0; Put_buffer_stream 1 [1; 2; 3]]
    (createGlk ∅ ∅ ∅).

(** The state after a memory stream over array 7 with capacity 4 was
    opened (it gets the name 1). *)
Definition memory_stream_open : glk_state :=
  (glk_stream_open_memory (Some 7%nat) 4 filemode_Write 0
     (createGlk ∅ {[ 7%nat := replicate 4 (Num 0) ]} ∅)).2.

(** ** Further notions *)

(** What identifies a window among the windows: its kind and the stream
    it owns. *)
Definition window_shape (w : window) : Z * nat := (win_type w, win_str w).

(** Every window owns a stream of the table, no two windows own the same
    one, and the first window is the text-buffer window that owns the
    main stream. *)
Definition windows_own_streams (s : glk_state) : Prop :=
  Forall (λ w, (win_str w < length (streams s))%nat) (windows s)
  ∧ NoDup (win_str <$> windows s)
  ∧ window_shape <$> windows s !! mainWindow
    = Some (wintype_TextBuffer, mainStream).

(** A state differs from another in its streams and arrays (and the
    record of stores) at most, with as many streams. *)
Definition same_but_streams_arrays (s s' : glk_state) : Prop :=
  outputBuffer s' = outputBuffer s ∧ windows s' = windows s
  ∧ currentStream s' = currentStream s ∧ inputState s' = inputState s
  ∧ inputResolver s' = inputResolver s ∧ localStorage s' = localStorage s
  ∧ structs s' = structs s ∧ printed s' = printed s
  ∧ length (streams s') = length (streams s).

(** The code points [String.fromCodePoint] accepts. *)
Definition valid_code_point (cp : Z) : Prop := 0 ≤ cp ≤ 0x10FFFF.

(** The texts a call hands to [terminal.print], in order. *)
Definition prints_of (c : call) (s : glk_state) : list jstring :=
  if is_flush c then
    (if truthy_string (outputBuffer s) then [outputBuffer s] else [])
    ++ match c with Exit => [session_ended] | _ => [] end
  else [].

Definition is_line_request (c : call) : bool :=
  match c with Request_line_event _ _ _ => true | _ => false end.

Definition is_select (c : call) : bool :=
  match c with Select _ => true | _ => false end.

(** The VM writes the units [cs] to a stream one [glk_put_char_stream]
    at a time. *)
Definition put_chars (str : nat) (cs : list Z) (s : glk_state) : glk_state :=
  foldl (λ s' c, glk_put_char_stream str c s') s cs.

(** ** Further concrete sessions *)

(** The state after a file stream for [slot1] was opened for writing (it
    gets the name 1); the VM owns the arrays 7 and 8 and the structure
    9. *)
Definition file_stream_open : glk_state :=
  run NumericJSON.parse [Stream_open_file slot1 filemode_Write 0]
    (createGlk ∅ ten_zeros one_struct).

(** The state after "hi", a newline and "x" were written to that
    stream. *)
Definition two_lines_written : glk_state :=
  glk_put_buffer_stream 1 [104; 105; 10; 120] file_stream_open.

(** The state after two file streams were opened for writing through
    prompted references (they get the names 1 and 2) and written to. *)
Definition two_saves : glk_state :=
  run NumericJSON.parse
    [Stream_open_file (glk_fileref_create_by_prompt 0 filemode_Write 0)
       filemode_Write 0;
     Put_buffer_stream 1 [1; 2];
     Stream_open_file (glk_fileref_create_by_prompt 1 filemode_Write 5)
       filemode_Write 0;
     Put_buffer_stream 2 [7; 8; 9]]
    (createGlk ∅ ∅ ∅).

(** ** The terminal of the page ([ZorkTerminal], js/main.js)

    The state of a [ZorkTerminal] that its methods read and write: the
    children of the output element, the value and the [disabled] flag of
    the input element, the command history with its index, and the
    resolver. Scrolling, focus and styling are left out; [vm.resume] is
    the VM's. *)
Module ZorkTerminal.

(** A [div] appended to the output element. *)
Record div := Div {
  className : jstring;
  textContent : jstring
}.

Record terminal := Terminal {
  output : list div;
  inputValue : jstring;
  inputDisabled : bool;
  commandHistory : list jstring;
  historyIndex : Z;
  inputResolver : option callback
}.

(** The terminal the constructor makes, over the page as it finds it. *)
Definition new_terminal (out : list div) (value : jstring) (disabled : bool)
  : terminal :=
  {| output := out; inputValue := value; inputDisabled := disabled;
     commandHistory := []; historyIndex := -1; inputResolver := None |}.

(** [text.split(sep)] for a separator of one unit; [cur] holds the
    current piece, reversed. *)
Fixpoint split_on (sep : Z) (cur : jstring) (t : jstring) : list jstring :=
  match t with
  | [] => [reverse cur]
  | c :: r =>
      if c =? sep then reverse cur :: split_on sep [] r
      else split_on sep (c :: cur) r
  end.

(** The white space and line terminators [String.prototype.trim]
    strips. *)
Definition is_white_space (c : Z) : bool :=
  bool_decide (c ∈ [0x09; 0x0A; 0x0B; 0x0C; 0x0D; 0x20; 0xA0; 0x1680;
                    0x2028; 0x2029; 0x202F; 0x205F; 0x3000; 0xFEFF])
  || ((0x2000 <=? c) && (c <=? 0x200A)).

Fixpoint trim_start (t : jstring) : jstring :=
  match t with
  | [] => []
  | c :: r => if is_white_space c then trim_start r else t
  end.

Definition trim (t : jstring) : jstring :=
  reverse (trim_start (reverse (trim_start t))).

Definition nbsp : jstring := [0xA0].

(** The [div]s [print(text)] appends: one per line, but none for an
    empty first line, and a no-break space for an empty line. *)
Definition line_div (i : nat) (line : jstring) : option div :=
  if negb (i =? 0)%nat || truthy_string line
  then Some {| className := [];
               textContent := if truthy_string line then line else nbsp |}
  else None.

Definition print_divs (text : jstring) : list div :=
  omap id (imap line_div (split_on 10 [] text)).

Definition print (text : jstring) (t : terminal) : terminal :=
  if negb (truthy_string text) then t
  else
    {| output := output t ++ print_divs text; inputValue := inputValue t;
       inputDisabled := inputDisabled t;
       commandHistory := commandHistory t; historyIndex := historyIndex t;
       inputResolver := inputResolver t |}.

Definition clear (t : terminal) : terminal :=
  {| output := []; inputValue := inputValue t;
     inputDisabled := inputDisabled t; commandHistory := commandHistory t;
     historyIndex := historyIndex t; inputResolver := inputResolver t |}.

Definition handleError (message : jstring) (t : terminal) : terminal :=
  {| output := output t
               ++ [{| className := jstr "status";
                      textContent := jstr "Error: " ++ message |}];
     inputValue := inputValue t; inputDisabled := inputDisabled t;
     commandHistory := commandHistory t; historyIndex := historyIndex t;
     inputResolver := inputResolver t |}.

Definition waitForInput (cb : callback) (t : terminal) : terminal :=
  {| output := output t; inputValue := inputValue t; inputDisabled := false;
     commandHistory := commandHistory t; historyIndex := historyIndex t;
     inputResolver := Some cb |}.

Definition set_history_view (idx : Z) (value : jstring) (t : terminal)
  : terminal :=
  {| output := output t; inputValue := value;
     inputDisabled := inputDisabled t; commandHistory := commandHistory t;
     historyIndex := idx; inputResolver := inputResolver t |}.

Definition navigateHistory (direction : Z) (t : terminal) : terminal :=
  if bool_decide (commandHistory t = []) then t
  else
    let idx := historyIndex t + direction in
    if idx <? 0 then
      set_history_view 0 (default [] (commandHistory t !! 0%nat)) t
    else if Z.of_nat (length (commandHistory t)) <=? idx then
      set_history_view (Z.of_nat (length (commandHistory t))) [] t
    else
      set_history_view idx
        (default [] (commandHistory t !! Z.to_nat idx)) t.

(** [handleCommand]: the terminal it leaves, the command, and the
    resolver it calls with the command, if there is one. *)
Definition handleCommand (t : terminal)
  : terminal * jstring * option callback :=
  let command := inputValue t in
  let recorded := truthy_string (trim command) in
  let history :=
    if recorded then commandHistory t ++ [command] else commandHistory t in
  ({| output := output t
                ++ [{| className := jstr "command-echo";
                       textContent := jstr "> " ++ command |}];
      inputValue := [];
      inputDisabled := true;
      commandHistory := history;
      historyIndex := if recorded then Z.of_nat (length history)
                      else historyIndex t;
      inputResolver := None |},
   command, inputResolver t).

(** The keys the [keydown] listener of [setupEventListeners] handles. *)
Inductive key := Enter | ArrowUp | ArrowDown | OtherKey.

Definition keydown (k : key) (t : terminal) : terminal :=
  match k with
  | Enter => (handleCommand t).1.1
  | ArrowUp => navigateHistory (-1) t
  | ArrowDown => navigateHistory 1 t
  | OtherKey => t
  end.

(** What happens to a terminal: a key goes down in the input field, the
    user edits the field to a new value, or the adapter calls a
    method. *)
Inductive event :=
  | Keydown (k : key)
  | Edit (value : jstring)
  | CallPrint (text : jstring)
  | CallClear
  | CallHandleError (message : jstring)
  | CallWaitForInput (cb : callback).

Definition handle (e : event) (t : terminal) : terminal :=
  match e with
  | Keydown k => keydown k t
  | Edit value => set_history_view (historyIndex t) value t
  | CallPrint text => print text t
  | CallClear => clear t
  | CallHandleError message => handleError message t
  | CallWaitForInput cb => waitForInput cb t
  end.

Definition handle_all (es : list event) (t : terminal) : terminal :=
  foldl (λ t' e, handle e t') t es.

(** The history index is where the listener can use it. *)
Definition history_index_ok (t : terminal) : Prop :=
  (commandHistory t = [] ∧ historyIndex t = -1)
  ∨ (commandHistory t ≠ [] ∧
     0 ≤ historyIndex t ≤ Z.of_nat (length (commandHistory t))).

(** The terminal after "look" and "north" were entered. *)
Definition two_commands_entered : terminal :=
  handle_all
    [Edit (jstr "look"); Keydown Enter; Edit (jstr "north"); Keydown Enter]
    (new_terminal [] [] false).

End ZorkTerminal.

(** * Properties *)

(** ** [NumericJSON.parse] reads what [JSON_stringify] writes *)

Lemma parse_digits_acc d acc :
  NumericJSON.parse_digits (Z.pos acc) (uint_digits d)
  = Some (Z.pos (Pos.of_uint_acc d acc)).
Proof.
  revert acc.
  induction d as [|d IH|d IH|d IH|d IH|d IH|d IH|d IH|d IH|d IH|d IH];
    intros acc; [done|..];
    cbn [uint_digits NumericJSON.parse_digits Pos.of_uint_acc];
    unfold NumericJSON.digit_value; cbn [Z.leb Z.compare Pos.compare
      Pos.compare_cont andb Z.sub Z.add Z.opp Z.pos_sub Pos.pred_double
      Z.double Z.succ_double Z.pred_double];
    rewrite <- IH; f_equal; lia.
Qed.

Lemma parse_digits_0 d :
  NumericJSON.parse_digits 0 (uint_digits d) = Some (Z.of_N (Pos.of_uint d)).
Proof.
  induction d as [|d IH|d IH|d IH|d IH|d IH|d IH|d IH|d IH|d IH|d IH];
    [done|exact IH|..];
    cbn [uint_digits NumericJSON.parse_digits Pos.of_uint];
    unfold NumericJSON.digit_value; cbn [Z.leb Z.compare Pos.compare
      Pos.compare_cont andb Z.sub Z.add Z.opp Z.pos_sub Pos.pred_double
      Z.double Z.succ_double Z.pred_double Z.mul];
    apply parse_digits_acc.
Qed.

Lemma uint_digits_nonempty d : d ≠ Decimal.Nil → uint_digits d ≠ [].
Proof. by destruct d. Qed.

Lemma uint_digits_range d : Forall (λ c, 48 ≤ c ≤ 57) (uint_digits d).
Proof. induction d; constructor; (lia || done). Qed.

Lemma parse_number_to_string z :
  NumericJSON.parse_number (number_to_string z) = Some z.
Proof.
  unfold number_to_string, NumericJSON.parse_number.
  destruct z as [|p|p]; cbn [Z.to_int]; [done|..].
  - pose proof (uint_digits_range (Pos.to_uint p)) as Hr.
    pose proof (uint_digits_nonempty _ (Unsigned.to_uint_nonnil p)) as Hn.
    pose proof (parse_digits_0 (Pos.to_uint p)) as Hp.
    rewrite DecimalPos.Unsigned.of_to in Hp.
    destruct (uint_digits (Pos.to_uint p)) as [|c r]; [done|].
    apply Forall_cons in Hr as [Hc _].
    destruct (Z.eqb_spec c 45); [lia|done].
  - pose proof (uint_digits_nonempty _ (Unsigned.to_uint_nonnil p)) as Hn.
    pose proof (parse_digits_0 (Pos.to_uint p)) as Hp.
    rewrite DecimalPos.Unsigned.of_to in Hp.
    cbn [Z.eqb Pos.eqb].
    destruct (uint_digits (Pos.to_uint p)) as [|c r]; [done|].
    by rewrite Hp.
Qed.

Lemma number_to_string_shape z :
  number_to_string z ≠ [] ∧ Forall (λ c, c ≠ 44) (number_to_string z).
Proof.
  unfold number_to_string.
  assert (∀ d, Forall (λ c, c ≠ 44) (uint_digits d)) as Hd.
  { intros d. eapply Forall_impl; [apply uint_digits_range|].
    intros c ?. cbn in *. lia. }
  destruct z as [|p|p]; cbn [Z.to_int].
  - split; [done|apply Hd].
  - split; [apply uint_digits_nonempty, Unsigned.to_uint_nonnil|apply Hd].
  - split; [done|]. constructor; [done|apply Hd].
Qed.

Lemma split_commas_no_comma cur x :
  Forall (λ c, c ≠ 44) x →
  NumericJSON.split_commas cur x = [reverse cur ++ x].
Proof.
  revert cur. induction x as [|c x IH]; intros cur Hx; cbn.
  - by rewrite app_nil_r.
  - apply Forall_cons in Hx as [Hc Hx].
    destruct (Z.eqb_spec c 44); [done|].
    rewrite IH by done. by rewrite reverse_cons, <- app_assoc.
Qed.

Lemma split_commas_comma cur x rest :
  Forall (λ c, c ≠ 44) x →
  NumericJSON.split_commas cur (x ++ 44 :: rest)
  = (reverse cur ++ x) :: NumericJSON.split_commas [] rest.
Proof.
  revert cur. induction x as [|c x IH]; intros cur Hx; cbn.
  - by rewrite app_nil_r.
  - apply Forall_cons in Hx as [Hc Hx].
    destruct (Z.eqb_spec c 44); [done|].
    rewrite IH by done. by rewrite reverse_cons, <- app_assoc.
Qed.

Lemma split_commas_join l :
  l ≠ [] → Forall (λ x, Forall (λ c, c ≠ 44) x) l →
  NumericJSON.split_commas [] (join_comma l) = l.
Proof.
  induction l as [|x l IH]; intros Hne Hl; [done|].
  apply Forall_cons in Hl as [Hx Hl].
  destruct l as [|y l].
  - cbn [join_comma]. by rewrite split_commas_no_comma.
  - change (join_comma (x :: y :: l)) with (x ++ 44 :: join_comma (y :: l)).
    rewrite split_commas_comma by done. by rewrite IH.
Qed.

Lemma join_comma_nonempty x l : x ≠ [] → join_comma (x :: l) ≠ [].
Proof. destruct x; [done|]. by destruct l. Qed.

(** [NumericJSON.parse] inverts [JSON_stringify] on every array of
    integers. *)
Lemma NumericJSON_parse_array_stringify (d : list Z) :
  NumericJSON.parse_array (JSON_stringify d) = Some d.
Proof.
  unfold JSON_stringify, NumericJSON.parse_array. cbn [Z.eqb Pos.eqb].
  rewrite reverse_app. change (reverse [93]) with [93].
  cbn [app Z.eqb Pos.eqb].
  destruct d as [|z d]; [done|].
  pose proof (number_to_string_shape z) as [Hz _].
  pose proof (join_comma_nonempty (number_to_string z)
                (map number_to_string d) Hz) as Hj.
  change (map number_to_string (z :: d))
    with (number_to_string z :: map number_to_string d).
  destruct (reverse (join_comma (number_to_string z :: map number_to_string d)))
    as [|c inner] eqn:Hrev.
  { apply (f_equal reverse) in Hrev. rewrite reverse_involutive in Hrev.
    done. }
  rewrite <- Hrev, reverse_involutive.
  rewrite split_commas_join.
  - change (number_to_string z :: map number_to_string d)
      with (number_to_string <$> (z :: d)).
    apply mapM_Some_2, Forall2_fmap_l, Forall_Forall2_diag, Forall_forall.
    intros x _. apply parse_number_to_string.
  - done.
  - change (number_to_string z :: map number_to_string d)
      with (number_to_string <$> (z :: d)).
    apply Forall_fmap, Forall_forall. intros x _.
    apply number_to_string_shape.
Qed.

Lemma NumericJSON_parse_stringify (d : list Z) :
  NumericJSON.parse (JSON_stringify d) = Some (number_json d).
Proof.
  unfold NumericJSON.parse. by rewrite NumericJSON_parse_array_stringify.
Qed.

Lemma number_array_number_json (d : list Z) :
  number_array (number_json d) = Some d.
Proof.
  unfold number_array, number_json.
  apply mapM_Some_2, Forall2_fmap_l, Forall_Forall2_diag, Forall_forall.
  done.
Qed.

Section Properties.

Variable JSON_parse : jstring → option json.

Local Abbreviation glk_stream_open_file := (glk_stream_open_file JSON_parse).
Local Abbreviation loaded_value := (loaded_value JSON_parse).
Local Abbreviation keeps_bounds := (keeps_bounds JSON_parse).
Local Abbreviation every_call := (every_call JSON_parse).
Local Abbreviation step := (step JSON_parse).
Local Abbreviation run := (run JSON_parse).
Local Abbreviation written_text := (written_text JSON_parse).
Local Abbreviation shown_text := (shown_text JSON_parse).

(** ** What a call shows on the screen *)

Lemma printed_emit e s :
  printed (emit e s)
  = printed s ++ match printed_of e with Some t => [t] | None => [] end.
Proof.
  unfold printed. cbn. rewrite omap_app. cbn. by destruct (printed_of e).
Qed.

Lemma screen_emit_quiet e s :
  printed_of e = None → screen (emit e s) = screen s.
Proof.
  intros He. unfold screen. rewrite printed_emit, He. by rewrite app_nil_r.
Qed.

Lemma screen_update_stream str f s : screen (update_stream str f s) = screen s.
Proof. done. Qed.

Lemma screen_update_window w f s : screen (update_window w f s) = screen s.
Proof. done. Qed.

Lemma screen_set_streams l s : screen (set_streams l s) = screen s.
Proof. done. Qed.

Lemma screen_set_windows l s : screen (set_windows l s) = screen s.
Proof. done. Qed.

Lemma screen_set_currentStream c s : screen (set_currentStream c s) = screen s.
Proof. done. Qed.

Lemma screen_set_inputState i s : screen (set_inputState i s) = screen s.
Proof. done. Qed.

Lemma screen_set_inputResolver r s : screen (set_inputResolver r s) = screen s.
Proof. done. Qed.

Lemma screen_set_localStorage m s : screen (set_localStorage m s) = screen s.
Proof. done. Qed.

Lemma screen_array_store b i v s : screen (array_store b i v s) = screen s.
Proof.
  unfold array_store.
  by rewrite <- (screen_emit_quiet (ArrayStore b i v) s).
Qed.

Lemma screen_set_field e i v s : screen (set_field e i v s) = screen s.
Proof.
  unfold set_field.
  by rewrite <- (screen_emit_quiet (FieldStore e i v) s).
Qed.

Lemma screen_set_pending p s : screen (set_pending p s) = screen s.
Proof.
  unfold set_pending.
  by rewrite <- (screen_emit_quiet (PendingStore p) s).
Qed.

Lemma screen_terminal_clear s : screen (terminal_clear s) = screen s.
Proof. by apply screen_emit_quiet. Qed.

Lemma screen_terminal_handleError t s :
  screen (terminal_handleError t s) = screen s.
Proof. by apply screen_emit_quiet. Qed.

Lemma screen_terminal_waitForInput cb s :
  screen (terminal_waitForInput cb s) = screen s.
Proof.
  unfold terminal_waitForInput.
  by rewrite <- (screen_emit_quiet TerminalWaitForInput s).
Qed.

Create Rewrite HintDb screen.
Hint Rewrite screen_update_stream screen_update_window screen_set_streams
  screen_set_windows screen_set_currentStream screen_set_inputState
  screen_set_inputResolver screen_set_localStorage screen_array_store
  screen_set_field screen_set_pending screen_terminal_clear
  screen_terminal_handleError screen_terminal_waitForInput : screen.

(** Unfolds a call down to the assignments and discharges the goal when
    none of them concerns the screen. *)
Ltac quiet :=
  intros; cbn; repeat case_match; simplify_eq/=;
  autorewrite with screen; try done.

Lemma screen_createStream rk s : screen (createStream rk s).2 = screen s.
Proof. done. Qed.

Lemma screen_createWindow ty rk s : screen (createWindow ty rk s).2 = screen s.
Proof. done. Qed.

Lemma screen_glk_window_close win r s :
  screen (glk_window_close win r s) = screen s.
Proof. unfold glk_window_close. quiet. Qed.

Lemma screen_glk_window_clear win s :
  screen (glk_window_clear win s) = screen s.
Proof. unfold glk_window_clear. quiet. Qed.

Lemma screen_glk_set_window win s :
  screen (glk_set_window win s) = screen s.
Proof. unfold glk_set_window. quiet. Qed.

Lemma screen_glk_stream_open_file fr fm rk s :
  screen (opened_state (glk_stream_open_file fr fm rk s)) = screen s.
Proof. unfold glk_stream_open_file. quiet. Qed.

Lemma screen_glk_stream_close str r s :
  screen (glk_stream_close str r s) = screen s.
Proof. unfold glk_stream_close. quiet. Qed.

Lemma screen_glk_stream_set_position str p m s :
  screen (glk_stream_set_position str p m s) = screen s.
Proof. unfold glk_stream_set_position. quiet. Qed.

Lemma screen_glk_get_char_stream str s :
  screen (glk_get_char_stream str s).2 = screen s.
Proof. unfold glk_get_char_stream. quiet. Qed.

Lemma screen_get_buffer_loop str b idxs count s :
  screen (get_buffer_loop str b idxs count s).2 = screen s.
Proof.
  revert count s. induction idxs as [|i idxs IH]; intros count s; [done|].
  cbn. pose proof (screen_glk_get_char_stream str s) as Hc.
  destruct (glk_get_char_stream str s) as [ch s1]. cbn in Hc.
  case_bool_decide; [done|]. by rewrite IH, screen_array_store.
Qed.

Lemma screen_get_line_loop str b idxs count s :
  screen (get_line_loop str b idxs count s).2 = screen s.
Proof.
  revert count s. induction idxs as [|i idxs IH]; intros count s; [done|].
  cbn. pose proof (screen_glk_get_char_stream str s) as Hc.
  destruct (glk_get_char_stream str s) as [ch s1]. cbn in Hc.
  repeat case_bool_decide; cbn; rewrite ?IH, ?screen_array_store; done.
Qed.

Lemma screen_put_buffer_loop str b bf s :
  screen (put_buffer_loop str b bf s) = screen s.
Proof.
  revert s. induction bf as [|c bf IH]; intros s; [done|].
  cbn. repeat case_match; try done.
  by rewrite IH, screen_update_stream, screen_array_store.
Qed.

Lemma screen_glk_cancel_line_event win ev s :
  screen (glk_cancel_line_event win ev s) = screen s.
Proof. unfold glk_cancel_line_event. quiet. Qed.

Lemma screen_glk_select ev s : screen (glk_select ev s) = screen s.
Proof. unfold glk_select. quiet. Qed.

Lemma screen_copy_input b input len s :
  screen (copy_input b input len s) = screen s.
Proof.
  unfold copy_input. generalize (seqZ 0 len). intros l. revert s.
  induction l as [|i l IH]; intros s; [done|]. cbn.
  by rewrite IH, screen_array_store.
Qed.

Lemma screen_line_input_callback input s :
  screen (line_input_callback input s) = screen s.
Proof.
  unfold line_input_callback.
  destruct (is_buffer (inputState s)) as [b|]; [|done].
  destruct (is_pending (inputState s)); [|done].
  rewrite screen_set_pending.
  case_match; rewrite ?screen_set_field; apply screen_copy_input.
Qed.

(** The two effects on the screen: appending to the buffer and flushing it. *)
Lemma screen_append_output t s :
  screen (append_output t s) = (printed s, outputBuffer s ++ t).
Proof. done. Qed.

Lemma printed_terminal_print t s :
  printed (terminal_print t s) = printed s ++ [t].
Proof. unfold terminal_print. by rewrite printed_emit. Qed.

Lemma flush_output_empty s : outputBuffer (flush_output s) = [].
Proof. unfold flush_output. by destruct (outputBuffer s) eqn:E. Qed.

Lemma flush_output_printed s :
  concat (printed (flush_output s)) = concat (printed s) ++ outputBuffer s.
Proof.
  unfold flush_output.
  destruct (outputBuffer s) as [|c t] eqn:Hb; cbn [truthy_string].
  - by rewrite app_nil_r.
  - change (printed (set_outputBuffer [] (terminal_print (c :: t) s)))
      with (printed (terminal_print (c :: t) s)).
    rewrite printed_terminal_print, concat_app. cbn [concat].
    by rewrite app_nil_r.
Qed.

Lemma shows_quiet s s' : screen s' = screen s → shows s s' [].
Proof.
  unfold screen, shows, printed_text. intros [= -> ->]. by rewrite app_nil_r.
Qed.

Lemma shows_same_then s s' s'' t :
  shows s s' t → screen s'' = screen s' → shows s s'' t.
Proof. unfold screen, shows, printed_text. intros Hs [= -> ->]. done. Qed.

Lemma shows_append_output t s : shows s (append_output t s) t.
Proof. done. Qed.

Lemma shows_flush_output s : shows s (flush_output s) [].
Proof.
  unfold shows, printed_text.
  by rewrite flush_output_printed, flush_output_empty, !app_nil_r.
Qed.

Lemma shows_trans s1 s2 s3 t u :
  shows s1 s2 t → shows s2 s3 u → shows s1 s3 (t ++ u).
Proof.
  unfold shows. intros H1 H2.
  rewrite H2, (app_assoc (printed_text s2)), H1. by rewrite <- !app_assoc.
Qed.

Lemma shows_glk_exit s : shows s (glk_exit s) session_ended.
Proof.
  unfold glk_exit, shows, printed_text.
  change (outputBuffer (terminal_print session_ended (flush_output s)))
    with (outputBuffer (flush_output s)).
  rewrite printed_terminal_print, concat_app, flush_output_printed,
    flush_output_empty.
  cbn [concat]. by rewrite !app_nil_r, app_assoc.
Qed.

Lemma shows_put_buffer bf s :
  shows s (glk_put_buffer bf s) (bf ≫= String_fromCharCode).
Proof.
  unfold glk_put_buffer. revert s. induction bf as [|c bf IH]; intros s.
  - by apply shows_quiet.
  - cbn [foldl]. apply (shows_trans _ _ _ (String_fromCharCode c) _
                          (shows_append_output _ s)), IH.
Qed.

Lemma shows_put_buffer_uni bf s :
  shows s (state_of (glk_put_buffer_uni bf s)) (code_points_text bf).
Proof.
  revert s. induction bf as [|c bf IH]; intros s.
  - by apply shows_quiet.
  - cbn. destruct (String_fromCodePoint c) as [t|].
    + apply (shows_trans _ _ _ t _ (shows_append_output _ s)), IH.
    + by apply shows_quiet.
Qed.

Lemma shows_put_char_stream str ch s :
  shows s (glk_put_char_stream str ch s)
    (if to_screen str s then String_fromCharCode ch else []).
Proof.
  unfold glk_put_char_stream.
  eapply shows_same_then; [|apply screen_update_stream].
  destruct (to_screen str s); [apply shows_append_output|].
  apply shows_quiet. quiet.
Qed.

Lemma shows_put_string_stream str text s :
  shows s (glk_put_string_stream str text s)
    (if to_screen str s then text else []).
Proof.
  unfold glk_put_string_stream.
  eapply shows_same_then; [|apply screen_update_stream].
  destruct (to_screen str s); [apply shows_append_output|].
  apply shows_quiet. quiet.
Qed.

Lemma shows_put_jstring_stream str text s :
  shows s (glk_put_jstring_stream str text s)
    (if to_screen str s then text else []).
Proof.
  unfold glk_put_jstring_stream.
  destruct text as [|c text]; cbn [truthy_string negb].
  - destruct (to_screen str s); by apply shows_quiet.
  - eapply shows_same_then; [|apply screen_update_stream].
    destruct (to_screen str s); [apply shows_append_output|].
    apply shows_quiet. quiet.
Qed.

Lemma shows_put_buffer_stream str bf s :
  shows s (glk_put_buffer_stream str bf s)
    (if to_screen str s then bf ≫= String_fromCharCode else []).
Proof.
  unfold glk_put_buffer_stream.
  eapply shows_same_then; [|apply screen_update_stream].
  destruct (to_screen str s); [apply shows_put_buffer|].
  apply shows_quiet. quiet.
Qed.

Lemma shows_request_line win bf initlen s :
  shows s (_request_line win bf initlen s) [].
Proof.
  eapply shows_same_then; [apply shows_flush_output|].
  unfold _request_line. quiet.
Qed.

Lemma shows_request_char win s :
  shows s (glk_request_char_event win s) [].
Proof.
  eapply shows_same_then; [apply shows_flush_output|].
  unfold glk_request_char_event. quiet.
Qed.

(** One call shows what it writes, and [glk_exit] its closing line. *)
Lemma step_shows c s :
  keeps_text c s = true → shows s (step c s) (shown_by c s).
Proof.
  intros Hc. destruct c; cbn [step shown_by written_by];
    try (apply shows_quiet;
         first [ apply screen_glk_window_close | apply screen_glk_window_clear
               | apply screen_glk_set_window | apply screen_glk_stream_open_file
               | apply screen_glk_stream_close
               | apply screen_glk_stream_set_position
               | apply screen_glk_get_char_stream | apply screen_get_buffer_loop
               | apply screen_get_line_loop | apply screen_glk_cancel_line_event
               | apply screen_glk_select | apply screen_set_field
               | apply screen_terminal_handleError
               | by unfold glk_cancel_char_event, glk_select_poll; quiet ]).
  - apply shows_glk_exit.
  - apply shows_append_output.
  - apply shows_put_char_stream.
  - apply shows_append_output.
  - apply shows_put_string_stream.
  - apply shows_put_buffer.
  - apply shows_put_buffer_stream.
  - unfold glk_put_char_uni. destruct (String_fromCodePoint ch); cbn;
      [apply shows_append_output | by apply shows_quiet].
  - pose proof (shows_put_char_stream str ch s) as Hs.
    cbn [keeps_text] in Hc. destruct (to_screen str s); [|done].
    cbn [negb orb] in Hc. apply andb_true_iff in Hc as [H0 H1].
    apply Z.leb_le in H0, H1. unfold String_fromCodePoint.
    rewrite (proj2 (Z.ltb_ge ch 0)), (proj2 (Z.ltb_ge 0x10FFFF ch)) by lia.
    cbn [orb]. rewrite (proj2 (Z.leb_le ch 0xFFFF)) by lia. cbn [default].
    unfold String_fromCharCode in Hs. by rewrite Z.mod_small in Hs by lia.
  - apply shows_append_output.
  - apply shows_put_buffer_uni.
  - unfold glk_put_jstring. destruct text; [by apply shows_quiet|].
    apply shows_append_output.
  - apply shows_put_jstring_stream.
  - apply shows_request_line.
  - apply shows_request_char.
  - apply shows_flush_output.
Qed.

Lemma run_shows cs s :
  every_call keeps_text cs s → shows s (run cs s) (shown_text cs s).
Proof.
  revert s. induction cs as [|c cs IH]; intros s Hcs.
  - by apply shows_quiet.
  - destruct Hcs as [Hc Hcs]. cbn [shown_text].
    apply (shows_trans _ _ _ _ _ (step_shows c s Hc)), IH, Hcs.
Qed.

Lemma every_call_snoc ok cs c s :
  every_call ok (cs ++ [c]) s
  ↔ every_call ok cs s ∧ ok c (run cs s) = true.
Proof.
  revert s. induction cs as [|c' cs IH]; intros s; cbn; [tauto|].
  rewrite IH. tauto.
Qed.

(** Without [glk_exit] the shown text is the written text. *)
Lemma shown_text_without_exit cs s :
  Exit ∉ cs → shown_text cs s = written_text cs s.
Proof.
  revert s. induction cs as [|c cs IH]; intros s Hcs; [done|].
  apply not_elem_of_cons in Hcs as [Hc Hcs]. cbn. rewrite IH by done.
  by destruct c.
Qed.

Lemma step_flush_empty c s : is_flush c = true → outputBuffer (step c s) = [].
Proof.
  destruct c; try done; intros _; cbn [step].
  - apply flush_output_empty.
  - unfold glk_request_line_event, _request_line. cbn.
    rewrite <- (flush_output_empty s). by destruct win.
  - unfold glk_request_char_event. rewrite <- (flush_output_empty s).
    by destruct win.
  - apply flush_output_empty.
Qed.

(** C1 (amended). For every sequence of calls, what [terminal.print] has
    received, followed by what still waits in the output buffer, is what
    was there before followed by the text the calls wrote to the selected
    stream, in call order, with the closing line of [glk_exit] after the
    text flushed at each [glk_exit]; right after a flush checkpoint
    ([update], [_request_line], [glk_request_char_event], [glk_exit]) the
    output buffer is empty, so that [terminal.print] has received all of
    that text. A code point that is not a single unit, written through
    [glk_put_char_stream_uni], is left out ([keeps_text]). *)
Theorem output_reaches_terminal_in_order :
  (∀ cs s,
     every_call keeps_text cs s →
     printed_text (run cs s) ++ outputBuffer (run cs s)
     = printed_text s ++ outputBuffer s ++ shown_text cs s)
  ∧ (∀ cs c s,
       is_flush c = true →
       outputBuffer (run (cs ++ [c]) s) = []
       ∧ (every_call keeps_text cs s →
          printed_text (run (cs ++ [c]) s)
          = printed_text s ++ outputBuffer s ++ shown_text (cs ++ [c]) s)).
Proof.
  split; [exact run_shows|].
  intros cs c s Hc.
  assert (outputBuffer (run (cs ++ [c]) s) = []) as Hempty.
  { unfold run. rewrite foldl_app. cbn [foldl]. by apply step_flush_empty. }
  split; [done|]. intros Hcs.
  rewrite <- (run_shows (cs ++ [c]) s), Hempty; [by rewrite app_nil_r|].
  apply every_call_snoc. split; [done|]. by destruct c.
Qed.

(** ** Arrays *)

Lemma js_array_get_set_eq a i v :
  0 ≤ i → js_array_get (js_array_set a i v) i = v.
Proof.
  intros Hi. unfold js_array_get, js_array_set.
  destruct (Z.ltb_spec i 0) as [|_]; [lia|].
  destruct (Z.ltb_spec i (Z.of_nat (length a))) as [Hlt|Hge].
  - rewrite list_lookup_insert_eq by lia. done.
  - rewrite lookup_app_r by lia.
    rewrite lookup_app_r by (rewrite length_replicate; lia).
    rewrite length_replicate.
    by replace (Z.to_nat i - length a - (Z.to_nat i - length a))%nat
      with 0%nat by lia.
Qed.

Lemma js_array_get_set_ne a i j v :
  i ≠ j → js_array_get (js_array_set a i v) j = js_array_get a j.
Proof.
  intros Hij. unfold js_array_get, js_array_set.
  destruct (Z.ltb_spec j 0) as [|Hj]; [done|].
  destruct (Z.ltb_spec i 0) as [|Hi]; [done|].
  destruct (Z.ltb_spec i (Z.of_nat (length a))) as [Hlt|Hge].
  - rewrite list_lookup_insert_ne by lia. done.
  - destruct (decide (Z.to_nat j < length a)%nat) as [Hja|Hja].
    + by rewrite lookup_app_l by lia.
    + rewrite lookup_app_r by lia.
      rewrite (lookup_ge_None_2 a) by lia. cbn.
      destruct (decide (Z.to_nat j - length a < Z.to_nat i - length a)%nat).
      * rewrite lookup_app_l by (rewrite length_replicate; lia).
        by rewrite lookup_replicate_2 by lia.
      * rewrite lookup_app_r by (rewrite length_replicate; lia).
        rewrite length_replicate.
        destruct (Z.to_nat j - length a - (Z.to_nat i - length a))%nat
          as [|k] eqn:Hk; [lia|done].
Qed.

Lemma js_array_set_length a i v :
  0 ≤ i < Z.of_nat (length a) → length (js_array_set a i v) = length a.
Proof.
  intros Hi. unfold js_array_set.
  destruct (Z.ltb_spec i 0) as [|_]; [lia|].
  destruct (Z.ltb_spec i (Z.of_nat (length a))); [|lia].
  by rewrite length_insert.
Qed.

Lemma field_set_field_eq e i v s :
  0 ≤ i → js_array_get (structs (set_field e i v s) !!! e) i = v.
Proof.
  intros Hi. unfold set_field. cbn [structs set_structs].
  rewrite lookup_total_insert_eq. by apply js_array_get_set_eq.
Qed.

Lemma field_set_field_ne e i v e' j s :
  e ≠ e' ∨ i ≠ j →
  js_array_get (structs (set_field e i v s) !!! e') j
  = js_array_get (structs s !!! e') j.
Proof.
  intros Hne. unfold set_field. cbn [structs set_structs emit].
  destruct (decide (e = e')) as [<-|He].
  - rewrite lookup_total_insert_eq. apply js_array_get_set_ne. by destruct Hne.
  - by rewrite lookup_total_insert_ne.
Qed.

Lemma cell_array_store_eq b i v s :
  0 ≤ i → js_array_get (arrays (array_store b i v s) !!! b) i = v.
Proof.
  intros Hi. unfold array_store. cbn [arrays set_arrays].
  rewrite lookup_total_insert_eq. by apply js_array_get_set_eq.
Qed.

Lemma cell_array_store_ne b i v b' j s :
  b ≠ b' ∨ i ≠ j →
  js_array_get (arrays (array_store b i v s) !!! b') j
  = js_array_get (arrays s !!! b') j.
Proof.
  intros Hne. unfold array_store. cbn [arrays set_arrays emit].
  destruct (decide (b = b')) as [<-|He].
  - rewrite lookup_total_insert_eq. apply js_array_get_set_ne. by destruct Hne.
  - by rewrite lookup_total_insert_ne.
Qed.

Lemma array_get_nonneg b i s :
  0 ≤ i → array_get b i s = js_array_get (arrays s !!! b) i.
Proof. intros Hi. unfold array_get. by destruct (Z.ltb_spec i 0); [lia|]. Qed.

(** A store is read back at every index, a negative one too. *)
Lemma array_get_array_store b i v s :
  array_get b i (array_store b i v s) = v.
Proof.
  unfold array_get. destruct (Z.ltb_spec i 0) as [Hneg|Hi].
  - unfold array_store, stored_at. cbn [effects set_arrays emit].
    rewrite foldl_app. cbn. by rewrite bool_decide_true.
  - by apply cell_array_store_eq.
Qed.

(** ** The capability answers *)

(** C8. [glk_gestalt] is a function of its selector alone: whatever the
    value argument, the character-output selector gets 2 (exact print),
    the line-input selector 1, the Unicode selector 1, and every other
    selector 0. *)
Theorem glk_gestalt_fixed_answers (sel : Z) (val : option Z) :
  glk_gestalt sel val =
    if bool_decide (sel = gestalt_CharOutput) then 2
    else if bool_decide (sel = gestalt_LineInput ∨ sel = gestalt_Unicode)
         then 1
         else 0.
Proof.
  unfold glk_gestalt, gestalt_CharOutput, gestalt_LineInput, gestalt_Unicode,
    gestalt_CharOutput_ExactPrint.
  repeat case_bool_decide; repeat case_match; lia.
Qed.

(** ** Events *)

(** C9. [glk_select(e)] records [e] in [inputState.event] and stores, in
    this order, the line-input kind, the main window, length 0 and
    terminator 0 into fields 0 to 3 of [e], so that [e] holds them when
    the call returns; [glk_select_poll(e)] stores the no-event kind into
    field 0 of [e], whatever the state, and does nothing else. *)
Theorem glk_select_and_poll (e : nat) (s : glk_state) :
  (is_event (inputState (glk_select e s)) = Some e
   ∧ effects (glk_select e s)
     = effects s ++ [FieldStore e 0 (Num evtype_LineInput);
                     FieldStore e 1 (WinRef mainWindow);
                     FieldStore e 2 (Num 0);
                     FieldStore e 3 (Num 0)]
   ∧ js_array_get (structs (glk_select e s) !!! e) 0 = Num evtype_LineInput
   ∧ js_array_get (structs (glk_select e s) !!! e) 1 = WinRef mainWindow
   ∧ js_array_get (structs (glk_select e s) !!! e) 2 = Num 0
   ∧ js_array_get (structs (glk_select e s) !!! e) 3 = Num 0)
  ∧ (effects (glk_select_poll e s)
       = effects s ++ [FieldStore e 0 (Num evtype_None)]
     ∧ js_array_get (structs (glk_select_poll e s) !!! e) 0 = Num evtype_None
     ∧ inputState (glk_select_poll e s) = inputState s).
Proof.
  split.
  - unfold glk_select. repeat split.
    + unfold set_field. cbn. by rewrite <- !app_assoc.
    + rewrite !field_set_field_ne by naive_solver.
      by apply field_set_field_eq.
    + rewrite !field_set_field_ne by naive_solver.
      by apply field_set_field_eq.
    + rewrite !field_set_field_ne by naive_solver.
      by apply field_set_field_eq.
    + by apply field_set_field_eq.
  - unfold glk_select_poll. repeat split. by apply field_set_field_eq.
Qed.

(** ** The input bridge *)

Arguments js_array_get : simpl never.
Arguments js_array_set : simpl never.
Arguments charCodeAt : simpl never.

Lemma foldl_array_store_effects (f : Z → jsval) b l s :
  effects (foldl (λ s' i, array_store b i (f i) s') s l)
  = effects s ++ map (λ i, ArrayStore b i (f i)) l.
Proof.
  revert s. induction l as [|i l IH]; intros s; cbn.
  - by rewrite app_nil_r.
  - rewrite IH. cbn. by rewrite <- app_assoc.
Qed.

Lemma foldl_array_store_cells (f : Z → jsval) b l s j :
  (∀ i, i ∈ l → 0 ≤ i) →
  js_array_get (arrays (foldl (λ s' i, array_store b i (f i) s') s l) !!! b) j
  = if decide (j ∈ l) then f j else js_array_get (arrays s !!! b) j.
Proof.
  revert s. induction l as [|i l IH]; intros s Hl; cbn.
  - by rewrite decide_False by apply not_elem_of_nil.
  - rewrite IH by (intros; apply Hl; by right).
    destruct (decide (j ∈ l)) as [Hj|Hj].
    + by rewrite decide_True by by right.
    + destruct (decide (i = j)) as [->|Hij].
      * rewrite decide_True by by left.
        apply cell_array_store_eq, Hl. by left.
      * rewrite decide_False by (intros [?|?]%elem_of_cons; done).
        apply cell_array_store_ne. by right.
Qed.

Lemma foldl_array_store_other (f : Z → jsval) b b' l s :
  b ≠ b' →
  arrays (foldl (λ s' i, array_store b i (f i) s') s l) !!! b'
  = arrays s !!! b'.
Proof.
  intros Hb. revert s. induction l as [|i l IH]; intros s; cbn; [done|].
  rewrite IH. unfold array_store. cbn. by rewrite lookup_total_insert_ne.
Qed.

Lemma foldl_array_store_frame (f : Z → jsval) b l s :
  let s' := foldl (λ s' i, array_store b i (f i) s') s l in
  outputBuffer s' = outputBuffer s ∧ windows s' = windows s
  ∧ streams s' = streams s ∧ currentStream s' = currentStream s
  ∧ inputState s' = inputState s ∧ inputResolver s' = inputResolver s
  ∧ localStorage s' = localStorage s ∧ structs s' = structs s.
Proof.
  revert s. induction l as [|i l IH]; intros s; cbn; [done|].
  destruct (IH (array_store b i (f i) s)) as (?&?&?&?&?&?&?&?).
  repeat split; etrans; done.
Qed.

Lemma copy_input_cells b input len s j :
  js_array_get (arrays (copy_input b input len s) !!! b) j
  = if decide (0 ≤ j < len) then charCodeAt input j
    else js_array_get (arrays s !!! b) j.
Proof.
  unfold copy_input. rewrite foldl_array_store_cells.
  - destruct (decide (j ∈ seqZ 0 len)) as [Hj|Hj];
      rewrite elem_of_seqZ in Hj.
    + by rewrite decide_True by lia.
    + by rewrite decide_False by lia.
  - intros i. rewrite elem_of_seqZ. lia.
Qed.

(** What the callback does when a request with a buffer is pending. *)
Lemma line_input_callback_pending input b s :
  is_pending (inputState s) = true →
  is_buffer (inputState s) = Some b →
  let len := Z.min (str_length input) (is_maxLen (inputState s)) in
  let s' := line_input_callback input s in
  effects s'
  = effects s
    ++ map (λ i, ArrayStore b i (charCodeAt input i)) (seqZ 0 len)
    ++ match is_event (inputState s) with
       | Some e => [FieldStore e 2 (Num len)]
       | None => []
       end
    ++ [PendingStore false]
  ∧ (∀ j, js_array_get (arrays s' !!! b) j
          = if decide (0 ≤ j < len) then charCodeAt input j
            else js_array_get (arrays s !!! b) j)
  ∧ (∀ b', b ≠ b' → arrays s' !!! b' = arrays s !!! b')
  ∧ (∀ e, is_event (inputState s) = Some e →
          js_array_get (structs s' !!! e) 2 = Num len)
  ∧ inputState s'
    = {| is_buffer := Some b; is_maxLen := is_maxLen (inputState s);
         is_pending := false; is_event := is_event (inputState s) |}
  ∧ inputResolver s' = inputResolver s.
Proof.
  intros Hp Hb len. unfold line_input_callback. rewrite Hb, Hp. fold len.
  pose proof (foldl_array_store_frame (charCodeAt input) b (seqZ 0 len) s)
    as (_&_&_&_&Hi&Hr&_&Hs).
  fold (copy_input b input len s) in Hi, Hr, Hs. cbn zeta.
  rewrite Hi. destruct (is_event (inputState s)) as [e|] eqn:He.
  - unfold set_pending, set_field. cbn.
    unfold copy_input at 1. rewrite foldl_array_store_effects.
    fold (copy_input b input len s). rewrite Hi, Hb, He, Hr, <- !app_assoc.
    repeat split; try done.
    + apply copy_input_cells.
    + intros b' Hb'. by apply foldl_array_store_other.
    + intros e' [= <-]. rewrite lookup_total_insert_eq.
      by apply js_array_get_set_eq.
  - unfold set_pending. cbn.
    unfold copy_input at 1. rewrite foldl_array_store_effects.
    fold (copy_input b input len s). rewrite Hi, Hb, He, Hr, <- !app_assoc.
    repeat split; try done.
    + apply copy_input_cells.
    + intros b' Hb'. by apply foldl_array_store_other.
Qed.

(** With nothing pending, or without a buffer, the callback does nothing. *)
Lemma line_input_callback_idle input s :
  is_pending (inputState s) = false ∨ is_buffer (inputState s) = None →
  line_input_callback input s = s.
Proof.
  unfold line_input_callback. intros [Hp|Hb].
  - rewrite Hp. by destruct (is_buffer _).
  - by rewrite Hb.
Qed.

Lemma charCodeAt_lookup input i :
  0 ≤ i < str_length input →
  ∃ c, input !! Z.to_nat i = Some c ∧ charCodeAt input i = Num c.
Proof.
  intros Hi. unfold charCodeAt, str_length in *.
  destruct (Z.ltb_spec i 0); [lia|].
  destruct (lookup_lt_is_Some_2 input (Z.to_nat i)) as [c Hc]; [lia|].
  exists c. by rewrite Hc.
Qed.

Lemma flush_output_frame s :
  windows (flush_output s) = windows s
  ∧ streams (flush_output s) = streams s
  ∧ currentStream (flush_output s) = currentStream s
  ∧ inputState (flush_output s) = inputState s
  ∧ inputResolver (flush_output s) = inputResolver s
  ∧ localStorage (flush_output s) = localStorage s
  ∧ arrays (flush_output s) = arrays s
  ∧ structs (flush_output s) = structs s.
Proof. unfold flush_output. by destruct (truthy_string _). Qed.

(** What a line request leaves in [inputState] and in the terminal. *)
Lemma request_line_registers win bf initlen s :
  let s' := _request_line win bf initlen s in
  inputState s'
  = {| is_buffer := bf;
       is_maxLen := from_option (λ b, capacity b s) 0 bf;
       is_pending := true;
       is_event := is_event (inputState s) |}
  ∧ inputResolver s' = Some LineInputCallback
  ∧ arrays s' = arrays s
  ∧ structs s' = structs s.
Proof.
  destruct (flush_output_frame s) as (_&_&_&Hi&_&_&Ha&Hs).
  unfold _request_line, capacity.
  destruct win, bf; cbn; rewrite ?Hi, ?Ha, ?Hs; done.
Qed.

Lemma deliver_lines_no_resolver inputs s :
  inputResolver s = None → deliver_lines inputs s = s.
Proof.
  intros Hr. unfold deliver_lines.
  induction inputs as [|t inputs IH]; [done|].
  cbn. unfold handleCommand at 2. by rewrite Hr.
Qed.

(** The first delivered line consumes the resolver; the later ones find
    none. *)
Lemma deliver_lines_cons input rest s :
  inputResolver s = Some LineInputCallback →
  deliver_lines (input :: rest) s
  = line_input_callback input (set_inputResolver None s).
Proof.
  intros Hr. unfold deliver_lines. cbn [foldl].
  fold (deliver_lines rest (handleCommand input s)).
  unfold handleCommand. rewrite Hr. cbn [run_callback].
  apply deliver_lines_no_resolver.
  set (s0 := set_inputResolver None s).
  destruct (is_buffer (inputState s0)) as [b|] eqn:Hb;
    [destruct (is_pending (inputState s0)) eqn:Hp|].
  - by destruct (line_input_callback_pending input b s0 Hp Hb)
      as (_&_&_&_&_&->).
  - rewrite line_input_callback_idle by by left. done.
  - rewrite line_input_callback_idle by by right. done.
Qed.

(** C2. When the callback runs with a text of length [L] not above the
    maximum while a request with buffer [b] is pending and the event
    structure [e] has been captured, it stores the [L] character codes of
    the text into [b] at indices [0 .. L-1] in increasing order, then
    stores [L] into field 2 of [e], then clears the pending flag, and
    does nothing else: [b] holds the codes at these indices and is
    unchanged elsewhere. *)
Theorem line_input_copy_then_length (input : jstring) (b e : nat)
    (s : glk_state) :
  is_pending (inputState s) = true →
  is_buffer (inputState s) = Some b →
  is_event (inputState s) = Some e →
  str_length input ≤ is_maxLen (inputState s) →
  let L := str_length input in
  let s' := line_input_callback input s in
  effects s'
  = effects s
    ++ map (λ i, ArrayStore b i (charCodeAt input i)) (seqZ 0 L)
    ++ [FieldStore e 2 (Num L); PendingStore false]
  ∧ (∀ i c, input !! i = Some c →
            charCodeAt input (Z.of_nat i) = Num c
            ∧ js_array_get (arrays s' !!! b) (Z.of_nat i) = Num c)
  ∧ (∀ j, L ≤ j →
          js_array_get (arrays s' !!! b) j = js_array_get (arrays s !!! b) j)
  ∧ js_array_get (structs s' !!! e) 2 = Num L
  ∧ is_pending (inputState s') = false.
Proof.
  intros Hp Hb He HL L s'.
  destruct (line_input_callback_pending input b s Hp Hb)
    as (Heff&Hcells&_&Hfield&Hst&_).
  rewrite Z.min_l in Heff, Hcells, Hfield by done. rewrite He in Heff.
  fold s' in Heff, Hcells, Hfield, Hst. fold L in Heff, Hcells, Hfield.
  repeat split.
  - done.
  - destruct (charCodeAt_lookup input (Z.of_nat i)) as (c'&Hc'&->).
    + apply lookup_lt_Some in H. unfold str_length. lia.
    + rewrite Nat2Z.id in Hc'. congruence.
  - rewrite Hcells. apply lookup_lt_Some in H as Hi.
    rewrite decide_True by (unfold L, str_length; lia).
    destruct (charCodeAt_lookup input (Z.of_nat i)) as (c'&Hc'&->).
    + unfold str_length. lia.
    + rewrite Nat2Z.id in Hc'. congruence.
  - intros j Hj. rewrite Hcells. by rewrite decide_False by lia.
  - by apply Hfield.
  - by rewrite Hst.
Qed.

(** C3. In every state, and so in every state in which a line request
    with a buffer [b1] is pending, whatever was called since that request
    was made, a further line request replaces the buffer, the maximum
    and the pending flag of [inputState] by its own and the resolver of
    the terminal by its callback; whatever lines the host delivers
    afterwards, no array but the buffer of the further request is
    written, [b1] least of all, the first line delivered goes into the
    buffer of the further request, and no request is left pending after
    it. *)
Theorem second_line_request_replaces_first (win2 : option nat)
    (bf2 : option nat) (n2 : Z) (inputs : list jstring) (s1 : glk_state) :
  let s2 := glk_request_line_event win2 bf2 n2 s1 in
  let s3 := deliver_lines inputs s2 in
  inputState s2
  = {| is_buffer := bf2;
       is_maxLen := from_option (λ b, capacity b s1) 0 bf2;
       is_pending := true;
       is_event := is_event (inputState s1) |}
  ∧ inputResolver s2 = Some LineInputCallback
  ∧ (∀ b, bf2 ≠ Some b → arrays s3 !!! b = arrays s1 !!! b)
  ∧ (∀ b1, is_pending (inputState s1) = true →
           is_buffer (inputState s1) = Some b1 →
           bf2 ≠ Some b1 → arrays s3 !!! b1 = arrays s1 !!! b1)
  ∧ (∀ b2 input rest i c,
       bf2 = Some b2 → inputs = input :: rest →
       input !! i = Some c → Z.of_nat i < capacity b2 s1 →
       js_array_get (arrays s3 !!! b2) (Z.of_nat i) = Num c)
  ∧ (inputs ≠ [] →
     inputResolver s3 = None
     ∧ (is_Some bf2 → is_pending (inputState s3) = false)).
Proof.
  intros s2 s3. unfold glk_request_line_event in s2.
  destruct (request_line_registers win2 bf2 n2 s1) as (Hi&Hr2&Ha2&Hs2).
  fold s2 in Hi, Hr2, Ha2, Hs2.
  split; [done|]. split; [done|].
  set (s0 := set_inputResolver None s2).
  assert (inputState s0 = inputState s2) as Hi0 by done.
  assert (arrays s0 = arrays s1) as Ha0
    by (change (arrays s0) with (arrays s2); congruence).
  assert (∀ b, bf2 ≠ Some b → arrays s3 !!! b = arrays s1 !!! b) as Hframe.
  { intros b Hne. subst s3. destruct inputs as [|input rest].
    - change (deliver_lines [] s2) with s2. by rewrite Ha2.
    - rewrite deliver_lines_cons by done. fold s0.
      destruct bf2 as [b2|].
      + destruct (line_input_callback_pending input b2 s0)
          as (_&_&Hother&_); [by rewrite Hi0, Hi|by rewrite Hi0, Hi|].
        rewrite Hother by congruence. by rewrite Ha0.
      + rewrite line_input_callback_idle by (right; by rewrite Hi0, Hi).
        by rewrite Ha0. }
  split; [done|]. split; [by intros b1 _ _; apply Hframe|].
  destruct inputs as [|input rest].
  { split; [by intros ? ? ? ? ? ? [=]|done]. }
  subst s3. rewrite deliver_lines_cons by done. fold s0.
  destruct bf2 as [b2|].
  - destruct (line_input_callback_pending input b2 s0)
      as (_&Hcells&_&_&Hst&Hres);
      [by rewrite Hi0, Hi|by rewrite Hi0, Hi|].
    rewrite Hi0, Hi in Hcells. cbn in Hcells.
    split.
    + intros b2' input' rest' i c [= <-] [= <- <-] Hc Hcap2.
      rewrite Hcells. apply lookup_lt_Some in Hc as Hlt.
      rewrite decide_True by (unfold str_length; lia).
      destruct (charCodeAt_lookup input (Z.of_nat i)) as (c'&Hc'&->).
      * unfold str_length. lia.
      * rewrite Nat2Z.id in Hc'. congruence.
    + intros _. split; [by rewrite Hres|]. intros _. by rewrite Hst.
  - rewrite line_input_callback_idle by (right; by rewrite Hi0, Hi).
    split.
    + intros b2 input' rest' i c [=].
    + intros _. split; [done|]. by intros [? [=]].
Qed.

(** C10. [glk_cancel_line_event] clears the request kind and the line
    buffer of the window it is given, stores 0 into field 0 of the event
    structure it is given, and changes nothing else: [inputState], the
    resolver of the terminal, the arrays, the streams and the output
    buffer are as before. So the callback of a request that was pending
    with buffer [b] still stores the delivered text into [b] after the
    cancellation and the copied length into field 2 of the captured
    event structure. *)
Theorem cancel_line_event_keeps_request (win ev : option nat)
    (input : jstring) (s : glk_state) :
  let s' := glk_cancel_line_event win ev s in
  (inputState s' = inputState s
   ∧ inputResolver s' = inputResolver s
   ∧ outputBuffer s' = outputBuffer s
   ∧ streams s' = streams s
   ∧ currentStream s' = currentStream s
   ∧ arrays s' = arrays s
   ∧ localStorage s' = localStorage s)
  ∧ (∀ w, windows s' !! w
          = (λ wd, if decide (win = Some w)
                   then {| win_type := win_type wd; win_rock := win_rock wd;
                           win_str := win_str wd;
                           input_request_type := None;
                           line_input_buf := None |}
                   else wd) <$> windows s !! w)
  ∧ effects s'
    = effects s ++ match ev with
                   | Some e => [FieldStore e 0 (Num 0)]
                   | None => []
                   end
  ∧ (∀ e j, ev ≠ Some e ∨ j ≠ 0 →
            js_array_get (structs s' !!! e) j
            = js_array_get (structs s !!! e) j)
  ∧ (∀ b, is_pending (inputState s) = true →
          is_buffer (inputState s) = Some b →
          let len := Z.min (str_length input) (is_maxLen (inputState s)) in
          let s'' := line_input_callback input s' in
          (∀ i c, input !! i = Some c → Z.of_nat i < len →
                  js_array_get (arrays s'' !!! b) (Z.of_nat i) = Num c)
          ∧ (∀ e, is_event (inputState s) = Some e →
                  js_array_get (structs s'' !!! e) 2 = Num len)
          ∧ is_pending (inputState s'') = false).
Proof.
  intros s'.
  assert (inputState s' = inputState s) as Hi
    by (unfold s', glk_cancel_line_event; by destruct win, ev).
  split; [|split; [|split; [|split]]].
  - unfold s', glk_cancel_line_event. by destruct win, ev.
  - intros w. unfold s', glk_cancel_line_event.
    assert (∀ s0 : glk_state,
              match win with
              | Some w0 =>
                  windows (update_window w0
                             (λ wd, set_line_input_buf None
                                      (set_input_request_type None wd)) s0)
              | None => windows s0
              end !! w
              = (λ wd, if decide (win = Some w)
                       then {| win_type := win_type wd;
                               win_rock := win_rock wd;
                               win_str := win_str wd;
                               input_request_type := None;
                               line_input_buf := None |}
                       else wd) <$> windows s0 !! w) as Hw.
    { intros s0. destruct win as [w0|]; cbn.
      - destruct (decide (w0 = w)) as [->|Hne].
        + rewrite list_lookup_alter_eq.
          destruct (windows s0 !! w); cbn; [|done]. by rewrite decide_True.
        + rewrite list_lookup_alter_ne by done.
          destruct (windows s0 !! w); cbn; [|done].
          by rewrite decide_False by congruence.
      - by destruct (windows s0 !! w). }
    destruct ev; [|destruct win; apply Hw].
    specialize (Hw s). by destruct win.
  - unfold s', glk_cancel_line_event. destruct win, ev; cbn;
      by rewrite ?app_nil_r.
  - intros e j Hne. unfold s', glk_cancel_line_event.
    destruct ev as [e0|]; [|by destruct win].
    rewrite field_set_field_ne; [by destruct win|].
    destruct Hne as [Hne|Hne]; [left; congruence|by right].
  - intros b Hp Hb len s''.
    destruct (line_input_callback_pending input b s')
      as (_&Hcells&_&Hfield&Hst&_); [by rewrite Hi|by rewrite Hi|].
    rewrite Hi in Hcells, Hfield, Hst. fold s'' in Hcells, Hfield, Hst.
    fold len in Hcells, Hfield.
    repeat split.
    + intros i c Hc Hlt. rewrite Hcells, decide_True by lia.
      destruct (charCodeAt_lookup input (Z.of_nat i)) as (c'&Hc'&->).
      * apply lookup_lt_Some in Hc. unfold str_length. lia.
      * rewrite Nat2Z.id in Hc'. congruence.
    + done.
    + by rewrite Hst.
Qed.

(** ** Streams *)

Lemma streams_update_stream_eq str f s :
  streams (update_stream str f s) !! str = f <$> streams s !! str.
Proof. apply list_lookup_alter_eq. Qed.

Lemma streams_update_stream_ne str str' f s :
  str ≠ str' → streams (update_stream str f s) !! str' = streams s !! str'.
Proof. intros. by apply list_lookup_alter_ne. Qed.

(** What one read does: with a unit left it returns the unit under the
    cursor and advances the cursor and the read counter by one; with none
    left it returns -1 and changes nothing. *)
Lemma glk_get_char_stream_spec str st s :
  streams s !! str = Some st →
  if has_more st
  then glk_get_char_stream str s
       = (unit_at_cursor st s, update_stream str advance_read s)
  else glk_get_char_stream str s = (Num (-1), s).
Proof.
  intros Hst. unfold glk_get_char_stream, has_more, unit_at_cursor.
  rewrite Hst. destruct (buf st) as [b|]; cbn.
  - destruct (pos st <? buflen st); cbn; [done|].
    by destruct (pos st <? Z.of_nat (length (data st))).
  - destruct (pos st <? buflen st);
      by destruct (pos st <? Z.of_nat (length (data st))).
Qed.

(** A read changes the stream it reads by a number of [advance_read]s
    and no other stream. *)
Lemma glk_get_char_stream_streams str s :
  streams (glk_get_char_stream str s).2 = streams s
  ∨ streams (glk_get_char_stream str s).2
    = alter advance_read str (streams s).
Proof.
  unfold glk_get_char_stream. repeat case_match; cbn; auto.
Qed.

Lemma advanced_by_0 st : advanced_by 0 st st.
Proof. unfold advanced_by. repeat split; lia. Qed.

Lemma advanced_by_read n st st' :
  advanced_by n st st' → advanced_by (n + 1) st (advance_read st').
Proof.
  unfold advanced_by, advance_read. cbn. intros (?&?&?&?&?&?).
  repeat split; try done; lia.
Qed.

Lemma streams_array_store b i v s : streams (array_store b i v s) = streams s.
Proof. done. Qed.

(** The unit under the cursor is a matter of the cursor, the data and
    the bound array alone. *)
Lemma sentinel_unit_at_ext p p' st st' s :
  p = p' → data st = data st' → buf st = buf st' → buflen st = buflen st' →
  sentinel_unit_at p st s → sentinel_unit_at p' st' s.
Proof.
  unfold sentinel_unit_at, has_more, unit_at_cursor. cbn.
  by intros -> -> -> ->.
Qed.

Lemma get_buffer_loop_advances str b idxs count s st :
  streams s !! str = Some st →
  let r := get_buffer_loop str b idxs count s in
  ∃ st' n,
    streams r.2 !! str = Some st'
    ∧ advanced_by n st st'
    ∧ count ≤ r.1
    ∧ (n = r.1 - count
       ∨ (n = r.1 - count + 1
          ∧ sentinel_unit_at (pos st + (r.1 - count)) st r.2)).
Proof.
  revert count s st. induction idxs as [|i idxs IH]; intros count s st Hst.
  - exists st, 0. cbn. split; [done|]. split; [apply advanced_by_0|].
    split; [lia|left; lia].
  - cbn [get_buffer_loop].
    pose proof (glk_get_char_stream_spec str st s Hst) as Hread.
    destruct (has_more st) eqn:Hmore.
    + rewrite Hread. case_bool_decide as Hch.
      * exists (advance_read st), 1. cbn [fst snd].
        rewrite streams_update_stream_eq, Hst. split; [done|].
        split; [apply (advanced_by_read 0), advanced_by_0|].
        split; [lia|right]. split; [lia|].
        replace (pos st + (count - count)) with (pos st) by lia.
        split; [by destruct st|]. by destruct st.
      * destruct (IH (count + 1)
                    (array_store b i (unit_at_cursor st s)
                       (update_stream str advance_read s))
                    (advance_read st)) as (st'&n&Hst'&Hadv&Hc&Hn).
        { rewrite streams_array_store, streams_update_stream_eq, Hst. done. }
        exists st', (n + 1). split; [done|].
        split.
        { destruct Hadv as (?&?&?&?&?&?). unfold advanced_by.
          cbn in *. repeat split; try done; lia. }
        split; [lia|].
        destruct Hn as [->|[-> Hs]]; [left; lia|right].
        split; [lia|].
        eapply sentinel_unit_at_ext; [| | | |exact Hs]; try done.
        cbn. lia.
    + rewrite Hread. rewrite bool_decide_true by done.
      exists st, 0. cbn. split; [done|]. split; [apply advanced_by_0|].
      split; [lia|left; lia].
Qed.

Lemma get_line_loop_advances str b idxs count s st :
  streams s !! str = Some st →
  let r := get_line_loop str b idxs count s in
  ∃ st' n,
    streams r.2 !! str = Some st'
    ∧ advanced_by n st st'
    ∧ count ≤ r.1
    ∧ (n = r.1 - count
       ∨ (n = r.1 - count + 1
          ∧ sentinel_unit_at (pos st + (r.1 - count)) st r.2)).
Proof.
  revert count s st. induction idxs as [|i idxs IH]; intros count s st Hst.
  - exists st, 0. cbn. split; [done|]. split; [apply advanced_by_0|].
    split; [lia|left; lia].
  - cbn [get_line_loop].
    pose proof (glk_get_char_stream_spec str st s Hst) as Hread.
    destruct (has_more st) eqn:Hmore.
    + rewrite Hread. case_bool_decide as Hch.
      * exists (advance_read st), 1. cbn [fst snd].
        rewrite streams_update_stream_eq, Hst. split; [done|].
        split; [apply (advanced_by_read 0), advanced_by_0|].
        split; [lia|right]. split; [lia|].
        replace (pos st + (count - count)) with (pos st) by lia.
        split; [by destruct st|]. by destruct st.
      * case_bool_decide.
        { exists (advance_read st), 1. cbn [fst snd].
          rewrite streams_array_store, streams_update_stream_eq, Hst.
          split; [done|].
          split; [apply (advanced_by_read 0), advanced_by_0|].
          split; [lia|left; lia]. }
        destruct (IH (count + 1)
                    (array_store b i (unit_at_cursor st s)
                       (update_stream str advance_read s))
                    (advance_read st)) as (st'&n&Hst'&Hadv&Hc&Hn).
        { rewrite streams_array_store, streams_update_stream_eq, Hst. done. }
        exists st', (n + 1). split; [done|].
        split.
        { destruct Hadv as (?&?&?&?&?&?). unfold advanced_by.
          cbn in *. repeat split; try done; lia. }
        split; [lia|].
        destruct Hn as [->|[-> Hs]]; [left; lia|right].
        split; [lia|].
        eapply sentinel_unit_at_ext; [| | | |exact Hs]; try done.
        cbn. lia.
    + rewrite Hread. rewrite bool_decide_true by done.
      exists st, 0. cbn. split; [done|]. split; [apply advanced_by_0|].
      split; [lia|left; lia].
Qed.

(** C7 (amended). A read from a stream that has a unit left returns the
    unit under the cursor and advances the cursor and the read counter by
    one; a read from a stream that has none left returns -1 and changes
    nothing, cursor and read counter included. The bulk and the line
    read advance the cursor and the read counter by one and the same
    amount: by the count they return, or by one more in the one case
    that the unit they found behind the units they counted was itself
    the number -1. *)
Theorem reads_advance_or_return_sentinel (str b : nat) (len : Z)
    (st : stream) (s : glk_state) :
  streams s !! str = Some st →
  (if has_more st
   then (glk_get_char_stream str s).1 = unit_at_cursor st s
        ∧ ∃ st', streams (glk_get_char_stream str s).2 !! str = Some st'
                 ∧ advanced_by 1 st st'
   else glk_get_char_stream str s = (Num (-1), s))
  ∧ (let r := glk_get_buffer_stream str b len s in
     ∃ st' n,
       streams r.2 !! str = Some st'
       ∧ advanced_by n st st'
       ∧ (n = r.1 ∨ (n = r.1 + 1 ∧ sentinel_unit_at (pos st + r.1) st r.2)))
  ∧ (let r := glk_get_line_stream str b len s in
     ∃ st' n,
       streams r.2 !! str = Some st'
       ∧ advanced_by n st st'
       ∧ (n = r.1 ∨ (n = r.1 + 1 ∧ sentinel_unit_at (pos st + r.1) st r.2))).
Proof.
  intros Hst. split; [|split].
  - pose proof (glk_get_char_stream_spec str st s Hst) as Hread.
    destruct (has_more st); [|done]. rewrite Hread. cbn [fst snd].
    split; [done|].
    exists (advance_read st). rewrite streams_update_stream_eq, Hst.
    split; [done|]. apply (advanced_by_read 0), advanced_by_0.
  - intros r. unfold glk_get_buffer_stream in r.
    destruct (get_buffer_loop_advances str b
                (seqZ 0 (len_or_length len b s)) 0 s st Hst)
      as (st'&n&?&?&?&Hn).
    fold r in Hn. rewrite Z.sub_0_r in Hn.
    exists st', n. split; [done|]. split; [done|]. done.
  - intros r. unfold glk_get_line_stream in r.
    destruct (get_line_loop_advances str b
                (seqZ 0 (len_or_length len b s - 1)) 0 s st Hst)
      as (st'&n&?&?&?&Hn).
    fold r in Hn. rewrite Z.sub_0_r in Hn.
    exists st', n. split; [done|]. split; [done|]. done.
Qed.

(** ** Writes to a stream bound to an array *)

(** [glk_put_char_stream] stores into the bound array, below the
    capacity. *)
Lemma put_char_to_memory_stream str st b ch s :
  streams s !! str = Some st → buf st = Some b → to_screen str s = false →
  let s' := glk_put_char_stream str ch s in
  if pos st <? buflen st
  then arrays s' = <[b := js_array_set (arrays s !!! b) (pos st) (Num ch)]>
                     (arrays s)
       ∧ streams s' !! str
         = Some (set_write_count (write_count st + 1)
                   (set_pos (pos st + 1) st))
  else arrays s' = arrays s
       ∧ streams s' !! str = Some (set_write_count (write_count st + 1) st).
Proof.
  intros Hst Hb Hscr. unfold glk_put_char_stream. rewrite Hscr, Hst, Hb.
  destruct (pos st <? buflen st); cbn.
  - rewrite !list_lookup_alter_eq, Hst. done.
  - rewrite !list_lookup_alter_eq, Hst. done.
Qed.

(** [glk_put_string_stream] and [glk_put_buffer_stream] append to
    [str.data] instead and leave the bound array alone. *)
Lemma put_buffer_to_memory_stream str st b bf s :
  streams s !! str = Some st → buf st = Some b → to_screen str s = false →
  let s' := glk_put_buffer_stream str bf s in
  arrays s' = arrays s
  ∧ streams s' !! str
    = Some (set_write_count (write_count st + Z.of_nat (length bf))
              (set_data (data st ++ bf) st)).
Proof.
  intros Hst Hb Hscr. unfold glk_put_buffer_stream. rewrite Hscr, Hst. cbn.
  rewrite !list_lookup_alter_eq, Hst. done.
Qed.

Lemma put_string_to_memory_stream str st b text s :
  streams s !! str = Some st → buf st = Some b → to_screen str s = false →
  let s' := glk_put_string_stream str text s in
  arrays s' = arrays s
  ∧ streams s' !! str
    = Some (set_write_count (write_count st + str_length text)
              (set_data (data st ++ text) st)).
Proof.
  intros Hst Hb Hscr. unfold glk_put_string_stream. rewrite Hscr, Hst. cbn.
  rewrite !list_lookup_alter_eq, Hst. done.
Qed.

(** ** Saving and restoring *)

Lemma JSON_stringify_truthy d : truthy_string (JSON_stringify d) = true.
Proof. done. Qed.

Lemma createStream_lookup rk s :
  streams (createStream rk s).2 !! (createStream rk s).1
  = Some {| rock := rk; write_count := 0; read_count := 0; data := [];
            pos := 0; buf := None; buflen := 0; fref := None;
            fmode := None |}.
Proof. cbn. by rewrite lookup_app_r, Nat.sub_diag by done. Qed.

(** What [glk_stream_open_file] returns, by what the storage holds: a
    new stream at cursor 0, bound to the file reference, whose data are
    the numbers of the loaded value when that is an array of numbers;
    the loaded value itself when it is not. *)
Lemma glk_stream_open_file_data fr fm rk s :
  let o := glk_stream_open_file fr fm rk s in
  opened_stream o = length (streams s)
  ∧ (∃ st, streams (opened_state o) = streams s ++ [st]
           ∧ pos st = 0 ∧ fref st = Some fr ∧ fmode st = Some fm
           ∧ buf st = None
           ∧ data st = default [] (number_array (loaded_value fr fm s)))
  ∧ opened_value o
    = match number_array (loaded_value fr fm s) with
      | Some _ => None
      | None => Some (loaded_value fr fm s)
      end.
Proof.
  assert (∀ f : stream → stream,
            alter f (length (streams s))
              (streams (createStream rk s).2)
            = streams s
              ++ [f {| rock := rk; write_count := 0; read_count := 0;
                       data := []; pos := 0; buf := None; buflen := 0;
                       fref := None; fmode := None |}]) as Hnew.
  { intros f. cbn. by rewrite alter_app_r_alt, Nat.sub_diag. }
  unfold glk_stream_open_file, loaded_value.
  change (createStream rk s) with (length (streams s), (createStream rk s).2).
  cbn iota.
  set (s1 := (createStream rk s).2) in *.
  change (localStorage (update_stream (length (streams s)) (set_file fr fm) s1))
    with (localStorage s).
  assert (streams (update_stream (length (streams s)) (set_file fr fm) s1)
          = streams s
            ++ [{| rock := rk; write_count := 0; read_count := 0;
                   data := []; pos := 0; buf := None; buflen := 0;
                   fref := Some fr; fmode := Some fm |}]) as Hs2
    by apply Hnew.
  assert (∀ d, streams (update_stream (length (streams s)) (set_data d)
                          (update_stream (length (streams s))
                             (set_file fr fm) s1))
               = streams s
                 ++ [{| rock := rk; write_count := 0; read_count := 0;
                        data := d; pos := 0; buf := None; buflen := 0;
                        fref := Some fr; fmode := Some fm |}]) as Hs3.
  { intros d. unfold update_stream at 1. cbn [streams set_streams].
    rewrite Hs2. by rewrite alter_app_r_alt, Nat.sub_diag. }
  destruct ((fm =? filemode_Read) || (fm =? filemode_ReadWrite));
    [|cbn zeta; cbn [opened_stream opened_state opened_value];
      rewrite Hs2; eauto 10].
  destruct (localStorage s !! filename fr) as [saved|];
    [|cbn zeta; cbn [opened_stream opened_state opened_value];
      rewrite Hs2; eauto 10].
  destruct (truthy_string saved);
    [|cbn zeta; cbn [opened_stream opened_state opened_value];
      rewrite Hs2; eauto 10].
  destruct (JSON_parse saved) as [v|]; cbn [default from_option]; unfold id.
  - destruct (number_array v) as [d|] eqn:Hv;
      cbn zeta; cbn [opened_stream opened_state opened_value default];
      rewrite ?Hs3, ?Hs2; eauto 10.
  - cbn zeta. cbn [opened_stream opened_state opened_value].
    rewrite Hs3. eauto 10.
Qed.

Lemma glk_stream_open_file_lookup fr fm rk s :
  let o := glk_stream_open_file fr fm rk s in
  ∃ st, streams (opened_state o) !! opened_stream o = Some st
        ∧ pos st = 0 ∧ fref st = Some fr ∧ fmode st = Some fm
        ∧ buf st = None
        ∧ data st = default [] (number_array (loaded_value fr fm s)).
Proof.
  destruct (glk_stream_open_file_data fr fm rk s) as (Hn&(st&Hs&H)&_).
  exists st. split; [|done].
  by rewrite Hn, Hs, lookup_app_r, Nat.sub_diag.
Qed.

Lemma glk_stream_close_storage str st fr result s :
  streams s !! str = Some st → fref st = Some fr →
  fmode st = Some filemode_Write ∨ fmode st = Some filemode_ReadWrite →
  localStorage (glk_stream_close str result s)
  = <[filename fr := JSON_stringify (data st)]> (localStorage s).
Proof.
  intros Hst Hfr Hfm. unfold glk_stream_close. rewrite Hst, Hfr.
  assert (bool_decide (fmode st = Some filemode_Write)
          || bool_decide (fmode st = Some filemode_ReadWrite) = true)
    as -> by (destruct Hfm as [-> | ->]; done).
  by destruct result.
Qed.

(** Where C6 fails: a stored text that [JSON.parse] reads as a value
    that is no array of numbers is not treated as absent; the stream
    gets the value as its data. *)
Lemma other_value_is_kept fr fm rk saved v s :
  fm = filemode_Read ∨ fm = filemode_ReadWrite →
  localStorage s !! filename fr = Some saved → saved ≠ [] →
  JSON_parse saved = Some v → number_array v = None →
  loaded_value fr fm s = v
  ∧ opened_value (glk_stream_open_file fr fm rk s) = Some v.
Proof.
  intros Hfm Hsaved Hne Hparse Hv.
  assert (loaded_value fr fm s = v) as Hl.
  { unfold loaded_value. rewrite Hsaved, Hparse.
    assert ((fm =? filemode_Read) || (fm =? filemode_ReadWrite) = true)
      as -> by (destruct Hfm as [-> | ->]; done).
    by destruct saved. }
  split; [done|].
  destruct (glk_stream_open_file_data fr fm rk s) as (_&_&->).
  by rewrite Hl, Hv.
Qed.

(** X30. Closing a file stream opened for writing that holds the numbers
    [D] and then opening a file stream for reading under the same name
    gives a stream whose data is [D] (for a [JSON.parse] that reads back
    what [JSON.stringify] wrote for [D]); opening a file stream under a
    name the storage does not hold gives a stream with empty data; and
    so does opening one under a name whose stored text [JSON.parse]
    rejects. The call returns a stream in each case, and nothing but
    numbers is loaded. *)
Theorem save_restore_round_trip :
  (∀ (D : list Z) (fr fr' : fileref) (str : nat) (st : stream)
     (result : option nat) (fm rk : Z) (s : glk_state),
     streams s !! str = Some st →
     fref st = Some fr →
     fmode st = Some filemode_Write ∨ fmode st = Some filemode_ReadWrite →
     data st = D →
     filename fr' = filename fr →
     fm = filemode_Read ∨ fm = filemode_ReadWrite →
     JSON_parse (JSON_stringify D) = Some (number_json D) →
     let o :=
       glk_stream_open_file fr' fm rk (glk_stream_close str result s) in
     opened_value o = None
     ∧ ∃ st', streams (opened_state o) !! opened_stream o = Some st'
              ∧ data st' = D ∧ pos st' = 0)
  ∧ (∀ (fr : fileref) (fm rk : Z) (s : glk_state),
       localStorage s !! filename fr = None →
       let o := glk_stream_open_file fr fm rk s in
       opened_value o = None
       ∧ ∃ st', streams (opened_state o) !! opened_stream o = Some st'
                ∧ data st' = [])
  ∧ (∀ (fr : fileref) (fm rk : Z) (saved : jstring) (s : glk_state),
       localStorage s !! filename fr = Some saved →
       JSON_parse saved = None →
       let o := glk_stream_open_file fr fm rk s in
       opened_value o = None
       ∧ ∃ st', streams (opened_state o) !! opened_stream o = Some st'
                ∧ data st' = []).
Proof.
  split; [|split].
  - intros D fr fr' str st result fm rk s Hst Hfr Hfm HD Hname Hmode Hparse o.
    assert (loaded_value fr' fm (glk_stream_close str result s)
            = number_json D) as Hv.
    { unfold loaded_value.
      assert ((fm =? filemode_Read) || (fm =? filemode_ReadWrite) = true)
        as -> by (destruct Hmode as [-> | ->]; done).
      rewrite (glk_stream_close_storage str st fr) by done.
      by rewrite Hname, HD, lookup_insert_eq, JSON_stringify_truthy, Hparse. }
    destruct (glk_stream_open_file_data fr' fm rk
                (glk_stream_close str result s)) as (_&_&Hval).
    destruct (glk_stream_open_file_lookup fr' fm rk
                (glk_stream_close str result s))
      as (st'&Hst'&Hpos&_&_&_&Hdata).
    fold o in Hval, Hst'.
    rewrite Hv, number_array_number_json in Hval, Hdata.
    split; [done|]. by exists st'.
  - intros fr fm rk s Hnone o.
    assert (loaded_value fr fm s = number_json []) as Hv.
    { unfold loaded_value. rewrite Hnone. by destruct (_ || _). }
    destruct (glk_stream_open_file_data fr fm rk s) as (_&_&Hval).
    destruct (glk_stream_open_file_lookup fr fm rk s)
      as (st'&Hst'&_&_&_&_&Hdata).
    fold o in Hval, Hst'. rewrite Hv in Hval, Hdata.
    split; [done|]. by exists st'.
  - intros fr fm rk saved s Hsaved Hbad o.
    assert (loaded_value fr fm s = number_json []) as Hv.
    { unfold loaded_value. rewrite Hsaved, Hbad.
      destruct (_ || _); [|done]. by destruct (truthy_string saved). }
    destruct (glk_stream_open_file_data fr fm rk s) as (_&_&Hval).
    destruct (glk_stream_open_file_lookup fr fm rk s)
      as (st'&Hst'&_&_&_&_&Hdata).
    fold o in Hval, Hst'. rewrite Hv in Hval, Hdata.
    split; [done|]. by exists st'.
Qed.

(** ** The cursor of a stream *)
























End Properties.

(** * The properties on the concrete sessions *)

(** C1, the claim as stated fails: after ["Hi"] was written and
    [glk_exit] has flushed it, [terminal.print] has received ["Hi"] and
    the closing line, which nobody wrote to the stream. *)
Lemma glk_exit_prints_unwritten_text :
  let cs := [Put_string (jstr "Hi"); Exit] in
  let s := run NumericJSON.parse cs (createGlk ∅ ∅ ∅) in
  written_text NumericJSON.parse cs (createGlk ∅ ∅ ∅) = jstr "Hi"
  ∧ outputBuffer s = []
  ∧ printed s = [jstr "Hi"; session_ended]
  ∧ printed_text s
    ≠ written_text NumericJSON.parse cs (createGlk ∅ ∅ ∅).
Proof. by vm_compute. Qed.

(** The write that [keeps_text] leaves out: [glk_put_char_stream_uni] puts
    one unit, the code point modulo 2^16, where [glk_put_char_uni] puts
    the two units of the code point. *)
Example stream_uni_write_loses_code_point :
  let cs := [Put_char_stream_uni mainStream 0x1F600; Update] in
  written_text NumericJSON.parse cs (createGlk ∅ ∅ ∅) = [0xD83D; 0xDE00]
  ∧ printed (run NumericJSON.parse cs (createGlk ∅ ∅ ∅)) = [[0xF600]]
  ∧ printed (run NumericJSON.parse [Put_char_uni 0x1F600; Update]
               (createGlk ∅ ∅ ∅))
    = [[0xD83D; 0xDE00]].
Proof. by vm_compute. Qed.

Lemma output_reaches_terminal_in_order_witness :
  let cs := [Put_char 72; Put_string_stream mainStream (jstr "ell");
             Put_char_stream_uni mainStream 111] in
  let s := run NumericJSON.parse (cs ++ [Update]) (createGlk ∅ ∅ ∅) in
  is_flush Update = true
  ∧ every_call NumericJSON.parse keeps_text cs (createGlk ∅ ∅ ∅)
  ∧ outputBuffer s = []
  ∧ printed_text s = jstr "Hello".
Proof.
  intros cs s.
  assert (every_call NumericJSON.parse keeps_text cs (createGlk ∅ ∅ ∅))
    as Hcs by (vm_compute; repeat split).
  split; [reflexivity|]. split; [exact Hcs|].
  destruct (output_reaches_terminal_in_order NumericJSON.parse) as [_ Hflush].
  destruct (Hflush cs Update (createGlk ∅ ∅ ∅)) as [Hempty Hall];
    [reflexivity|].
  split; [exact Hempty|exact (Hall Hcs)].
Defined.

(** The scenario of the specification: "Hello" written to the main
    stream and flushed reaches the terminal as it is. *)
Example hello_is_printed :
  printed (run NumericJSON.parse
             [Put_string_stream mainStream (jstr "Hello"); Update]
             (createGlk ∅ ∅ ∅))
  = [jstr "Hello"].
Proof. by vm_compute. Qed.

Lemma line_input_copy_then_length_witness :
  let s' := line_input_callback (jstr "north") waiting_for_line in
  (is_pending (inputState waiting_for_line) = true
   ∧ is_buffer (inputState waiting_for_line) = Some 7%nat
   ∧ is_event (inputState waiting_for_line) = Some 9%nat
   ∧ str_length (jstr "north") ≤ is_maxLen (inputState waiting_for_line))
  ∧ js_array_get (structs s' !!! 9%nat) 2 = Num 5
  ∧ is_pending (inputState s') = false.
Proof.
  intros s'.
  assert (is_pending (inputState waiting_for_line) = true) as H1
    by reflexivity.
  assert (is_buffer (inputState waiting_for_line) = Some 7%nat) as H2
    by reflexivity.
  assert (is_event (inputState waiting_for_line) = Some 9%nat) as H3
    by reflexivity.
  assert (str_length (jstr "north") ≤ is_maxLen (inputState waiting_for_line))
    as H4 by (vm_compute; discriminate).
  split; [done|].
  destruct (line_input_copy_then_length (jstr "north") 7 9 waiting_for_line
              H1 H2 H3 H4) as (_&_&_&Hlen&Hpend).
  split; [exact Hlen|exact Hpend].
Defined.

(** The scenario of the specification: "north" delivered to a buffer of
    capacity 10. *)
Example north_is_copied :
  take 6 (arrays (handleCommand (jstr "north") waiting_for_line) !!! 7%nat)
  = [Num 110; Num 111; Num 114; Num 116; Num 104; Num 0]
  ∧ get_field 9 2 (handleCommand (jstr "north") waiting_for_line) = Num 5.
Proof. by vm_compute. Qed.

Lemma second_line_request_replaces_first_witness :
  let s1 := glk_put_string (jstr "Hi") waiting_for_line in
  let s2 := glk_request_line_event None (Some 8%nat) 0 s1 in
  let s3 := deliver_lines [jstr "north"; jstr "south"] s2 in
  (is_pending (inputState s1) = true
   ∧ is_buffer (inputState s1) = Some 7%nat)
  ∧ arrays s3 !!! 7%nat = replicate 10 (Num 0)
  ∧ js_array_get (arrays s3 !!! 8%nat) 0 = Num 110
  ∧ inputResolver s3 = None.
Proof.
  intros s1 s2 s3. split; [split; reflexivity|].
  destruct (second_line_request_replaces_first None (Some 8%nat) 0
              [jstr "north"; jstr "south"] s1)
    as (_&_&_&Hfirst&Hsecond&Hres).
  split; [|split].
  - apply (Hfirst 7%nat); [reflexivity|reflexivity|discriminate].
  - apply (Hsecond 8%nat (jstr "north") [jstr "south"] 0%nat 110);
      [reflexivity|reflexivity|reflexivity|vm_compute; reflexivity].
  - apply Hres. discriminate.
Defined.

(** C4, the code at a failing input: on the memory stream 1 over array 7
    (capacity 4, not selected), [glk_put_buffer_stream] and
    [glk_put_string_stream] leave the array as it was and append to
    [str.data], with the cursor still at 0, whereas [glk_put_char_stream]
    stores into the array at the cursor. *)
Lemma bulk_writes_miss_the_bound_array :
  let s := memory_stream_open in
  to_screen 1 s = false
  ∧ (buf <$> streams s !! 1%nat) = Some (Some 7%nat)
  ∧ arrays (glk_put_buffer_stream 1 [72; 105] s) !!! 7%nat
    = replicate 4 (Num 0)
  ∧ ((λ st, (data st, pos st))
       <$> streams (glk_put_buffer_stream 1 [72; 105] s) !! 1%nat)
    = Some ([72; 105], 0)
  ∧ arrays (glk_put_string_stream 1 (jstr "Hi") s) !!! 7%nat
    = replicate 4 (Num 0)
  ∧ ((λ st, (data st, pos st))
       <$> streams (glk_put_string_stream 1 (jstr "Hi") s) !! 1%nat)
    = Some ([72; 105], 0)
  ∧ arrays (glk_put_char_stream 1 72 s) !!! 7%nat
    = [Num 72; Num 0; Num 0; Num 0]
  ∧ ((λ st, (data st, pos st))
       <$> streams (glk_put_char_stream 1 72 s) !! 1%nat)
    = Some ([], 1).
Proof. by vm_compute. Qed.


(** What [keeps_bounds] leaves out beside the seek: after a bulk write
    has gone into the data of the memory stream 1 (capacity 4), six
    reads take the cursor past the capacity. *)
Example read_after_bulk_write_passes_capacity :
  let s := glk_put_buffer_stream 1 [1; 2; 3; 4; 5; 6] memory_stream_open in
  keeps_bounds NumericJSON.parse (Put_buffer_stream 1 [1; 2; 3; 4; 5; 6])
    memory_stream_open = false
  ∧ (λ st, (pos st, buflen st))
      <$> streams (run NumericJSON.parse (replicate 6 (Get_char_stream 1)) s)
            !! 1%nat
    = Some (6, 4).
Proof. by vm_compute. Qed.


(** C6, the code at a failing input: the storage holds the text "5"
    under the name "slot1". [JSON.parse] reads it as the number 5, which
    is no array; [glk_stream_open_file] catches nothing and keeps the
    number as the data of the stream it returns, where the text of a
    syntax error gives the empty array. *)
Lemma stored_number_is_kept_as_data :
  let s := createGlk {[ jstr "slot1" := jstr "5" ]} ∅ ∅ in
  let o := glk_stream_open_file NumericJSON.parse slot1 filemode_Read 0 s in
  NumericJSON.parse (jstr "5") = Some (JNumber 5)
  ∧ number_array (JNumber 5) = None
  ∧ loaded_value NumericJSON.parse slot1 filemode_Read s = JNumber 5
  ∧ opened_value o = Some (JNumber 5)
  ∧ loaded_value NumericJSON.parse slot1 filemode_Read
      (createGlk {[ jstr "slot1" := jstr "[1,2" ]} ∅ ∅)
    = number_json [].
Proof. by vm_compute. Qed.

Lemma save_restore_round_trip_witness :
  (let o :=
     glk_stream_open_file NumericJSON.parse slot1 filemode_Read 0
       (glk_stream_close 1 None saving_123) in
   opened_value o = None
   ∧ ∃ st', streams (opened_state o) !! opened_stream o = Some st'
            ∧ data st' = [1; 2; 3] ∧ pos st' = 0)
  ∧ (let o :=
       glk_stream_open_file NumericJSON.parse slot2 filemode_Read 0
         (glk_stream_close 1 None saving_123) in
     opened_value o = None
     ∧ ∃ st', streams (opened_state o) !! opened_stream o = Some st'
              ∧ data st' = [])
  ∧ (let o :=
       glk_stream_open_file NumericJSON.parse slot1 filemode_Read 0
         (createGlk {[ jstr "slot1" := jstr "[1,2" ]} ∅ ∅) in
     opened_value o = None
     ∧ ∃ st', streams (opened_state o) !! opened_stream o = Some st'
              ∧ data st' = []).
Proof.
  destruct (save_restore_round_trip NumericJSON.parse)
    as (Hround&Hnever&Hbad).
  split; [|split].
  - apply (Hround [1; 2; 3] slot1 slot1 1%nat
             {| rock := 0; write_count := 3; read_count := 0;
                data := [1; 2; 3]; pos := 0; buf := None; buflen := 0;
                fref := Some slot1; fmode := Some filemode_Write |});
      try reflexivity; by left.
  - apply Hnever. reflexivity.
  - apply (Hbad slot1 filemode_Read 0 (jstr "[1,2")); reflexivity.
Defined.

(** A unit written at a negative cursor is kept as a property of the
    array and read back from there; the elements stay as they were. *)
Example unit_at_negative_cursor_is_read_back :
  let s := glk_stream_set_position 1 (-1) seekmode_Start memory_stream_open in
  let s' :=
    glk_stream_set_position 1 (-1) seekmode_Start
      (glk_put_char_stream 1 72 s) in
  (glk_get_char_stream 1 s').1 = Num 72
  ∧ arrays s' !!! 7%nat = replicate 4 (Num 0).
Proof. by vm_compute. Qed.

(** The scenario of the specification: [1, 2, 3] saved under "slot1" is
    stored as the text "[1,2,3]". *)
Example slot1_is_stored_as_text :
  localStorage (glk_stream_close 1 None saving_123) !! jstr "slot1"
  = Some (jstr "[1,2,3]").
Proof. by vm_compute. Qed.

(** C7, the claim as stated fails: a read from the main stream of a
    fresh adapter, whose data is empty, returns -1 and advances neither
    the cursor nor the read counter. *)
Lemma read_at_end_advances_nothing :
  let s := createGlk ∅ ∅ ∅ in
  glk_get_char_stream mainStream s = (Num (-1), s)
  ∧ ¬ ∃ st st',
        streams s !! mainStream = Some st
        ∧ streams (glk_get_char_stream mainStream s).2 !! mainStream
          = Some st'
        ∧ pos st' = pos st + 1 ∧ read_count st' = read_count st + 1.
Proof.
  split; [reflexivity|].
  intros (st&st'&Hst&Hst'&Hpos&_). vm_compute in Hst, Hst'.
  injection Hst as <-. injection Hst' as <-. cbn in Hpos. lia.
Qed.

Lemma reads_advance_or_return_sentinel_witness :
  (glk_get_char_stream 1 saving_123).1 = Num 1
  ∧ (∃ st', streams (glk_get_char_stream 1 saving_123).2 !! 1%nat = Some st'
            ∧ advanced_by 1
                {| rock := 0; write_count := 3; read_count := 0;
                   data := [1; 2; 3]; pos := 0; buf := None; buflen := 0;
                   fref := Some slot1; fmode := Some filemode_Write |} st').
Proof.
  destruct (reads_advance_or_return_sentinel 1 7 0
              {| rock := 0; write_count := 3; read_count := 0;
                 data := [1; 2; 3]; pos := 0; buf := None; buflen := 0;
                 fref := Some slot1; fmode := Some filemode_Write |}
              saving_123) as (Hone&_&_); [reflexivity|].
  exact Hone.
Defined.

(** Reading four units from a stream that holds three. *)
Example bulk_read_stops_at_end :
  (glk_get_buffer_stream 1 7 4
     (run NumericJSON.parse
        [Stream_open_file slot1 filemode_Write 0;
         Put_buffer_stream 1 [1; 2; 3]]
        (createGlk ∅ ten_zeros ∅))).1 = 3.
Proof. by vm_compute. Qed.

Lemma cancel_line_event_keeps_request_witness :
  let s' :=
    glk_cancel_line_event (Some mainWindow) (Some 9%nat) waiting_for_line in
  inputState s' = inputState waiting_for_line
  ∧ js_array_get (arrays (line_input_callback (jstr "north") s') !!! 7%nat) 4
    = Num 104
  ∧ js_array_get (structs (line_input_callback (jstr "north") s') !!! 9%nat) 2
    = Num 5.
Proof.
  intros s'.
  destruct (cancel_line_event_keeps_request (Some mainWindow) (Some 9%nat)
              (jstr "north") waiting_for_line)
    as ((Hin&_)&_&_&_&Hlater).
  destruct (Hlater 7%nat) as (Hcopy&Hlen&_); [reflexivity|reflexivity|].
  split; [exact Hin|]. split.
  - apply (Hcopy 4%nat 104); [reflexivity|by vm_compute].
  - apply (Hlen 9%nat). reflexivity.
Defined.

(** The answers of the capability negotiator on the selectors of the
    specification and on the graphics selector of Gargoyle. *)
Example gestalt_answers :
  glk_gestalt gestalt_Unicode None = 1
  ∧ glk_gestalt gestalt_LineInput (Some 0) = 1
  ∧ glk_gestalt gestalt_CharOutput (Some 65) = 2
  ∧ glk_gestalt 0x1100 None = 0
  ∧ glk_gestalt_ext (-1) None None = 0.
Proof. by vm_compute. Qed.

(** * Further properties of the adapter *)

Section Further.

Variable JSON_parse : jstring → option json.

Local Abbreviation glk_stream_open_file := (glk_stream_open_file JSON_parse).
Local Abbreviation loaded_value := (loaded_value JSON_parse).
Local Abbreviation step := (step JSON_parse).
Local Abbreviation run := (run JSON_parse).

Arguments js_array_get : simpl never.
Arguments js_array_set : simpl never.
Arguments charCodeAt : simpl never.

(** ** Calls that only read *)

Lemma same_but_streams_arrays_refl s : same_but_streams_arrays s s.
Proof. by repeat split. Qed.

Lemma same_but_streams_arrays_trans s1 s2 s3 :
  same_but_streams_arrays s1 s2 → same_but_streams_arrays s2 s3 →
  same_but_streams_arrays s1 s3.
Proof.
  intros (?&?&?&?&?&?&?&?&?) (?&?&?&?&?&?&?&?&?).
  repeat split; congruence.
Qed.

Lemma printed_array_store b i v s : printed (array_store b i v s) = printed s.
Proof.
  unfold array_store. change (printed (set_arrays ?m ?s0)) with (printed s0).
  rewrite printed_emit. cbn. by rewrite app_nil_r.
Qed.

Lemma same_but_array_store b i v s :
  same_but_streams_arrays s (array_store b i v s).
Proof. repeat split. apply printed_array_store. Qed.

Lemma same_but_update_stream str f s :
  same_but_streams_arrays s (update_stream str f s).
Proof. repeat split. unfold update_stream. cbn. by rewrite length_alter. Qed.

Lemma same_but_get_char_stream str s :
  same_but_streams_arrays s (glk_get_char_stream str s).2.
Proof.
  unfold glk_get_char_stream.
  repeat case_match; cbn [snd];
    first [apply same_but_update_stream | apply same_but_streams_arrays_refl].
Qed.

Lemma same_but_get_buffer_loop str b idxs count s :
  same_but_streams_arrays s (get_buffer_loop str b idxs count s).2.
Proof.
  revert count s. induction idxs as [|i idxs IH]; intros count s.
  - apply same_but_streams_arrays_refl.
  - cbn [get_buffer_loop].
    pose proof (same_but_get_char_stream str s) as Hread.
    destruct (glk_get_char_stream str s) as [ch s1]. cbn [snd] in Hread.
    case_bool_decide; [done|].
    eapply same_but_streams_arrays_trans; [exact Hread|].
    eapply same_but_streams_arrays_trans; [apply same_but_array_store|].
    apply IH.
Qed.

Lemma same_but_get_line_loop str b idxs count s :
  same_but_streams_arrays s (get_line_loop str b idxs count s).2.
Proof.
  revert count s. induction idxs as [|i idxs IH]; intros count s.
  - apply same_but_streams_arrays_refl.
  - cbn [get_line_loop].
    pose proof (same_but_get_char_stream str s) as Hread.
    destruct (glk_get_char_stream str s) as [ch s1]. cbn [snd] in Hread.
    case_bool_decide; [done|].
    eapply same_but_streams_arrays_trans; [exact Hread|].
    case_bool_decide.
    + apply same_but_array_store.
    + eapply same_but_streams_arrays_trans; [apply same_but_array_store|].
      apply IH.
Qed.

(** ** Writing a buffer is writing its text *)

Lemma append_output_nil s : append_output [] s = s.
Proof. destruct s. unfold append_output. cbn. by rewrite app_nil_r. Qed.

Lemma append_output_app t u s :
  append_output u (append_output t s) = append_output (t ++ u) s.
Proof. unfold append_output. cbn. by rewrite app_assoc. Qed.

Lemma put_buffer_fold bf s :
  foldl (λ s' c, append_output (String_fromCharCode c) s') s bf
  = append_output (bf ≫= String_fromCharCode) s.
Proof.
  revert s. induction bf as [|c bf IH]; intros s; cbn [foldl].
  - by rewrite append_output_nil.
  - rewrite IH, append_output_app. done.
Qed.

Lemma put_buffer_uni_state bf s :
  state_of (glk_put_buffer_uni bf s) = append_output (code_points_text bf) s.
Proof.
  revert s. induction bf as [|c bf IH]; intros s; cbn.
  - by rewrite append_output_nil.
  - destruct (String_fromCodePoint c) as [t|]; cbn.
    + by rewrite IH, append_output_app.
    + by rewrite append_output_nil.
Qed.


(** ** What one call changes *)

(** Unfolds a call that is not a read down to its assignments. *)
Ltac unfold_call :=
  cbn [step];
  unfold fatal_error, glk_exit, glk_window_open, createWindow, createStream,
    glk_window_close, glk_window_clear, glk_set_window,
    glk_stream_set_current, glk_stream_open_file,
    glk_stream_open_memory, glk_stream_close, glk_stream_set_position,
    glk_put_char, glk_put_char_stream_uni, glk_put_char_stream,
    glk_put_string, glk_put_string_stream, glk_put_buffer,
    glk_put_buffer_stream, glk_put_char_uni, glk_put_string_uni,
    glk_put_jstring, glk_put_jstring_stream, glk_request_line_event,
    _request_line, glk_request_char_event, glk_cancel_line_event,
    glk_cancel_char_event, glk_select, glk_select_poll, update, flush_output;
  rewrite ?put_buffer_fold, ?put_buffer_uni_state.


Lemma step_inputResolver c s :
  inputResolver (step c s)
  = if is_line_request c then Some LineInputCallback else inputResolver s.
Proof.
  destruct c; try (unfold_call; cbn; by repeat case_match); cbn [step];
    unfold glk_get_buffer_stream, glk_get_line_stream.
  - by destruct (same_but_get_char_stream str s) as (_&_&_&_&->&_).
  - by destruct (same_but_get_buffer_loop str b
                   (seqZ 0 (len_or_length len b s)) 0 s) as (_&_&_&_&->&_).
  - by destruct (same_but_get_line_loop str b
                   (seqZ 0 (len_or_length len b s - 1)) 0 s)
      as (_&_&_&_&->&_).
Qed.

Lemma step_is_event c s :
  is_event (inputState (step c s))
  = match c with Select e => Some e | _ => is_event (inputState s) end.
Proof.
  destruct c; try (unfold_call; cbn; by repeat case_match); cbn [step];
    unfold glk_get_buffer_stream, glk_get_line_stream.
  - by destruct (same_but_get_char_stream str s) as (_&_&_&->&_).
  - by destruct (same_but_get_buffer_loop str b
                   (seqZ 0 (len_or_length len b s)) 0 s) as (_&_&_&->&_).
  - by destruct (same_but_get_line_loop str b
                   (seqZ 0 (len_or_length len b s - 1)) 0 s) as (_&_&_&->&_).
Qed.


Lemma step_inputState c s :
  is_line_request c = false → is_select c = false →
  inputState (step c s) = inputState s.
Proof.
  intros Hl Hs.
  destruct c; try done; try (unfold_call; cbn; by repeat case_match);
    cbn [step]; unfold glk_get_buffer_stream, glk_get_line_stream.
  - by destruct (same_but_get_char_stream str s) as (_&_&_&->&_).
  - by destruct (same_but_get_buffer_loop str b
                   (seqZ 0 (len_or_length len b s)) 0 s) as (_&_&_&->&_).
  - by destruct (same_but_get_line_loop str b
                   (seqZ 0 (len_or_length len b s - 1)) 0 s) as (_&_&_&->&_).
Qed.

Lemma step_localStorage c s :
  localStorage (step c s)
  = match c with
    | Stream_close str _ =>
        match streams s !! str with
        | Some st =>
            match fref st with
            | Some fr =>
                if bool_decide (fmode st = Some filemode_Write)
                   || bool_decide (fmode st = Some filemode_ReadWrite)
                then <[filename fr := JSON_stringify (data st)]>
                       (localStorage s)
                else localStorage s
            | None => localStorage s
            end
        | None => localStorage s
        end
    | _ => localStorage s
    end.
Proof.
  destruct c; try (unfold_call; cbn; by repeat case_match);
    cbn [step]; unfold glk_get_buffer_stream, glk_get_line_stream.
  - by destruct (same_but_get_char_stream str s) as (_&_&_&_&_&->&_).
  - by destruct (same_but_get_buffer_loop str b
                   (seqZ 0 (len_or_length len b s)) 0 s)
      as (_&_&_&_&_&->&_).
  - by destruct (same_but_get_line_loop str b
                   (seqZ 0 (len_or_length len b s - 1)) 0 s)
      as (_&_&_&_&_&->&_).
Qed.

Lemma printed_flush_output s :
  printed (flush_output s)
  = printed s ++ if truthy_string (outputBuffer s) then [outputBuffer s]
                 else [].
Proof.
  unfold flush_output. destruct (truthy_string (outputBuffer s)).
  - change (printed (set_outputBuffer [] ?s0)) with (printed s0).
    apply printed_terminal_print.
  - by rewrite app_nil_r.
Qed.

Lemma printed_of_screen s s' : screen s' = screen s → printed s' = printed s.
Proof. unfold screen. by intros [= -> _]. Qed.

Lemma printed_update_stream str f s :
  printed (update_stream str f s) = printed s.
Proof. done. Qed.

Lemma printed_put_char_stream str ch s :
  printed (glk_put_char_stream str ch s) = printed s.
Proof.
  unfold glk_put_char_stream. rewrite printed_update_stream.
  repeat case_match; rewrite ?printed_update_stream, ?printed_array_store;
    done.
Qed.

Lemma step_prints c s : printed (step c s) = printed s ++ prints_of c s.
Proof.
  unfold prints_of.
  destruct c; cbn [step is_flush]; rewrite ?app_nil_r;
    try (apply printed_of_screen;
         first [ apply screen_glk_window_close | apply screen_glk_window_clear
               | apply screen_glk_set_window
               | apply screen_glk_stream_open_file
               | apply screen_glk_stream_close
               | apply screen_glk_stream_set_position
               | apply screen_glk_get_char_stream
               | apply screen_get_buffer_loop | apply screen_get_line_loop
               | apply screen_glk_cancel_line_event | apply screen_glk_select
               | apply screen_set_field | apply screen_terminal_handleError
               | by unfold glk_cancel_char_event, glk_select_poll;
                 cbn; repeat case_match ]);
    try apply printed_put_char_stream;
    try (unfold_call; cbn; by repeat case_match).
  - unfold glk_exit. rewrite printed_terminal_print, printed_flush_output.
    by rewrite <- app_assoc.
  - unfold glk_request_line_event, _request_line.
    rewrite <- printed_flush_output. apply printed_of_screen.
    cbn zeta. rewrite screen_terminal_waitForInput.
    destruct win;
      rewrite ?screen_update_window, screen_set_pending,
        screen_set_inputState; done.
  - unfold glk_request_char_event.
    rewrite <- printed_flush_output. by destruct win.
  - apply printed_flush_output.
Qed.


Lemma shape_alter (f : window → window) (i : nat) (l : list window) :
  (∀ w, window_shape (f w) = window_shape w) →
  window_shape <$> alter f i l = window_shape <$> l.
Proof.
  intros Hf. rewrite (list_fmap_alter _ _ id).
  - by apply list_alter_id.
  - apply Forall_forall. intros w _. apply Hf.
Qed.

Lemma step_shape c s :
  (window_shape <$> windows (step c s), length (streams (step c s)))
  = match c with
    | Window_open _ _ _ ty _ =>
        ((window_shape <$> windows s) ++ [(ty, length (streams s))],
         S (length (streams s)))
    | Stream_open_file _ _ _ | Stream_open_memory _ _ _ _ =>
        (window_shape <$> windows s, S (length (streams s)))
    | _ => (window_shape <$> windows s, length (streams s))
    end.
Proof.
  destruct c;
    try (unfold_call; cbn; repeat case_match; cbn;
         rewrite ?shape_alter by done;
         rewrite ?length_alter, ?length_app, ?fmap_app; cbn;
         rewrite ?Nat.add_1_r; done);
    cbn [step]; unfold glk_get_buffer_stream, glk_get_line_stream.
  - by destruct (same_but_get_char_stream str s) as (_&->&_&_&_&_&_&_&->).
  - by destruct (same_but_get_buffer_loop str b
                   (seqZ 0 (len_or_length len b s)) 0 s)
      as (_&->&_&_&_&_&_&_&->).
  - by destruct (same_but_get_line_loop str b
                   (seqZ 0 (len_or_length len b s - 1)) 0 s)
      as (_&->&_&_&_&_&_&_&->).
Qed.


(** ** Invariants of a session *)

Lemma windows_own_streams_shape s :
  windows_own_streams s
  ↔ Forall (λ p : Z * nat, (p.2 < length (streams s))%nat)
      (window_shape <$> windows s)
    ∧ NoDup ((window_shape <$> windows s).*2)
    ∧ (window_shape <$> windows s) !! mainWindow
      = Some (wintype_TextBuffer, mainStream).
Proof.
  unfold windows_own_streams.
  rewrite Forall_fmap, <- list_fmap_compose, list_lookup_fmap. done.
Qed.

Lemma windows_own_streams_step c s :
  windows_own_streams s → windows_own_streams (step c s).
Proof.
  rewrite !windows_own_streams_shape. intros (Hlt&Hnd&Hmain).
  pose proof (step_shape c s) as Hshape.
  assert (∀ n, (length (streams s) ≤ n)%nat →
               Forall (λ p : Z * nat, (p.2 < n)%nat)
                 (window_shape <$> windows s)) as Hmono.
  { intros n Hn. eapply Forall_impl; [exact Hlt|]. cbn. lia. }
  pose proof (f_equal fst Hshape) as Hw.
  pose proof (f_equal snd Hshape) as Hn. clear Hshape.
  destruct c; cbn [fst snd] in Hw, Hn; rewrite Hw, Hn;
    try (split; [|done]); try (apply Hmono; lia).
  split; [|split].
  - apply Forall_app. split; [apply Hmono; lia|].
    apply Forall_singleton. cbn. lia.
  - rewrite fmap_app. apply NoDup_app. split; [done|]. split.
    + intros x Hx Hx'. apply list_elem_of_singleton in Hx'.
      apply list_elem_of_fmap in Hx as (p&Hpx&Hp).
      rewrite Forall_forall in Hlt. specialize (Hlt p Hp).
      cbn in Hx'. lia.
    + apply NoDup_singleton.
  - rewrite lookup_app_l; [done|]. by eapply lookup_lt_Some.
Qed.

Lemma windows_own_streams_run cs s :
  windows_own_streams s → windows_own_streams (run cs s).
Proof.
  revert s. induction cs as [|c cs IH]; intros s Hs; [done|].
  cbn. by apply IH, windows_own_streams_step.
Qed.

(** X1. In every state a session reaches from [createGlk], each window
    owns a stream of the stream table, no two windows own the same
    stream, and the first window is still the text-buffer window that
    owns the main stream: [glk_window_close] and [glk_stream_close]
    remove nothing. *)
Theorem windows_keep_their_streams cs storage arrs strs :
  windows_own_streams (run cs (createGlk storage arrs strs)).
Proof.
  apply windows_own_streams_run. split; [|split]; cbn.
  - apply Forall_singleton. cbn. lia.
  - apply NoDup_singleton.
  - done.
Qed.


Lemma prints_of_nonempty c s : Forall (λ t, t ≠ []) (prints_of c s).
Proof.
  unfold prints_of. destruct (is_flush c); [|done].
  apply Forall_app. split.
  - destruct (outputBuffer s); [done|]. by apply Forall_singleton.
  - destruct c; try done. by apply Forall_singleton.
Qed.

(** X2. [terminal.print] is called by the flush checkpoints only: by
    [update], [_request_line], [glk_request_char_event] and [glk_exit]
    with the whole output buffer when it is not empty, and by [glk_exit]
    once more with its closing line. So no call of a session ever hands
    [terminal.print] an empty text. *)
Theorem print_only_at_flush_never_empty :
  (∀ c s, printed (step c s) = printed s ++ prints_of c s)
  ∧ (∀ cs storage arrs strs,
       Forall (λ t, t ≠ []) (printed (run cs (createGlk storage arrs strs)))).
Proof.
  split; [exact step_prints|].
  intros cs storage arrs strs.
  assert (Forall (λ t, t ≠ []) (printed (createGlk storage arrs strs)))
    as Hinit by done.
  revert Hinit. generalize (createGlk storage arrs strs).
  induction cs as [|c cs IH]; intros s Hs; [done|].
  cbn. apply IH. rewrite step_prints. apply Forall_app.
  split; [done|apply prints_of_nonempty].
Qed.

Lemma run_inputResolver cs s :
  Forall (λ c, is_line_request c = false) cs →
  inputResolver (run cs s) = inputResolver s.
Proof.
  revert s. induction cs as [|c cs IH]; intros s Hcs; [done|].
  apply Forall_cons in Hcs as [Hc Hcs].
  change (run (c :: cs) s) with (run cs (step c s)).
  rewrite IH by done. by rewrite step_inputResolver, Hc.
Qed.

(** X3. Only a line request registers a callback with the terminal:
    after a session without [glk_request_line_event] (character requests
    included), the lines the host delivers change nothing. *)
Theorem input_without_line_request_is_ignored cs inputs storage arrs strs :
  Forall (λ c, is_line_request c = false) cs →
  inputResolver (run cs (createGlk storage arrs strs)) = None
  ∧ deliver_lines inputs (run cs (createGlk storage arrs strs))
    = run cs (createGlk storage arrs strs).
Proof.
  intros Hcs.
  assert (inputResolver (run cs (createGlk storage arrs strs)) = None) as Hr
    by by rewrite run_inputResolver.
  split; [done|]. by apply deliver_lines_no_resolver.
Qed.

(** X4. The event structure [glk_select] captured stays captured until
    the next [glk_select]: no request, cancellation, write or read
    replaces or forgets it. *)
Theorem captured_event_stays cs e s :
  Forall (λ c, is_select c = false) cs →
  is_event (inputState (run cs (glk_select e s))) = Some e.
Proof.
  intros Hcs.
  assert (is_event (inputState (glk_select e s)) = Some e) as Hinit by done.
  revert Hinit. generalize (glk_select e s).
  induction cs as [|c cs IH]; intros s0 Hs0; [done|].
  apply Forall_cons in Hcs as [Hc Hcs]. cbn. apply IH; [done|].
  rewrite step_is_event. by destruct c.
Qed.

(** X5. The storage is written by [glk_stream_close] alone, and only
    when the stream closed is a file stream opened for writing: a call
    that changes what the storage holds under a name is the close of
    such a stream bound to that name, and leaves the text of the
    stream's data there. *)
Theorem storage_written_only_by_close c s (k : jstring) :
  localStorage (step c s) !! k ≠ localStorage s !! k →
  ∃ str result st fr,
    c = Stream_close str result
    ∧ streams s !! str = Some st ∧ fref st = Some fr ∧ filename fr = k
    ∧ (fmode st = Some filemode_Write ∨ fmode st = Some filemode_ReadWrite)
    ∧ localStorage (step c s) !! k = Some (JSON_stringify (data st)).
Proof.
  rewrite step_localStorage. intros Hk.
  destruct c; try done.
  destruct (streams s !! str) as [st|] eqn:Hst; [|done].
  destruct (fref st) as [fr|] eqn:Hfr; [|done].
  destruct (bool_decide (fmode st = Some filemode_Write)
            || bool_decide (fmode st = Some filemode_ReadWrite)) eqn:Hm;
    [|done].
  destruct (decide (filename fr = k)) as [<-|Hne];
    [|by rewrite lookup_insert_ne in Hk].
  exists str, result, st, fr. repeat split; try done.
  - apply orb_true_iff in Hm as [Hm|Hm]; apply bool_decide_eq_true in Hm;
      auto.
  - by rewrite lookup_insert_eq.
Qed.


(** ** Counters *)

Lemma write_count_after (g : stream → stream) str st s1 s n :
  streams s !! str = Some st →
  streams s1 = streams s ∨ streams s1 = alter g str (streams s) →
  (∀ x, write_count (g x) = write_count x) →
  write_count
    <$> streams (update_stream str
                   (λ x, set_write_count (write_count x + n) x) s1) !! str
  = Some (write_count st + n).
Proof.
  intros Hst Hs1 Hg. rewrite streams_update_stream_eq.
  destruct Hs1 as [-> | ->].
  - by rewrite Hst.
  - rewrite list_lookup_alter_eq, Hst. cbn. by rewrite Hg.
Qed.

Lemma put_char_stream_inner str ch s :
  let s1 :=
    if to_screen str s then append_output (String_fromCharCode ch) s
    else
      match streams s !! str with
      | Some st =>
          match buf st with
          | Some b =>
              if pos st <? buflen st
              then update_stream str (set_pos (pos st + 1))
                     (array_store b (pos st) (Num ch) s)
              else s
          | None =>
              if truthy_array (data st)
              then update_stream str (set_data (data st ++ [ch])) s
              else s
          end
      | None => s
      end in
  ∃ g, (streams s1 = streams s ∨ streams s1 = alter g str (streams s))
       ∧ ∀ x, write_count (g x) = write_count x.
Proof.
  cbn zeta. destruct (to_screen str s); [exists id; auto|].
  destruct (streams s !! str) as [st|]; [|exists id; auto].
  destruct (buf st).
  - destruct (pos st <? buflen st); [|exists id; auto].
    exists (set_pos (pos st + 1)). auto.
  - exists (set_data (data st ++ [ch])). auto.
Qed.

Lemma put_text_stream_inner str (text : jstring) s :
  let s1 :=
    if to_screen str s then append_output text s
    else
      match streams s !! str with
      | Some st =>
          if truthy_array (data st)
          then update_stream str (set_data (data st ++ text)) s
          else s
      | None => s
      end in
  ∃ g, (streams s1 = streams s ∨ streams s1 = alter g str (streams s))
       ∧ ∀ x, write_count (g x) = write_count x.
Proof.
  cbn zeta. destruct (to_screen str s); [exists id; auto|].
  destruct (streams s !! str) as [st|]; [|exists id; auto].
  exists (set_data (data st ++ text)). auto.
Qed.

(** X6. Every write to a stream adds the number of units written to the
    write counter of that stream, whether the units went to the screen,
    into the bound array, into the data, or were dropped at capacity;
    the writes without a stream argument leave every stream, the write
    counter of the selected one included, as it is. *)
Theorem write_counter_counts_stream_writes (str : nat) (st : stream) (ch : Z)
    (text : jstring) (bf : list Z) (s : glk_state) :
  streams s !! str = Some st →
  (write_count <$> streams (glk_put_char_stream str ch s) !! str
   = Some (write_count st + 1)
   ∧ write_count <$> streams (glk_put_string_stream str text s) !! str
     = Some (write_count st + str_length text)
   ∧ write_count <$> streams (glk_put_buffer_stream str bf s) !! str
     = Some (write_count st + Z.of_nat (length bf))
   ∧ write_count <$> streams (glk_put_jstring_stream str text s) !! str
     = Some (write_count st + str_length text))
  ∧ (streams (glk_put_char ch s) = streams s
     ∧ streams (glk_put_string text s) = streams s
     ∧ streams (glk_put_buffer bf s) = streams s
     ∧ streams (state_of (glk_put_char_uni ch s)) = streams s
     ∧ streams (glk_put_string_uni text s) = streams s
     ∧ streams (state_of (glk_put_buffer_uni bf s)) = streams s
     ∧ streams (glk_put_jstring text s) = streams s).
Proof.
  intros Hst. split; [split; [|split; [|split]]|].
  - unfold glk_put_char_stream.
    destruct (put_char_stream_inner str ch s) as (g&Hs1&Hg).
    by eapply write_count_after.
  - unfold glk_put_string_stream.
    destruct (put_text_stream_inner str text s) as (g&Hs1&Hg).
    by eapply write_count_after.
  - unfold glk_put_buffer_stream. rewrite put_buffer_fold.
    destruct (to_screen str s).
    + by eapply (write_count_after id); [|left|].
    + rewrite Hst. cbn [truthy_array].
      by eapply (write_count_after (set_data (data st ++ bf))); [|right|].
  - unfold glk_put_jstring_stream. destruct text as [|c text].
    + cbn. rewrite Hst. cbn. f_equal. unfold str_length. cbn. lia.
    + cbn [truthy_string negb].
      destruct (put_text_stream_inner str (c :: text) s) as (g&Hs1&Hg).
      by eapply write_count_after.
  - repeat split.
    + unfold glk_put_buffer. by rewrite put_buffer_fold.
    + unfold glk_put_char_uni. by destruct (String_fromCodePoint ch).
    + by rewrite put_buffer_uni_state.
    + unfold glk_put_jstring. by destruct (truthy_string text).
Qed.


Lemma get_field_num e idx n s :
  js_array_get (structs s !!! e) idx = Num n → get_field e idx s = Num n.
Proof.
  unfold get_field. intros ->. cbn. destruct (Z.eqb_spec n 0); by subst.
Qed.

Lemma get_field_two_stores r a b s :
  get_field r 0 (set_field r 1 (Num b) (set_field r 0 (Num a) s)) = Num a
  ∧ get_field r 1 (set_field r 1 (Num b) (set_field r 0 (Num a) s)) = Num b.
Proof.
  split; apply get_field_num.
  - rewrite field_set_field_ne by (by right). by apply field_set_field_eq.
  - by apply field_set_field_eq.
Qed.

(** X7. Closing a stream, or a window, with a result structure stores
    the read counter of the stream (of the window's stream) into field 0
    and its write counter into field 1, where [get_field] finds them;
    it removes no stream and no window, and the stream keeps its data,
    cursor and counters. *)
Theorem close_reports_counters_and_removes_nothing (str win r : nat)
    (st : stream) (w : window) (s : glk_state) :
  streams s !! str = Some st →
  windows s !! win = Some w →
  win_str w = str →
  (get_field r 0 (glk_stream_close str (Some r) s) = Num (read_count st)
   ∧ get_field r 1 (glk_stream_close str (Some r) s) = Num (write_count st)
   ∧ streams (glk_stream_close str (Some r) s) = streams s
   ∧ windows (glk_stream_close str (Some r) s) = windows s)
  ∧ (get_field r 0 (glk_window_close win (Some r) s) = Num (read_count st)
     ∧ get_field r 1 (glk_window_close win (Some r) s)
       = Num (write_count st)
     ∧ streams (glk_window_close win (Some r) s) = streams s
     ∧ windows (glk_window_close win (Some r) s) = windows s).
Proof.
  intros Hst Hw Hstr.
  destruct (get_field_two_stores r (read_count st) (write_count st) s)
    as [H0 H1].
  split.
  - unfold glk_stream_close. rewrite Hst.
    destruct (fref st) as [fr|];
      [destruct (bool_decide _ || bool_decide _)|]; done.
  - unfold glk_window_close. rewrite Hw, Hstr, Hst. done.
Qed.

(** ** The storage *)

Lemma close_saves str result st fr s :
  streams s !! str = Some st → fref st = Some fr →
  fmode st = Some filemode_Write ∨ fmode st = Some filemode_ReadWrite →
  localStorage (glk_stream_close str result s)
  = <[filename fr := JSON_stringify (data st)]> (localStorage s)
  ∧ streams (glk_stream_close str result s) = streams s.
Proof.
  intros Hst Hfr Hfm. unfold glk_stream_close. rewrite Hst, Hfr.
  assert (bool_decide (fmode st = Some filemode_Write)
          || bool_decide (fmode st = Some filemode_ReadWrite) = true)
    as -> by (destruct Hfm as [-> | ->]; done).
  by destruct result.
Qed.

(** X8. [glk_fileref_does_file_exist] answers 0 when the storage holds
    nothing under the name of the file reference, and 1 when it holds a
    text there, the empty text included. So it answers 1 right after a
    file stream opened for writing was closed under the name, and where
    it answers 0 a file stream opened under the name has empty data. *)
Theorem file_exists_after_save :
  (∀ fr s,
     (glk_fileref_does_file_exist fr s = 0
      ↔ localStorage s !! filename fr = None)
     ∧ (glk_fileref_does_file_exist fr s = 1
        ↔ is_Some (localStorage s !! filename fr)))
  ∧ (∀ str result st fr fr' s,
       streams s !! str = Some st → fref st = Some fr →
       fmode st = Some filemode_Write ∨ fmode st = Some filemode_ReadWrite →
       filename fr' = filename fr →
       glk_fileref_does_file_exist fr' (glk_stream_close str result s) = 1)
  ∧ (∀ fr fm rk s,
       glk_fileref_does_file_exist fr s = 0 →
       let o := glk_stream_open_file fr fm rk s in
       opened_value o = None
       ∧ ∃ st', streams (opened_state o) !! opened_stream o = Some st'
                ∧ data st' = []).
Proof.
  split; [|split].
  - intros fr s. unfold glk_fileref_does_file_exist.
    destruct (localStorage s !! filename fr) as [saved|].
    + split; [split; done|split; [by eexists|done]].
    + split; [split; done|split; [done|by intros [? [=]]]].
  - intros str result st fr fr' s Hst Hfr Hfm Hname.
    destruct (close_saves str result st fr s Hst Hfr Hfm) as [Hls _].
    unfold glk_fileref_does_file_exist.
    by rewrite Hls, Hname, lookup_insert_eq.
  - intros fr fm rk s. unfold glk_fileref_does_file_exist.
    destruct (localStorage s !! filename fr) as [saved|] eqn:Hk; [done|].
    intros _. cbv zeta. set (o := glk_stream_open_file fr fm rk s).
    assert (loaded_value fr fm s = number_json []) as Hv.
    { unfold loaded_value. rewrite Hk. by destruct (_ || _). }
    destruct (glk_stream_open_file_data JSON_parse fr fm rk s) as (_&_&Hval).
    destruct (glk_stream_open_file_lookup JSON_parse fr fm rk s)
      as (st'&Hst'&_&_&_&_&Hdata).
    fold o in Hval, Hst'. rewrite Hv in Hval, Hdata.
    split; [done|]. by exists st'.
Qed.

(** X9. All file references made by [glk_fileref_create_by_prompt] name
    the one slot "zork1-save", whatever their arguments, and a save
    replaces the one before it: after two file streams bound to such
    references were closed, a stream opened for reading through a third
    one holds the data of the stream closed last. *)
Theorem last_prompted_save_wins (str1 str2 : nat) (st1 st2 : stream)
    (u1 m1 r1 u2 m2 r2 u3 m3 r3 rk : Z) (res1 res2 : option nat)
    (s : glk_state) :
  streams s !! str1 = Some st1 → streams s !! str2 = Some st2 →
  fref st1 = Some (glk_fileref_create_by_prompt u1 m1 r1) →
  fref st2 = Some (glk_fileref_create_by_prompt u2 m2 r2) →
  fmode st1 = Some filemode_Write ∨ fmode st1 = Some filemode_ReadWrite →
  fmode st2 = Some filemode_Write ∨ fmode st2 = Some filemode_ReadWrite →
  JSON_parse (JSON_stringify (data st2)) = Some (number_json (data st2)) →
  let o :=
    glk_stream_open_file (glk_fileref_create_by_prompt u3 m3 r3)
      filemode_Read rk
      (glk_stream_close str2 res2 (glk_stream_close str1 res1 s)) in
  opened_value o = None
  ∧ ∃ st', streams (opened_state o) !! opened_stream o = Some st'
           ∧ data st' = data st2.
Proof.
  intros Hst1 Hst2 Hfr1 Hfr2 Hfm1 Hfm2 Hparse o.
  destruct (close_saves str1 res1 st1 _ s Hst1 Hfr1 Hfm1) as [Hls1 Hstr1].
  rewrite <- Hstr1 in Hst2.
  destruct (close_saves str2 res2 st2 _ _ Hst2 Hfr2 Hfm2) as [Hls2 _].
  assert (loaded_value (glk_fileref_create_by_prompt u3 m3 r3) filemode_Read
            (glk_stream_close str2 res2 (glk_stream_close str1 res1 s))
          = number_json (data st2)) as Hv.
  { unfold loaded_value. rewrite Hls2.
    cbn [filename glk_fileref_create_by_prompt orb Z.eqb filemode_Read
         Pos.eqb].
    rewrite lookup_insert_eq. by rewrite JSON_stringify_truthy, Hparse. }
  destruct (glk_stream_open_file_data JSON_parse
              (glk_fileref_create_by_prompt u3 m3 r3) filemode_Read rk
              (glk_stream_close str2 res2 (glk_stream_close str1 res1 s)))
    as (_&_&Hval).
  destruct (glk_stream_open_file_lookup JSON_parse
              (glk_fileref_create_by_prompt u3 m3 r3) filemode_Read rk
              (glk_stream_close str2 res2 (glk_stream_close str1 res1 s)))
    as (st'&Hst'&_&_&_&_&Hdata).
  fold o in Hval, Hst'. rewrite Hv, number_array_number_json in Hval, Hdata.
  split; [done|]. by exists st'.
Qed.

(** ** Reading in bulk *)

Lemma has_more_sequence st :
  buf st = None →
  has_more st = (pos st <? Z.of_nat (length (data st))).
Proof. unfold has_more. by intros ->. Qed.

Lemma data_get_lookup d p :
  0 ≤ p < Z.of_nat (length d) →
  ∃ x, d !! Z.to_nat p = Some x ∧ data_get d p = Num x.
Proof.
  intros Hp. unfold data_get. destruct (Z.ltb_spec p 0); [lia|].
  destruct (lookup_lt_is_Some_2 d (Z.to_nat p)) as [x Hx]; [lia|].
  exists x. by rewrite Hx.
Qed.

Lemma get_buffer_loop_reads str b (m : nat) :
  ∀ k count s st,
    streams s !! str = Some st → buf st = None → 0 ≤ pos st → 0 ≤ k →
    (∀ i, pos st ≤ Z.of_nat i → data st !! i ≠ Some (-1)) →
    let n := Z.min (Z.of_nat m)
               (Z.max 0 (Z.of_nat (length (data st)) - pos st)) in
    let r := get_buffer_loop str b (seqZ k (Z.of_nat m)) count s in
    r.1 = count + n
    ∧ (∃ st', streams r.2 !! str = Some st' ∧ advanced_by n st st')
    ∧ (∀ j, js_array_get (arrays r.2 !!! b) j
            = if decide (k ≤ j < k + n)
              then data_get (data st) (pos st + (j - k))
              else js_array_get (arrays s !!! b) j).
Proof.
  induction m as [|m IH]; intros k count s st Hst Hb Hpos Hk Hdata n r.
  - subst n r. change (Z.of_nat 0) with 0. rewrite seqZ_nil by lia.
    replace (0 `min` _) with 0 by lia. cbn [get_buffer_loop fst snd].
    split; [lia|]. split; [exists st; split; [done|apply advanced_by_0]|].
    intros j. by rewrite decide_False by lia.
  - subst r. rewrite seqZ_cons by lia. cbn [get_buffer_loop].
    pose proof (glk_get_char_stream_spec str st s Hst) as Hread.
    rewrite has_more_sequence in Hread by done.
    destruct (Z.ltb_spec (pos st) (Z.of_nat (length (data st))))
      as [Hlt|Hge].
    + rewrite Hread. unfold unit_at_cursor. rewrite Hb.
      destruct (data_get_lookup (data st) (pos st)) as (x&Hx&Hget); [lia|].
      rewrite Hget.
      assert (x ≠ -1) as Hx1.
      { intros ->. apply (Hdata (Z.to_nat (pos st))); [lia|done]. }
      rewrite bool_decide_false by congruence.
      set (s2 := array_store b k (Num x) (update_stream str advance_read s)).
      replace (Z.pred (Z.of_nat (S m))) with (Z.of_nat m) by lia.
      destruct (IH (Z.succ k) (count + 1) s2 (advance_read st))
        as (Hcount&(st'&Hst'&Hadv)&Hcells).
      { unfold s2. rewrite streams_array_store, streams_update_stream_eq, Hst.
        done. }
      { done. }
      { cbn. lia. }
      { lia. }
      { intros i Hi. apply Hdata. cbn in Hi. lia. }
      cbn [advance_read set_pos set_read_count pos data] in Hcount, Hadv,
        Hcells.
      subst n. split; [|split].
      * rewrite Hcount. lia.
      * exists st'. split; [done|].
        destruct Hadv as (Hp&Hr&?&?&?&?). unfold advanced_by.
        cbn in Hp, Hr. repeat split; try done; lia.
      * intros j. rewrite Hcells. unfold s2.
        destruct (decide (Z.succ k ≤ j < _)) as [Hj|Hj].
        -- rewrite decide_True by lia. f_equal. lia.
        -- destruct (decide (j = k)) as [->|Hjk].
           ++ rewrite decide_True by lia.
              rewrite cell_array_store_eq by done.
              replace (pos st + (k - k)) with (pos st) by lia. done.
           ++ rewrite decide_False by lia.
              by rewrite cell_array_store_ne by (by right).
    + rewrite Hread. rewrite bool_decide_true by done. subst n.
      replace (_ `min` _) with 0 by lia. cbn [fst snd].
      split; [lia|]. split; [exists st; split; [done|apply advanced_by_0]|].
      intros j. by rewrite decide_False by lia.
Qed.

Lemma glk_get_buffer_stream_reads (str b : nat) (len : Z) (st : stream)
    (s : glk_state) :
  streams s !! str = Some st → buf st = None → 0 ≤ pos st →
  (∀ i, pos st ≤ Z.of_nat i → data st !! i ≠ Some (-1)) →
  let n := Z.max 0 (Z.min (len_or_length len b s)
                      (Z.of_nat (length (data st)) - pos st)) in
  let r := glk_get_buffer_stream str b len s in
  r.1 = n
  ∧ (∃ st', streams r.2 !! str = Some st' ∧ advanced_by n st st')
  ∧ (∀ j, js_array_get (arrays r.2 !!! b) j
          = if decide (0 ≤ j < n) then data_get (data st) (pos st + j)
            else js_array_get (arrays s !!! b) j).
Proof.
  intros Hst Hb Hpos Hdata n r. subst r. unfold glk_get_buffer_stream.
  destruct (Z.le_gt_cases 0 (len_or_length len b s)) as [Hm|Hm].
  - pose proof (get_buffer_loop_reads str b
                  (Z.to_nat (len_or_length len b s)) 0 0 s st Hst Hb Hpos
                  (Z.le_refl 0) Hdata) as Hloop.
    rewrite Z2Nat.id in Hloop by done. cbn zeta in Hloop.
    replace (Z.min _ (Z.max 0 _)) with n in Hloop by lia.
    destruct Hloop as (Hc&Hs&Hcells). split; [lia|]. split; [done|].
    intros j. rewrite Hcells.
    destruct (decide (0 ≤ j < 0 + n)); [rewrite decide_True by lia|
                                         rewrite decide_False by lia];
      [f_equal; lia|done].
  - rewrite seqZ_nil by lia. cbn. replace n with 0 by lia.
    split; [done|]. split; [exists st; split; [done|apply advanced_by_0]|].
    intros j. by rewrite decide_False by lia.
Qed.


(** X10. A bulk read from a stream without a bound array, whose cursor
    is not negative and whose data holds no -1 from the cursor on, reads
    as many units as are asked for or are left, whichever is less,
    stores them into the target array at indices 0, 1, ... in the order
    of the data, leaves the other cells of the array as they were,
    returns their number, and advances the cursor and the read counter
    by it. *)
Theorem bulk_read_takes_what_is_left (str b : nat) (len : Z) (st : stream)
    (s : glk_state) :
  streams s !! str = Some st → buf st = None → 0 ≤ pos st →
  (∀ i, pos st ≤ Z.of_nat i → data st !! i ≠ Some (-1)) →
  let n := Z.max 0 (Z.min (len_or_length len b s)
                      (Z.of_nat (length (data st)) - pos st)) in
  let r := glk_get_buffer_stream str b len s in
  r.1 = n
  ∧ (∃ st', streams r.2 !! str = Some st' ∧ advanced_by n st st')
  ∧ (∀ j, js_array_get (arrays r.2 !!! b) j
          = if decide (0 ≤ j < n) then data_get (data st) (pos st + j)
            else js_array_get (arrays s !!! b) j).
Proof. apply glk_get_buffer_stream_reads. Qed.

Lemma data_get_app_r (d1 d2 : list Z) (j : nat) x :
  d2 !! j = Some x →
  data_get (d1 ++ d2) (Z.of_nat (length d1) + Z.of_nat j) = Num x.
Proof.
  intros Hx. unfold data_get.
  destruct (Z.ltb_spec (Z.of_nat (length d1) + Z.of_nat j) 0); [lia|].
  replace (Z.to_nat (Z.of_nat (length d1) + Z.of_nat j))
    with (length d1 + j)%nat by lia.
  rewrite lookup_app_r by lia.
  replace (length d1 + j - length d1)%nat with j by lia. by rewrite Hx.
Qed.

(** X11. Writing to a stream without a bound array does not move its
    cursor, so what was written to a stream whose cursor stood at the
    end of its data (a file stream just opened for writing, say) can be
    read back at once, without a seek: a bulk read of as many units as
    were written returns them all, in order. *)
Theorem written_units_are_read_back (str b : nat) (D : list Z) (st : stream)
    (s : glk_state) :
  streams s !! str = Some st → buf st = None → to_screen str s = false →
  pos st = Z.of_nat (length (data st)) →
  D ≠ [] → Forall (λ x, x ≠ -1) D →
  let r :=
    glk_get_buffer_stream str b (Z.of_nat (length D))
      (glk_put_buffer_stream str D s) in
  r.1 = Z.of_nat (length D)
  ∧ (∀ i x, D !! i = Some x →
            js_array_get (arrays r.2 !!! b) (Z.of_nat i) = Num x)
  ∧ (pos <$> streams r.2 !! str)
    = Some (Z.of_nat (length (data st)) + Z.of_nat (length D)).
Proof.
  intros Hst Hb Hscr Hpos HD Hno r. subst r.
  set (s1 := glk_put_buffer_stream str D s).
  assert (streams s1 !! str
          = Some (set_write_count (write_count st + Z.of_nat (length D))
                    (set_data (data st ++ D) st))) as Hst1.
  { unfold s1, glk_put_buffer_stream. rewrite Hscr, Hst. cbn.
    rewrite !list_lookup_alter_eq, Hst. done. }
  assert (len_or_length (Z.of_nat (length D)) b s1 = Z.of_nat (length D))
    as Hlen.
  { unfold len_or_length. destruct D; [done|].
    destruct (Z.eqb_spec (Z.of_nat (length (z :: D))) 0) as [H0|]; [|done].
    cbn in H0. lia. }
  destruct (glk_get_buffer_stream_reads str b (Z.of_nat (length D)) _ s1 Hst1)
    as (Hcount&(st'&Hst'&Hadv)&Hcells).
  { done. }
  { cbn. lia. }
  { cbn. intros i Hi Hx. rewrite Hpos in Hi.
    rewrite lookup_app_r in Hx by lia.
    rewrite Forall_forall in Hno.
    apply list_elem_of_lookup_2 in Hx. by apply (Hno (-1)) in Hx. }
  rewrite Hlen in Hcount, Hadv, Hcells.
  cbn [set_write_count set_data data pos] in Hcount, Hadv, Hcells.
  rewrite length_app in Hcount, Hadv, Hcells.
  replace (Z.max 0 _) with (Z.of_nat (length D)) in Hcount, Hadv, Hcells
    by lia.
  split; [done|]. split.
  - intros i x Hx. rewrite Hcells. apply lookup_lt_Some in Hx as Hi.
    rewrite decide_True by lia. rewrite Hpos. by apply data_get_app_r.
  - rewrite Hst'. cbn. f_equal. destruct Hadv as (->&_). cbn. lia.
Qed.

Lemma get_buffer_loop_bound str b idxs count s :
  count ≤ (get_buffer_loop str b idxs count s).1
  ≤ count + Z.of_nat (length idxs).
Proof.
  revert count s. induction idxs as [|i idxs IH]; intros count s; cbn.
  - lia.
  - destruct (glk_get_char_stream str s) as [ch s1].
    case_bool_decide; cbn; [lia|].
    specialize (IH (count + 1) (array_store b i ch s1)). lia.
Qed.

Lemma get_line_loop_bound str b idxs count s :
  count ≤ (get_line_loop str b idxs count s).1
  ≤ count + Z.of_nat (length idxs).
Proof.
  revert count s. induction idxs as [|i idxs IH]; intros count s; cbn.
  - lia.
  - destruct (glk_get_char_stream str s) as [ch s1].
    case_bool_decide; cbn; [lia|]. case_bool_decide; cbn; [lia|].
    specialize (IH (count + 1) (array_store b i ch s1)). lia.
Qed.

(** X12. The bulk read never returns more than the number of units asked
    for (the length of the target array when 0 is asked for), and the
    line read never more than that number less one; neither returns a
    negative count. This holds for every stream and state. *)
Theorem read_counts_are_bounded (str b : nat) (len : Z) (s : glk_state) :
  0 ≤ (glk_get_buffer_stream str b len s).1
    ≤ Z.max 0 (len_or_length len b s)
  ∧ 0 ≤ (glk_get_line_stream str b len s).1
      ≤ Z.max 0 (len_or_length len b s - 1).
Proof.
  unfold glk_get_buffer_stream, glk_get_line_stream. split.
  - pose proof (get_buffer_loop_bound str b
                  (seqZ 0 (len_or_length len b s)) 0 s) as Hb.
    rewrite length_seqZ in Hb. lia.
  - pose proof (get_line_loop_bound str b
                  (seqZ 0 (len_or_length len b s - 1)) 0 s) as Hb.
    rewrite length_seqZ in Hb. lia.
Qed.


Lemma drop_cons_inv {A} (l : list A) (n : nat) x t :
  drop n l = x :: t → l !! n = Some x ∧ drop (S n) l = t.
Proof.
  intros Hd.
  assert (l !! n = Some x) as Hx.
  { rewrite <- (Nat.add_0_r n), <- lookup_drop, Hd. done. }
  split; [done|]. rewrite (drop_S _ _ _ Hx) in Hd. by injection Hd.
Qed.

Lemma get_line_loop_line str b (line : list Z) :
  ∀ k count s st (m : nat) rest,
    streams s !! str = Some st → buf st = None → 0 ≤ pos st → 0 ≤ k →
    drop (Z.to_nat (pos st)) (data st) = line ++ 10 :: rest →
    Forall (λ x, x ≠ 10 ∧ x ≠ -1) line →
    (length line < m)%nat →
    let n := Z.of_nat (length line) + 1 in
    let r := get_line_loop str b (seqZ k (Z.of_nat m)) count s in
    r.1 = count + n
    ∧ (∃ st', streams r.2 !! str = Some st' ∧ advanced_by n st st')
    ∧ (∀ j, js_array_get (arrays r.2 !!! b) j
            = if decide (k ≤ j < k + n)
              then data_get (data st) (pos st + (j - k))
              else js_array_get (arrays s !!! b) j).
Proof.
  induction line as [|x line IH];
    intros k count s st m rest Hst Hb Hpos Hk Hdrop Hline Hm n r;
    subst r; rewrite seqZ_cons by lia; cbn [get_line_loop];
    pose proof (glk_get_char_stream_spec str st s Hst) as Hread;
    rewrite has_more_sequence in Hread by done;
    apply drop_cons_inv in Hdrop as [Hx Hdrop];
    apply lookup_lt_Some in Hx as Hlt;
    (destruct (Z.ltb_spec (pos st) (Z.of_nat (length (data st))));
     [|lia]);
    rewrite Hread; unfold unit_at_cursor; rewrite Hb;
    (destruct (data_get_lookup (data st) (pos st)) as (y&Hy&Hget); [lia|]);
    rewrite Hget; simplify_eq.
  - rewrite bool_decide_false by done. rewrite bool_decide_true by done.
    subst n. cbn [fst snd length]. split; [lia|]. split.
    + exists (advance_read st).
      rewrite streams_array_store, streams_update_stream_eq, Hst.
      split; [done|]. apply (advanced_by_read 0), advanced_by_0.
    + intros j. destruct (decide (j = k)) as [->|Hjk].
      * rewrite decide_True by lia. rewrite cell_array_store_eq by done.
        rewrite <- Hget. f_equal. lia.
      * rewrite decide_False by lia.
        by rewrite cell_array_store_ne by (by right).
  - apply Forall_cons in Hline as [[Hx10 Hx1] Hline].
    rewrite !bool_decide_false by congruence.
    set (s2 := array_store b k (Num x) (update_stream str advance_read s)).
    destruct m as [|m]; [cbn in Hm; lia|].
    replace (Z.pred (Z.of_nat (S m))) with (Z.of_nat m) by lia.
    destruct (IH (Z.succ k) (count + 1) s2 (advance_read st) m rest)
      as (Hcount&(st'&Hst'&Hadv)&Hcells).
    { unfold s2. rewrite streams_array_store, streams_update_stream_eq, Hst.
      done. }
    { done. }
    { cbn. lia. }
    { lia. }
    { cbn [advance_read set_pos set_read_count pos data].
      replace (Z.to_nat (pos st + 1)) with (S (Z.to_nat (pos st))) by lia.
      done. }
    { done. }
    { cbn in Hm. lia. }
    cbn [advance_read set_pos set_read_count pos data] in Hcount, Hadv,
      Hcells.
    subst n. cbn [length]. split; [|split].
    + rewrite Hcount. lia.
    + exists st'. split; [done|].
      destruct Hadv as (Hp&Hr&?&?&?&?). unfold advanced_by.
      cbn in Hp, Hr. repeat split; try done; lia.
    + intros j. rewrite Hcells. unfold s2.
      destruct (decide (Z.succ k ≤ j < _)) as [Hj|Hj].
      * rewrite decide_True by lia. f_equal. lia.
      * destruct (decide (j = k)) as [->|Hjk].
        -- rewrite decide_True by lia.
           rewrite cell_array_store_eq by done.
           rewrite <- Hget. f_equal. lia.
        -- rewrite decide_False by lia.
           by rewrite cell_array_store_ne by (by right).
Qed.

(** X13. A line read stops after the first newline: from a stream without
    a bound array whose data, from the cursor on, is a line free of
    newline and -1 followed by a newline, with room asked for the line,
    the newline and one more unit, it stores the line and its newline
    into the target array from index 0, returns their number, and leaves
    the cursor right behind the newline. *)
Theorem line_read_stops_after_newline (str b : nat) (len : Z)
    (line rest : list Z) (st : stream) (s : glk_state) :
  streams s !! str = Some st → buf st = None → 0 ≤ pos st →
  drop (Z.to_nat (pos st)) (data st) = line ++ 10 :: rest →
  Forall (λ x, x ≠ 10 ∧ x ≠ -1) line →
  Z.of_nat (length line) + 1 < len_or_length len b s →
  let n := Z.of_nat (length line) + 1 in
  let r := glk_get_line_stream str b len s in
  r.1 = n
  ∧ (∃ st', streams r.2 !! str = Some st' ∧ advanced_by n st st')
  ∧ (∀ i x, (line ++ [10]) !! i = Some x →
            js_array_get (arrays r.2 !!! b) (Z.of_nat i) = Num x).
Proof.
  intros Hst Hb Hpos Hdrop Hline Hlen n r. subst r.
  unfold glk_get_line_stream.
  pose proof (get_line_loop_line str b line 0 0 s st
                (Z.to_nat (len_or_length len b s - 1)) rest Hst Hb Hpos
                (Z.le_refl 0) Hdrop Hline) as Hloop.
  rewrite Z2Nat.id in Hloop by lia.
  destruct Hloop as (Hc&Hs&Hcells); [lia|].
  split; [by rewrite Hc|]. split; [done|].
  intros i x Hx. rewrite Hcells. apply lookup_lt_Some in Hx as Hi.
  rewrite length_app in Hi. cbn in Hi.
  rewrite decide_True by (subst n; lia).
  assert (data st !! (Z.to_nat (pos st) + i)%nat = Some x) as Hd.
  { rewrite <- lookup_drop, Hdrop.
    rewrite (app_assoc line [10] rest : line ++ 10 :: rest = _).
    by rewrite lookup_app_l by (rewrite length_app; cbn; lia). }
  unfold data_get. destruct (Z.ltb_spec (pos st + (Z.of_nat i - 0)) 0); [lia|].
  replace (Z.to_nat (pos st + (Z.of_nat i - 0)))
    with (Z.to_nat (pos st) + i)%nat by lia.
  by rewrite Hd.
Qed.


(** ** Seeking *)

Lemma read_after_set_pos str st t s :
  streams s !! str = Some st → buf st = None →
  (glk_get_char_stream str (update_stream str (set_pos t) s)).1
  = if t <? Z.of_nat (length (data st)) then data_get (data st) t
    else Num (-1).
Proof.
  intros Hst Hb.
  pose proof (glk_get_char_stream_spec str (set_pos t st)
                (update_stream str (set_pos t) s)) as Hread.
  rewrite streams_update_stream_eq, Hst in Hread. specialize (Hread eq_refl).
  rewrite has_more_sequence in Hread by done. cbn [set_pos pos data] in Hread.
  destruct (t <? Z.of_nat (length (data st))); rewrite Hread; [|done].
  unfold unit_at_cursor. cbn. by rewrite Hb.
Qed.

(** X14. Seek and read compose to random access on a stream without a
    bound array: after a seek to a target (the offset itself, the cursor
    plus the offset, or the length of the data plus the offset), a read
    returns the unit of the data at the target when the target is below
    the length of the data, and -1 otherwise; a seek to the end followed
    by a read always gives -1 and a seek to the start gives the first
    unit. *)
Theorem seek_then_read (str : nat) (p : Z) (st : stream) (s : glk_state) :
  streams s !! str = Some st → buf st = None →
  let after mode :=
    (glk_get_char_stream str (glk_stream_set_position str p mode s)).1 in
  let at_target t :=
    if t <? Z.of_nat (length (data st)) then data_get (data st) t
    else Num (-1) in
  after seekmode_Start = at_target p
  ∧ after seekmode_Current = at_target (pos st + p)
  ∧ after seekmode_End = at_target (Z.of_nat (length (data st)) + p).
Proof.
  intros Hst Hb after at_target. subst after at_target. cbn beta.
  unfold glk_stream_set_position. cbn [Z.eqb seekmode_Start seekmode_Current
    seekmode_End Pos.eqb truthy_array].
  split; [by apply read_after_set_pos|].
  assert (∀ (f : stream → Z),
            update_stream str (λ x, set_pos (f x) x) s
            = update_stream str (set_pos (f st)) s) as Hf.
  { intros f. unfold update_stream. f_equal.
    apply list_eq. intros i. rewrite !list_lookup_alter.
    destruct (decide (str = i)) as [<-|]; [|done]. by rewrite Hst. }
  split.
  - rewrite (Hf (λ x, pos x + p)). by apply read_after_set_pos.
  - rewrite (Hf (λ x, Z.of_nat (length (data x)) + p)).
    by apply read_after_set_pos.
Qed.

(** ** Streams bound to an array *)

Lemma put_char_stream_frame str ch s :
  currentStream (glk_put_char_stream str ch s) = currentStream s
  ∧ length (streams (glk_put_char_stream str ch s)) = length (streams s).
Proof.
  unfold glk_put_char_stream. split.
  - repeat case_match; done.
  - cbn. rewrite length_alter. repeat case_match; cbn;
      rewrite ?length_alter; done.
Qed.

Lemma put_chars_memory str b (cs : list Z) :
  ∀ s st,
    streams s !! str = Some st → buf st = Some b →
    to_screen str s = false → 0 ≤ pos st →
    let n := Z.max 0 (Z.min (Z.of_nat (length cs)) (buflen st - pos st)) in
    let s' := put_chars str cs s in
    (∃ st', streams s' !! str = Some st'
            ∧ pos st' = pos st + n
            ∧ write_count st' = write_count st + Z.of_nat (length cs)
            ∧ read_count st' = read_count st
            ∧ data st' = data st ∧ buf st' = Some b
            ∧ buflen st' = buflen st)
    ∧ (∀ j, js_array_get (arrays s' !!! b) j
            = if decide (pos st ≤ j < pos st + n)
              then from_option Num Undefined (cs !! Z.to_nat (j - pos st))
              else js_array_get (arrays s !!! b) j)
    ∧ (buflen st ≤ capacity b s → capacity b s' = capacity b s).
Proof.
  induction cs as [|c cs IH]; intros s st Hst Hb Hscr Hpos n s'.
  - subst n s'. cbn [length put_chars foldl].
    replace (Z.max 0 _) with 0 by lia.
    split; [exists st; repeat split; try done; lia|].
    split; [|done]. intros j. by rewrite decide_False by lia.
  - subst s'. unfold put_chars. cbn [foldl].
    fold (put_chars str cs (glk_put_char_stream str c s)).
    pose proof (put_char_to_memory_stream str st b c s Hst Hb Hscr) as Hput.
    cbn zeta in Hput.
    destruct (put_char_stream_frame str c s) as [Hcur _].
    assert (to_screen str (glk_put_char_stream str c s) = false) as Hscr'
      by (unfold to_screen in *; by rewrite Hcur).
    destruct (Z.ltb_spec (pos st) (buflen st)) as [Hlt|Hge];
      destruct Hput as [Harr Hstr].
    + destruct (IH _ _ Hstr Hb Hscr') as ((st'&Hst'&Hp&Hw&Hr&Hd&Hbf&Hbl)
                                          &Hcells&Hcap); [cbn; lia|].
      cbn [set_write_count set_pos pos write_count read_count data buf
             buflen] in *.
      subst n. cbn [length]. split; [|split].
      * exists st'. repeat split; try done; lia.
      * intros j. rewrite Hcells, Harr, lookup_total_insert_eq.
        destruct (decide (pos st + 1 ≤ j < _)) as [Hj|Hj].
        -- rewrite decide_True by lia.
           replace (Z.to_nat (j - pos st))
             with (S (Z.to_nat (j - (pos st + 1)))) by lia. done.
        -- destruct (decide (j = pos st)) as [->|Hjp].
           ++ rewrite decide_True by lia.
              rewrite js_array_get_set_eq by done.
              by replace (Z.to_nat (pos st - pos st)) with 0%nat by lia.
           ++ rewrite decide_False by lia.
              by rewrite js_array_get_set_ne.
      * intros Hc. rewrite Hcap.
        -- unfold capacity. rewrite Harr, lookup_total_insert_eq.
           rewrite js_array_set_length; [done|]. unfold capacity in Hc. lia.
        -- unfold capacity in *. rewrite Harr, lookup_total_insert_eq.
           rewrite js_array_set_length; [done|lia].
    + destruct (IH _ _ Hstr Hb Hscr') as ((st'&Hst'&Hp&Hw&Hr&Hd&Hbf&Hbl)
                                          &Hcells&Hcap); [cbn; lia|].
      cbn [set_write_count set_pos pos write_count read_count data buf
             buflen] in *.
      subst n. cbn [length].
      replace (Z.max 0 _) with 0 in Hp, Hcells by lia.
      replace (Z.max 0 _) with 0 by lia.
      split; [|split].
      * exists st'. repeat split; try done; lia.
      * intros j. rewrite Hcells, Harr. rewrite !decide_False by lia. done.
      * intros Hc. rewrite Hcap; unfold capacity in *; rewrite Harr; done.
Qed.


(** X15. Units written one by one to a stream bound to an array (and not
    the selected one) fill the array from the cursor up to the capacity
    given at opening and no further: the array holds the units that fit,
    in order, the cursor has advanced by their number, the remaining
    units are dropped, the write counter has counted them all, and the
    array has not grown (when the capacity given is not above its
    length). *)
Theorem memory_stream_keeps_what_fits (str b : nat) (cs : list Z)
    (st : stream) (s : glk_state) :
  streams s !! str = Some st → buf st = Some b →
  to_screen str s = false → 0 ≤ pos st →
  let n := Z.max 0 (Z.min (Z.of_nat (length cs)) (buflen st - pos st)) in
  let s' := put_chars str cs s in
  (∃ st', streams s' !! str = Some st'
          ∧ pos st' = pos st + n
          ∧ write_count st' = write_count st + Z.of_nat (length cs)
          ∧ read_count st' = read_count st
          ∧ data st' = data st ∧ buf st' = Some b
          ∧ buflen st' = buflen st)
  ∧ (∀ j, js_array_get (arrays s' !!! b) j
          = if decide (pos st ≤ j < pos st + n)
            then from_option Num Undefined (cs !! Z.to_nat (j - pos st))
            else js_array_get (arrays s !!! b) j)
  ∧ (buflen st ≤ capacity b s → capacity b s' = capacity b s).
Proof. apply put_chars_memory. Qed.

(** X16. A unit written to a stream bound to an array, at a cursor below
    the capacity, is read back from there: after the write and a seek
    back to where the cursor stood, a read returns the unit and advances
    the cursor behind it. This holds at a negative cursor too, where the
    unit is kept as a property of the array. *)
Theorem memory_stream_reads_back (str b : nat) (ch : Z) (st : stream)
    (s : glk_state) :
  streams s !! str = Some st → buf st = Some b →
  to_screen str s = false → pos st < buflen st →
  let s1 := glk_put_char_stream str ch s in
  let s2 := glk_stream_set_position str (pos st) seekmode_Start s1 in
  (glk_get_char_stream str s2).1 = Num ch
  ∧ (pos <$> streams (glk_get_char_stream str s2).2 !! str)
    = Some (pos st + 1).
Proof.
  intros Hst Hb Hscr Hpos s1 s2.
  pose proof (put_char_to_memory_stream str st b ch s Hst Hb Hscr) as Hput.
  cbn zeta in Hput. fold s1 in Hput.
  assert (array_get b (pos st) s2
          = array_get b (pos st) (array_store b (pos st) (Num ch) s))
    as Hget.
  { unfold s2, s1, glk_stream_set_position, glk_put_char_stream.
    rewrite Hscr, Hst, Hb.
    by destruct (Z.ltb_spec (pos st) (buflen st)); [|lia]. }
  destruct (Z.ltb_spec (pos st) (buflen st)) as [_|]; [|lia].
  destruct Hput as [_ Hst1].
  set (st2 := set_pos (pos st)
                (set_write_count (write_count st + 1)
                   (set_pos (pos st + 1) st))).
  assert (streams s2 !! str = Some st2) as Hst2.
  { unfold s2, glk_stream_set_position.
    cbn [Z.eqb seekmode_Start]. rewrite streams_update_stream_eq, Hst1.
    done. }
  pose proof (glk_get_char_stream_spec str st2 s2 Hst2) as Hread.
  assert (has_more st2 = true) as Hmore.
  { unfold has_more, st2. cbn. rewrite Hb.
    rewrite bool_decide_true by done.
    destruct (Z.ltb_spec (pos st) (buflen st)); [done|lia]. }
  rewrite Hmore in Hread. rewrite Hread. cbn [fst snd]. split.
  - unfold unit_at_cursor. change (buf st2) with (buf st).
    change (pos st2) with (pos st). change (buflen st2) with (buflen st).
    rewrite Hb. destruct (Z.ltb_spec (pos st) (buflen st)); [|lia].
    rewrite Hget. apply array_get_array_store.
  - rewrite streams_update_stream_eq, Hst2. done.
Qed.

(** ** The input bridge, further *)

Lemma foldl_array_store_length (f : Z → jsval) b l s :
  (∀ i, i ∈ l → 0 ≤ i < capacity b s) →
  capacity b (foldl (λ s' i, array_store b i (f i) s') s l) = capacity b s.
Proof.
  revert s. induction l as [|i l IH]; intros s Hl; cbn [foldl]; [done|].
  assert (capacity b (array_store b i (f i) s) = capacity b s) as Hc.
  { unfold capacity, array_store. cbn [arrays set_arrays].
    rewrite lookup_total_insert_eq. rewrite js_array_set_length; [done|].
    apply Hl. by left. }
  rewrite IH; [done|]. intros j Hj. rewrite Hc. apply Hl. by right.
Qed.

Lemma arrays_line_input_callback input b s :
  is_pending (inputState s) = true → is_buffer (inputState s) = Some b →
  arrays (line_input_callback input s)
  = arrays (copy_input b input
              (Z.min (str_length input) (is_maxLen (inputState s))) s).
Proof.
  intros Hp Hb. unfold line_input_callback. rewrite Hb, Hp. cbn zeta.
  by destruct (is_event _).
Qed.

(** X17. A delivered line longer than the maximum of the pending request
    is cut to the maximum: only its first [maxLen] character codes are
    stored, the length the captured event structure gets is [maxLen],
    and, the maximum being at most the length of the buffer, the buffer
    keeps its length and nothing is stored past its end. *)
Theorem long_input_is_truncated (input : jstring) (b : nat) (s : glk_state) :
  is_pending (inputState s) = true →
  is_buffer (inputState s) = Some b →
  0 ≤ is_maxLen (inputState s) ≤ capacity b s →
  is_maxLen (inputState s) < str_length input →
  let max := is_maxLen (inputState s) in
  let s' := line_input_callback input s in
  capacity b s' = capacity b s
  ∧ (∀ j, js_array_get (arrays s' !!! b) j
          = if decide (0 ≤ j < max) then charCodeAt input j
            else js_array_get (arrays s !!! b) j)
  ∧ (∀ e, is_event (inputState s) = Some e →
          js_array_get (structs s' !!! e) 2 = Num max)
  ∧ is_pending (inputState s') = false.
Proof.
  intros Hp Hb Hmax Hlong max s'. subst max s'.
  destruct (line_input_callback_pending input b s Hp Hb)
    as (_&Hcells&_&Hfield&Hst&_).
  rewrite Z.min_r in Hcells, Hfield by lia.
  split; [|split; [done|split; [done|by rewrite Hst]]].
  unfold capacity. rewrite (arrays_line_input_callback input b s Hp Hb).
  rewrite Z.min_r by lia.
  apply foldl_array_store_length. intros i Hi.
  apply elem_of_seqZ in Hi. lia.
Qed.

(** X18. A resolver is called once: after [handleCommand] has delivered
    a line, a second [handleCommand] without a new line request finds no
    resolver and changes nothing. *)
Theorem second_delivery_changes_nothing (t1 t2 : jstring) (s : glk_state) :
  inputResolver (handleCommand t1 s) = None
  ∧ handleCommand t2 (handleCommand t1 s) = handleCommand t1 s.
Proof.
  assert (inputResolver (handleCommand t1 s) = None) as Hr.
  { unfold handleCommand.
    destruct (inputResolver s) as [[]|] eqn:Hres; [|done].
    cbn [run_callback]. set (s0 := set_inputResolver None s).
    destruct (is_buffer (inputState s0)) as [b|] eqn:Hb;
      [destruct (is_pending (inputState s0)) eqn:Hp|].
    - by destruct (line_input_callback_pending t1 b s0 Hp Hb)
        as (_&_&_&_&_&->).
    - by rewrite line_input_callback_idle by by left.
    - by rewrite line_input_callback_idle by by right. }
  split; [done|]. unfold handleCommand at 1. by rewrite Hr.
Qed.


(** ** Characters and code points *)

Lemma String_fromCodePoint_valid cp :
  valid_code_point cp ↔ is_Some (String_fromCodePoint cp).
Proof.
  unfold valid_code_point, String_fromCodePoint.
  destruct (Z.ltb_spec cp 0), (Z.ltb_spec 0x10FFFF cp); cbn [orb].
  - split; [lia|by intros [? ?]].
  - split; [lia|by intros [? ?]].
  - split; [lia|by intros [? ?]].
  - split; [|lia]. intros _. by destruct (cp <=? 0xFFFF).
Qed.

(** X19. [glk_put_char_uni] writes a code point in UTF-16: one unit, the
    code point itself, up to 0xFFFF (where it agrees with
    [glk_put_char]), a high and a low surrogate that encode it above,
    and it throws outside 0..0x10FFFF without writing. The stream form
    [glk_put_char_stream_uni] is [glk_put_char_stream] with the code
    point for the character: to a stream on the screen it writes one
    unit, the code point modulo 2^16, and in a stream that is not on the
    screen it stores the code point as it is, into the bound array at
    the cursor or at the end of the data. *)
Theorem code_point_writes (ch : Z) (s : glk_state) :
  (0 ≤ ch ≤ 0xFFFF → glk_put_char_uni ch s = Returned (glk_put_char ch s))
  ∧ (0xFFFF < ch ≤ 0x10FFFF →
     ∃ hi lo,
       glk_put_char_uni ch s = Returned (append_output [hi; lo] s)
       ∧ 0xD800 ≤ hi ≤ 0xDBFF ∧ 0xDC00 ≤ lo ≤ 0xDFFF
       ∧ ch = 0x10000 + (hi - 0xD800) * 0x400 + (lo - 0xDC00))
  ∧ (ch < 0 ∨ 0x10FFFF < ch → glk_put_char_uni ch s = Thrown s)
  ∧ (∀ str,
       glk_put_char_stream_uni str ch s = glk_put_char_stream str ch s
       ∧ (to_screen str s = true →
          outputBuffer (glk_put_char_stream_uni str ch s)
          = outputBuffer s ++ [ch `mod` 65536])
       ∧ (∀ st, to_screen str s = false →
                streams s !! str = Some st → buf st = None →
                data <$> streams (glk_put_char_stream_uni str ch s) !! str
                = Some (data st ++ [ch]))
       ∧ (∀ st b, to_screen str s = false →
                  streams s !! str = Some st → buf st = Some b →
                  0 ≤ pos st < buflen st →
                  js_array_get
                    (arrays (glk_put_char_stream_uni str ch s) !!! b) (pos st)
                  = Num ch)).
Proof.
  unfold glk_put_char_uni, String_fromCodePoint, glk_put_char,
    String_fromCharCode.
  split; [|split; [|split]].
  - intros Hch.
    destruct (Z.ltb_spec ch 0), (Z.ltb_spec 0x10FFFF ch); try lia.
    cbn [orb]. destruct (Z.leb_spec ch 0xFFFF); [|lia].
    by rewrite Z.mod_small by lia.
  - intros Hch.
    destruct (Z.ltb_spec ch 0), (Z.ltb_spec 0x10FFFF ch); try lia.
    cbn [orb]. destruct (Z.leb_spec ch 0xFFFF); [lia|].
    eexists _, _. split; [done|].
    rewrite Z.shiftr_div_pow2 by lia.
    change 0x3FF with (Z.ones 10). rewrite Z.land_ones by lia.
    change (2 ^ 10) with 1024.
    pose proof (Z.div_mod (ch - 0x10000) 1024).
    pose proof (Z.mod_pos_bound (ch - 0x10000) 1024).
    assert (0 ≤ (ch - 0x10000) `div` 1024 ≤ 1023).
    { split; [apply Z.div_pos; lia|].
      apply Z.lt_succ_r, Z.div_lt_upper_bound; lia. }
    lia.
  - intros Hch.
    destruct (Z.ltb_spec ch 0), (Z.ltb_spec 0x10FFFF ch); try lia; done.
  - intros str. unfold glk_put_char_stream_uni.
    split; [done|]. split; [|split].
    + intros Hscr. unfold glk_put_char_stream. by rewrite Hscr.
    + intros st Hscr Hst Hb. unfold glk_put_char_stream.
      rewrite Hscr, Hst, Hb. cbn.
      by rewrite !list_lookup_alter_eq, Hst.
    + intros st b Hscr Hst Hb Hpos.
      pose proof (put_char_to_memory_stream str st b ch s Hst Hb Hscr)
        as Hput.
      cbn zeta in Hput. destruct (Z.ltb_spec (pos st) (buflen st)); [|lia].
      destruct Hput as [-> _].
      rewrite lookup_total_insert_eq. apply js_array_get_set_eq. lia.
Qed.

(** X20. [glk_put_buffer_uni] writes the text of all the code points of
    the buffer when every one of them is within 0..0x10FFFF; at the
    first one that is not it throws, and what it wrote for the code
    points before that one stays in the output buffer. *)
Theorem code_point_buffer_all_or_prefix (bf : list Z) (s : glk_state) :
  (Forall valid_code_point bf →
   glk_put_buffer_uni bf s = Returned (append_output (code_points_text bf) s))
  ∧ (∀ pre c post,
       bf = pre ++ c :: post → Forall valid_code_point pre →
       ¬ valid_code_point c →
       glk_put_buffer_uni bf s
       = Thrown (append_output (code_points_text pre) s)).
Proof.
  split.
  - revert s. induction bf as [|c bf IH]; intros s Hbf; cbn.
    + by rewrite append_output_nil.
    + apply Forall_cons in Hbf as [Hc Hbf].
      apply String_fromCodePoint_valid in Hc as [t Ht]. rewrite Ht.
      rewrite IH by done. by rewrite append_output_app.
  - intros pre c post -> Hpre Hc. revert s.
    induction pre as [|p pre IH]; intros s; cbn.
    + destruct (String_fromCodePoint c) as [t|] eqn:Ht.
      * exfalso. apply Hc, String_fromCodePoint_valid. by exists t.
      * by rewrite append_output_nil.
    + apply Forall_cons in Hpre as [Hp Hpre].
      apply String_fromCodePoint_valid in Hp as [t Ht]. rewrite Ht.
      rewrite IH by done. by rewrite append_output_app.
Qed.

(** X21. The writes to the selected stream compose: writing a buffer is
    writing the text of its characters, and writing two texts (or two
    buffers) one after the other is writing their concatenation; the
    resulting states are the same. *)
Theorem screen_writes_compose (t u : jstring) (a b : list Z) (s : glk_state) :
  glk_put_buffer a s = glk_put_string (a ≫= String_fromCharCode) s
  ∧ glk_put_string u (glk_put_string t s) = glk_put_string (t ++ u) s
  ∧ glk_put_buffer b (glk_put_buffer a s) = glk_put_buffer (a ++ b) s
  ∧ glk_put_jstring u (glk_put_jstring t s) = glk_put_string (t ++ u) s.
Proof.
  unfold glk_put_buffer, glk_put_string. rewrite !put_buffer_fold.
  split; [done|]. split; [apply append_output_app|]. split.
  - rewrite append_output_app. by rewrite bind_app.
  - unfold glk_put_jstring. destruct t as [|c t]; cbn [truthy_string].
    + destruct u; cbn [truthy_string]; [by rewrite append_output_nil|done].
    + destruct u as [|d u]; cbn [truthy_string].
      * by rewrite app_nil_r.
      * apply append_output_app.
Qed.

End Further.

(** * Properties of the terminal *)

Module ZorkTerminalFacts.
Import ZorkTerminal.

Lemma trim_start_nil t : trim_start t = [] ↔ Forall (λ c, is_white_space c = true) t.
Proof.
  induction t as [|c t IH]; cbn; [done|].
  destruct (is_white_space c) eqn:Hc.
  - rewrite IH. split; [by constructor|by intros [_ ?]%Forall_cons].
  - split; [done|]. intros [? _]%Forall_cons. congruence.
Qed.

Lemma trim_nil t : trim t = [] ↔ Forall (λ c, is_white_space c = true) t.
Proof.
  unfold trim. split.
  - intros Ht. apply (f_equal reverse) in Ht.
    rewrite reverse_involutive in Ht. change (reverse []) with (@nil Z) in Ht.
    apply trim_start_nil in Ht. rewrite Forall_reverse in Ht.
    destruct (trim_start t) as [|c r] eqn:Hs; [by apply trim_start_nil|].
    apply Forall_cons in Ht as [Hc _].
    assert (is_white_space c = false) as Hc'; [|congruence].
    clear -Hs. induction t as [|d t IH]; [done|]. cbn in Hs.
    destruct (is_white_space d) eqn:Hd; [by apply IH|]. by simplify_eq.
  - intros Ht. apply trim_start_nil in Ht. by rewrite Ht.
Qed.

Lemma truthy_trim command :
  truthy_string (trim command) = true
  ↔ Exists (λ c, is_white_space c = false) command.
Proof.
  assert (Exists (λ c, is_white_space c = false) command
          ↔ ¬ Forall (λ c, is_white_space c = true) command) as ->.
  { induction command as [|c t IH].
    - split; [by intros ?%Exists_nil|by intros []].
    - rewrite Exists_cons, Forall_cons, IH.
      destruct (is_white_space c); [|by split; [intros _ [? _]|left]].
      split; [by intros [?|?] [_ ?]|by intros Hn; right; intros ?; apply Hn]. }
  rewrite <- trim_nil. by destruct (trim command).
Qed.

Lemma handle_all_snoc es e t :
  handle_all (es ++ [e]) t = handle e (handle_all es t).
Proof. unfold handle_all. by rewrite foldl_app. Qed.

Lemma navigateHistory_commandHistory d t :
  commandHistory (navigateHistory d t) = commandHistory t.
Proof. unfold navigateHistory. by repeat case_match. Qed.

Lemma navigateHistory_output d t :
  output (navigateHistory d t) = output t
  ∧ inputResolver (navigateHistory d t) = inputResolver t
  ∧ inputDisabled (navigateHistory d t) = inputDisabled t.
Proof. unfold navigateHistory. by repeat case_match. Qed.

Lemma navigateHistory_index_ok d t :
  history_index_ok t → history_index_ok (navigateHistory d t).
Proof.
  intros Hok. unfold navigateHistory.
  destruct (bool_decide (commandHistory t = [])) eqn:He; [done|].
  apply bool_decide_eq_false in He. right.
  repeat case_match; cbn; (split; [done|lia]).
Qed.

Lemma handleCommand_index_ok t :
  history_index_ok t → history_index_ok (handleCommand t).1.1.
Proof.
  intros Hok. unfold history_index_ok. cbn.
  destruct (truthy_string (trim (inputValue t))); [right|done].
  split; [by destruct (commandHistory t)|lia].
Qed.

Lemma handle_index_ok e t :
  history_index_ok t → history_index_ok (handle e t).
Proof.
  intros Hok. destruct e as [[]| | | | |]; cbn [handle keydown]; try done.
  - by apply handleCommand_index_ok.
  - by apply navigateHistory_index_ok.
  - by apply navigateHistory_index_ok.
  - unfold print. by case_match.
Qed.

(** X22. From the constructor on, whatever keys go down and whatever the
    adapter calls, the history index is -1 while no command is recorded
    and between 0 and the number of recorded commands afterwards. *)
Theorem history_index_stays_in_range es out value disabled :
  history_index_ok (handle_all es (new_terminal out value disabled)).
Proof.
  induction es as [|e es IH] using rev_ind; [by left|].
  rewrite handle_all_snoc. by apply handle_index_ok.
Qed.

Lemma handle_commandHistory e t :
  commandHistory (handle e t) = commandHistory t
  ∨ (e = Keydown Enter
     ∧ truthy_string (trim (inputValue t)) = true
     ∧ commandHistory (handle e t) = commandHistory t ++ [inputValue t]).
Proof.
  destruct e as [[]| | | | |]; cbn [handle keydown]; try by left.
  - cbn. destruct (truthy_string (trim (inputValue t))); [by right|by left].
  - left. apply navigateHistory_commandHistory.
  - left. apply navigateHistory_commandHistory.
  - left. unfold print. by case_match.
Qed.

(** X23. The history never holds a command of white space only: every
    recorded command has a character [trim] keeps. *)
Theorem history_holds_no_blank_command es out value disabled :
  Forall (λ command, Exists (λ c, is_white_space c = false) command)
    (commandHistory (handle_all es (new_terminal out value disabled))).
Proof.
  induction es as [|e es IH] using rev_ind; [by constructor|].
  rewrite handle_all_snoc.
  destruct (handle_commandHistory e
              (handle_all es (new_terminal out value disabled)))
    as [->|(_ & Ht & ->)]; [done|].
  apply Forall_app. split; [done|].
  constructor; [|done]. by apply truthy_trim.
Qed.

Lemma navigateHistory_clamp d t :
  commandHistory t ≠ [] →
  let n := Z.of_nat (length (commandHistory t)) in
  let i := Z.max 0 (Z.min n (historyIndex t + d)) in
  historyIndex (navigateHistory d t) = i
  ∧ inputValue (navigateHistory d t)
    = default [] (commandHistory t !! Z.to_nat i).
Proof.
  intros Hne n i. unfold navigateHistory.
  rewrite bool_decide_eq_false_2 by done.
  assert (0 < n) by (subst n; destruct (commandHistory t); cbn; [done|lia]).
  fold n. destruct (historyIndex t + d <? 0) eqn:H1.
  { replace i with 0 by lia. done. }
  destruct (n <=? historyIndex t + d) eqn:H2.
  { replace i with n by lia. cbn [historyIndex inputValue set_history_view].
    split; [done|]. rewrite lookup_ge_None_2; [done|]. subst n. lia. }
  replace i with (historyIndex t + d) by lia. done.
Qed.

(** X24. Enter on a command that is not blank, then ArrowUp, shows the
    command again; ArrowDown after that empties the field. *)
Theorem arrow_up_recalls_entered_command t :
  truthy_string (trim (inputValue t)) = true →
  inputValue (keydown ArrowUp (keydown Enter t)) = inputValue t
  ∧ inputValue (keydown ArrowDown (keydown ArrowUp (keydown Enter t))) = [].
Proof.
  intros Ht. cbn [keydown].
  set (t1 := (handleCommand t).1.1).
  assert (commandHistory t1 = commandHistory t ++ [inputValue t]) as Hh
    by (subst t1; cbn; by rewrite Ht).
  assert (historyIndex t1 = Z.of_nat (length (commandHistory t)) + 1) as Hi.
  { subst t1. cbn. rewrite Ht, length_app. cbn. lia. }
  assert (commandHistory t1 ≠ []) as Hne
    by (rewrite Hh; by destruct (commandHistory t)).
  destruct (navigateHistory_clamp (-1) t1 Hne) as [Hi2 Hv2].
  rewrite Hh, length_app in Hi2, Hv2. cbn [length] in Hi2, Hv2.
  rewrite Hi in Hi2, Hv2.
  replace (Z.max 0 _) with (Z.of_nat (length (commandHistory t)))
    in Hi2, Hv2 by lia.
  rewrite Nat2Z.id, list_lookup_middle in Hv2 by done.
  split; [done|].
  set (t2 := navigateHistory (-1) t1) in *.
  assert (commandHistory t2 = commandHistory t1) as Hh2
    by apply navigateHistory_commandHistory.
  destruct (navigateHistory_clamp 1 t2) as [_ Hv3]; [by rewrite Hh2|].
  rewrite Hv3, Hh2, Hh, Hi2, length_app. cbn [length].
  rewrite lookup_ge_None_2; [done|]. rewrite length_app. cbn. lia.
Qed.

(** X25. With commands recorded and the index in range, ArrowUp moves the
    index one back, not below 0, and shows the command at it; ArrowDown
    moves it one on, shows the command there, and empties the field when
    the index comes to stand past the last command. *)
Theorem arrows_walk_the_history t :
  commandHistory t ≠ [] →
  history_index_ok t →
  let n := Z.of_nat (length (commandHistory t)) in
  let up := keydown ArrowUp t in
  let down := keydown ArrowDown t in
  historyIndex up = Z.max 0 (historyIndex t - 1)
  ∧ commandHistory t !! Z.to_nat (historyIndex up) = Some (inputValue up)
  ∧ historyIndex down = Z.min n (historyIndex t + 1)
  ∧ (if historyIndex down =? n then inputValue down = []
     else commandHistory t !! Z.to_nat (historyIndex down)
          = Some (inputValue down)).
Proof.
  intros Hne [[? _]|[_ Hr]] n up down; [done|].
  subst up down. cbn [keydown].
  destruct (navigateHistory_clamp (-1) t Hne) as [Hi1 Hv1].
  destruct (navigateHistory_clamp 1 t Hne) as [Hi2 Hv2].
  fold n in Hi1, Hv1, Hi2, Hv2, Hr.
  assert (0 < n) by (subst n; destruct (commandHistory t); cbn; [done|lia]).
  rewrite Hi1, Hi2, Hv1, Hv2.
  replace (Z.max 0 (Z.min n (historyIndex t + -1)))
    with (Z.max 0 (historyIndex t - 1)) by lia.
  replace (Z.max 0 (Z.min n (historyIndex t + 1)))
    with (Z.min n (historyIndex t + 1)) by lia.
  split; [done|]. split.
  { destruct (lookup_lt_is_Some_2 (commandHistory t)
                (Z.to_nat (Z.max 0 (historyIndex t - 1)))) as [c Hc];
      [subst n; lia|]. by rewrite Hc. }
  split; [done|].
  destruct (Z.min n (historyIndex t + 1) =? n) eqn:He.
  - apply Z.eqb_eq in He. rewrite He.
    rewrite lookup_ge_None_2; [done|]. subst n. lia.
  - apply Z.eqb_neq in He.
    destruct (lookup_lt_is_Some_2 (commandHistory t)
                (Z.to_nat (Z.min n (historyIndex t + 1)))) as [c Hc];
      [subst n; lia|]. by rewrite Hc.
Qed.


Lemma split_on_app sep cur a b :
  split_on sep cur (a ++ sep :: b) = split_on sep cur a ++ split_on sep [] b.
Proof.
  revert cur. induction a as [|c a IH]; intros cur; cbn.
  - by rewrite Z.eqb_refl.
  - destruct (c =? sep); [by rewrite IH|apply IH].
Qed.

Lemma split_on_length sep cur t :
  length (split_on sep cur t)
  = S (length (filter (λ c, c = sep) t)).
Proof.
  revert cur. induction t as [|c t IH]; intros cur; [done|].
  cbn [split_on]. destruct (Z.eqb_spec c sep) as [->|Hne].
  - rewrite filter_cons_True by done. cbn [length]. by rewrite IH.
  - rewrite filter_cons_False by done. apply IH.
Qed.

Lemma split_on_no_sep sep cur t :
  sep ∉ cur → Forall (λ l, sep ∉ l) (split_on sep cur t).
Proof.
  revert cur. induction t as [|c t IH]; intros cur Hcur; cbn.
  - constructor; [|done]. by rewrite elem_of_reverse.
  - destruct (Z.eqb_spec c sep) as [->|Hne].
    + constructor; [by rewrite elem_of_reverse|]. apply IH. by intros ?%elem_of_nil.
    + apply IH. intros [?|?]%elem_of_cons; [by subst|done].
Qed.

Lemma split_on_head sep cur t :
  ∃ h rest, split_on sep cur t = (reverse cur ++ h) :: rest.
Proof.
  revert cur. induction t as [|c t IH]; intros cur; cbn.
  - exists [], []. by rewrite app_nil_r.
  - destruct (c =? sep).
    + exists [], (split_on sep [] t). by rewrite app_nil_r.
    + destruct (IH (c :: cur)) as (h & rest & ->).
      exists (c :: h), rest. by rewrite reverse_cons, <- app_assoc.
Qed.

Lemma omap_imap_length {A B} (g : nat → A → option B) (l : list A) :
  (∀ i x, is_Some (g i x)) → length (omap id (imap g l)) = length l.
Proof.
  revert g. induction l as [|x l IH]; intros g Hg; [done|]. cbn.
  destruct (Hg 0%nat x) as [y ->]. cbn. f_equal. apply IH.
  intros i z. apply Hg.
Qed.

Lemma line_divs_ok (l : list jstring) (k : nat) :
  Forall (λ line, 10 ∉ line) l →
  Forall (λ d, textContent d ≠ [] ∧ 10 ∉ textContent d)
    (omap id (imap (λ i, line_div (k + i)) l)).
Proof.
  revert k. induction l as [|x l IH]; intros k Hl; [by constructor|].
  apply Forall_cons in Hl as [Hx Hl]. cbn [imap omap].
  assert (Forall (λ d, textContent d ≠ [] ∧ 10 ∉ textContent d)
            (omap id (imap ((λ i, line_div (k + i)) ∘ S) l))) as Hrest.
  { rewrite (imap_ext _ (λ i, line_div (S k + i)) l); [by apply IH|].
    intros i y _. unfold compose. f_equal. lia. }
  unfold line_div at 1.
  destruct (negb (k + 0 =? 0)%nat || truthy_string x); [|done].
  cbn [id]. constructor; [|done]. cbn.
  destruct x as [|c x]; cbn; [|done].
  split; [done|]. unfold nbsp. by intros [?|?%elem_of_nil]%elem_of_cons.
Qed.

Lemma print_divs_ok text :
  Forall (λ d, textContent d ≠ [] ∧ 10 ∉ textContent d) (print_divs text).
Proof.
  apply (line_divs_ok _ 0%nat), split_on_no_sep. by intros ?%elem_of_nil.
Qed.

Lemma print_divs_length text :
  length (print_divs text)
  = (length (filter (λ c, c = 10%Z) text)
     + match text with
       | [] => 0
       | c :: _ => if (c =? 10)%Z then 0 else 1
       end)%nat.
Proof.
  assert (∀ l, length (omap id (imap (line_div ∘ S) l)) = length l) as Hrest.
  { intros l. apply omap_imap_length. intros i x. by eexists. }
  unfold print_divs. destruct text as [|c r]; [done|].
  cbn [split_on]. destruct (Z.eqb_spec c 10) as [->|Hne].
  - rewrite filter_cons_True by done. cbn [imap omap line_div].
    cbn. rewrite Hrest, split_on_length. lia.
  - rewrite filter_cons_False by done.
    pose proof (split_on_length 10 [c] r) as Hlen.
    destruct (split_on_head 10 [c] r) as (h & rest & Hs).
    rewrite Hs in *. cbn in Hlen. cbn. rewrite Hrest. lia.
Qed.

(** X26. [print] appends one [div] for each line of the text, but none
    for an empty first line; no [div] it appends has an empty text or a
    newline in it. *)
Theorem print_appends_a_div_per_line text t :
  ∃ divs,
    output (print text t) = output t ++ divs
    ∧ Forall (λ d, textContent d ≠ [] ∧ 10 ∉ textContent d) divs
    ∧ length divs
      = (length (filter (λ c, c = 10%Z) text)
         + match text with
           | [] => 0
           | c :: _ => if (c =? 10)%Z then 0 else 1
           end)%nat.
Proof.
  exists (print_divs text). split; [|split].
  - unfold print. destruct text; [by rewrite app_nil_r|done].
  - apply print_divs_ok.
  - apply print_divs_length.
Qed.

Lemma print_divs_app a c b :
  c ≠ 10 →
  print_divs (a ++ 10 :: c :: b) = print_divs a ++ print_divs (c :: b).
Proof.
  intros Hc. unfold print_divs.
  rewrite split_on_app, imap_app, omap_app. f_equal. f_equal.
  apply imap_ext. intros i x Hx. unfold line_div.
  destruct i as [|i].
  - cbn [split_on] in Hx. rewrite (proj2 (Z.eqb_neq c 10)) in Hx by done.
    destruct (split_on_head 10 [c] b) as (h & rest & Hs).
    rewrite Hs in Hx. cbn in Hx. simplify_eq. cbn.
    by rewrite orb_true_r.
  - replace (length (split_on 10 [] a) + S i =? 0)%nat with false; [done|].
    symmetry. apply Nat.eqb_neq. lia.
Qed.

(** X27. A newline between two pieces of text does what two calls of
    [print] do, when the second piece starts with a character that is
    not a newline. *)
Theorem print_newline_is_two_prints a c b t :
  c ≠ 10 →
  print (a ++ 10 :: c :: b) t = print (c :: b) (print a t).
Proof.
  intros Hc. unfold print at 1 2.
  assert (truthy_string (a ++ 10 :: c :: b) = true) as -> by by destruct a.
  cbn [truthy_string negb]. rewrite print_divs_app by done.
  unfold print. destruct a as [|x a]; cbn [truthy_string negb output].
  - done.
  - by rewrite app_assoc.
Qed.

Lemma handle_output e t :
  Forall (λ d, textContent d ≠ []) (output t) →
  Forall (λ d, textContent d ≠ []) (output (handle e t)).
Proof.
  intros Hok. destruct e as [[]| | | | |]; cbn [handle keydown]; try done.
  - cbn. apply Forall_app. split; [done|]. by constructor.
  - by rewrite (proj1 (navigateHistory_output _ _)).
  - by rewrite (proj1 (navigateHistory_output _ _)).
  - unfold print. case_match; [done|]. cbn. apply Forall_app.
    split; [done|]. eapply Forall_impl; [apply print_divs_ok|].
    by intros d [? _].
  - cbn. apply Forall_app. split; [done|]. by constructor.
Qed.

(** X28. When the output element starts without an empty [div], the
    terminal never shows one: each line it adds has text, an empty line
    a no-break space. *)
Theorem terminal_shows_no_empty_div es out value disabled :
  Forall (λ d, textContent d ≠ []) out →
  Forall (λ d, textContent d ≠ [])
    (output (handle_all es (new_terminal out value disabled))).
Proof.
  intros Hout. induction es as [|e es IH] using rev_ind; [done|].
  rewrite handle_all_snoc. by apply handle_output.
Qed.

Lemma handle_resolver e t :
  (is_Some (inputResolver t) → inputDisabled t = false) →
  is_Some (inputResolver (handle e t)) → inputDisabled (handle e t) = false.
Proof.
  intros Hok. destruct e as [[]| | | | |]; cbn [handle keydown]; try done.
  - cbn. by intros [? ?].
  - destruct (navigateHistory_output (-1) t) as (_ & -> & ->). done.
  - destruct (navigateHistory_output 1 t) as (_ & -> & ->). done.
  - unfold print. by case_match.
Qed.

(** X29. From the constructor on, a resolver that waits for a line finds
    the input field enabled: [handleCommand] disables the field only as
    it takes the resolver away, and [waitForInput] enables it as it sets
    one. *)
Theorem waiting_resolver_has_enabled_input es out value disabled :
  let t := handle_all es (new_terminal out value disabled) in
  is_Some (inputResolver t) → inputDisabled t = false.
Proof.
  cbn zeta. induction es as [|e es IH] using rev_ind; [by intros [? ?]|].
  rewrite handle_all_snoc. by apply handle_resolver.
Qed.

(** ** On concrete terminals *)

Lemma arrow_up_recalls_entered_command_witness :
  inputValue
    (keydown ArrowUp (keydown Enter (new_terminal [] (jstr "look") false)))
  = jstr "look"
  ∧ inputValue
      (keydown ArrowDown
         (keydown ArrowUp
            (keydown Enter (new_terminal [] (jstr "look") false))))
    = [].
Proof.
  apply (arrow_up_recalls_entered_command
           (new_terminal [] (jstr "look") false)).
  reflexivity.
Defined.

Lemma arrows_walk_the_history_witness :
  historyIndex (keydown ArrowUp two_commands_entered) = 1
  ∧ inputValue (keydown ArrowUp two_commands_entered) = jstr "north"
  ∧ inputValue (keydown ArrowDown two_commands_entered) = [].
Proof.
  destruct (arrows_walk_the_history two_commands_entered)
    as (Hup&Hshown&_&Hdown); [discriminate|right; split; [discriminate|]|].
  - vm_compute. split; discriminate.
  - split; [exact Hup|]. split; [|exact Hdown].
    apply (inj Some). rewrite <- Hshown. reflexivity.
Defined.

Lemma print_newline_is_two_prints_witness :
  print (jstr "Hi" ++ 10 :: 121 :: jstr "ou") (new_terminal [] [] false)
  = print (121 :: jstr "ou") (print (jstr "Hi") (new_terminal [] [] false)).
Proof.
  apply (print_newline_is_two_prints (jstr "Hi") 121 (jstr "ou")
           (new_terminal [] [] false)).
  discriminate.
Defined.

Lemma terminal_shows_no_empty_div_witness :
  Forall (λ d, textContent d ≠ [])
    (output
       (handle_all
          [CallPrint (10 :: 10 :: jstr "Hi"); Keydown Enter;
           CallHandleError []]
          (new_terminal [] [] false))).
Proof.
  apply (terminal_shows_no_empty_div
           [CallPrint (10 :: 10 :: jstr "Hi"); Keydown Enter;
            CallHandleError []]
           [] [] false).
  constructor.
Defined.

Lemma waiting_resolver_has_enabled_input_witness :
  inputDisabled
    (handle_all [CallWaitForInput LineInputCallback; Keydown ArrowUp]
       (new_terminal [] [] true))
  = false.
Proof.
  apply (waiting_resolver_has_enabled_input
           [CallWaitForInput LineInputCallback; Keydown ArrowUp] [] [] true).
  by eexists.
Defined.

End ZorkTerminalFacts.

(** * The further properties on concrete sessions *)

Lemma input_without_line_request_is_ignored_witness :
  inputResolver
    (run NumericJSON.parse
       [Put_string (jstr "Hi"); Request_char_event (Some mainWindow);
        Select 9]
       (createGlk ∅ ten_zeros one_struct)) = None
  ∧ deliver_lines [jstr "north"]
      (run NumericJSON.parse
         [Put_string (jstr "Hi"); Request_char_event (Some mainWindow);
          Select 9]
         (createGlk ∅ ten_zeros one_struct))
    = run NumericJSON.parse
        [Put_string (jstr "Hi"); Request_char_event (Some mainWindow);
         Select 9]
        (createGlk ∅ ten_zeros one_struct).
Proof.
  apply (input_without_line_request_is_ignored NumericJSON.parse
           [Put_string (jstr "Hi"); Request_char_event (Some mainWindow);
            Select 9]
           [jstr "north"] ∅ ten_zeros one_struct).
  repeat constructor.
Defined.

Lemma captured_event_stays_witness :
  is_event
    (inputState
       (run NumericJSON.parse
          [Put_char 72; Request_line_event None (Some 7%nat) 0;
           Cancel_line_event None None]
          (glk_select 9 (createGlk ∅ ten_zeros one_struct))))
  = Some 9%nat.
Proof.
  apply (captured_event_stays NumericJSON.parse
           [Put_char 72; Request_line_event None (Some 7%nat) 0;
            Cancel_line_event None None]
           9%nat (createGlk ∅ ten_zeros one_struct)).
  repeat constructor.
Defined.

Lemma storage_written_only_by_close_witness :
  ∃ str result st fr,
    Stream_close 1 None = Stream_close str result
    ∧ streams saving_123 !! str = Some st ∧ fref st = Some fr
    ∧ filename fr = jstr "slot1"
    ∧ (fmode st = Some filemode_Write ∨ fmode st = Some filemode_ReadWrite)
    ∧ localStorage (step NumericJSON.parse (Stream_close 1 None) saving_123)
        !! jstr "slot1"
      = Some (JSON_stringify (data st)).
Proof.
  apply (storage_written_only_by_close NumericJSON.parse
           (Stream_close 1 None) saving_123 (jstr "slot1")).
  vm_compute. discriminate.
Defined.

Lemma write_counter_counts_stream_writes_witness :
  write_count <$> streams (glk_put_buffer_stream 1 [4; 5] saving_123) !! 1%nat
  = Some 5.
Proof.
  destruct (write_counter_counts_stream_writes 1
              {| rock := 0; write_count := 3; read_count := 0;
                 data := [1; 2; 3]; pos := 0; buf := None; buflen := 0;
                 fref := Some slot1; fmode := Some filemode_Write |}
              72 (jstr "Hi") [4; 5] saving_123) as [(_&_&Hbuf&_) _];
    [reflexivity|].
  exact Hbuf.
Defined.

Lemma close_reports_counters_and_removes_nothing_witness :
  get_field 9 1
    (glk_stream_close mainStream (Some 9%nat)
       (glk_put_string_stream mainStream (jstr "Hi")
          (createGlk ∅ ∅ one_struct)))
  = Num 2
  ∧ get_field 9 1
      (glk_window_close mainWindow (Some 9%nat)
         (glk_put_string_stream mainStream (jstr "Hi")
            (createGlk ∅ ∅ one_struct)))
    = Num 2.
Proof.
  destruct (close_reports_counters_and_removes_nothing mainStream mainWindow
              9%nat
              {| rock := 201; write_count := 2; read_count := 0; data := [];
                 pos := 0; buf := None; buflen := 0; fref := None;
                 fmode := None |}
              {| win_type := wintype_TextBuffer; win_rock := 201;
                 win_str := mainStream; input_request_type := None;
                 line_input_buf := None |}
              (glk_put_string_stream mainStream (jstr "Hi")
                 (createGlk ∅ ∅ one_struct)))
    as [(_&Hs&_) (_&Hw&_)]; [reflexivity|reflexivity|reflexivity|].
  split; [exact Hs|exact Hw].
Defined.

Lemma file_exists_after_save_witness :
  glk_fileref_does_file_exist slot1 (glk_stream_close 1 None saving_123) = 1
  ∧ glk_fileref_does_file_exist slot2 (createGlk ∅ ∅ ∅) = 0
  ∧ opened_value
      (glk_stream_open_file NumericJSON.parse slot2 filemode_Read 0
         (createGlk ∅ ∅ ∅)) = None.
Proof.
  destruct (file_exists_after_save NumericJSON.parse)
    as (Hiff&Hsaved&Hnone).
  split; [|split].
  - apply (Hsaved 1%nat None
             {| rock := 0; write_count := 3; read_count := 0;
                data := [1; 2; 3]; pos := 0; buf := None; buflen := 0;
                fref := Some slot1; fmode := Some filemode_Write |}
             slot1 slot1 saving_123); try reflexivity. by left.
  - apply (Hiff slot2 (createGlk ∅ ∅ ∅)). reflexivity.
  - apply (Hnone slot2 filemode_Read 0 (createGlk ∅ ∅ ∅)). reflexivity.
Defined.

Lemma last_prompted_save_wins_witness :
  let o :=
    glk_stream_open_file NumericJSON.parse
      (glk_fileref_create_by_prompt 2 filemode_Read 9) filemode_Read 0
      (glk_stream_close 2 None (glk_stream_close 1 None two_saves)) in
  opened_value o = None
  ∧ ∃ st', streams (opened_state o) !! opened_stream o = Some st'
           ∧ data st' = [7; 8; 9].
Proof.
  apply (last_prompted_save_wins NumericJSON.parse 1 2
           {| rock := 0; write_count := 2; read_count := 0; data := [1; 2];
              pos := 0; buf := None; buflen := 0;
              fref := Some (glk_fileref_create_by_prompt 0 filemode_Write 0);
              fmode := Some filemode_Write |}
           {| rock := 0; write_count := 3; read_count := 0;
              data := [7; 8; 9]; pos := 0; buf := None; buflen := 0;
              fref := Some (glk_fileref_create_by_prompt 1 filemode_Write 5);
              fmode := Some filemode_Write |}
           0 filemode_Write 0 1 filemode_Write 5 2 filemode_Read 9 0
           None None two_saves); try reflexivity; by left.
Defined.

Lemma bulk_read_takes_what_is_left_witness :
  (glk_get_buffer_stream 1 7 2 two_lines_written).1 = 2
  ∧ (glk_get_buffer_stream 1 7 0 two_lines_written).1 = 4.
Proof.
  split.
  - destruct (bulk_read_takes_what_is_left 1 7 2
                {| rock := 0; write_count := 4; read_count := 0;
                   data := [104; 105; 10; 120]; pos := 0; buf := None;
                   buflen := 0; fref := Some slot1;
                   fmode := Some filemode_Write |}
                two_lines_written) as (Hn&_&_);
      [reflexivity|reflexivity|reflexivity| |exact Hn].
    intros [|[|[|[|i]]]] _; cbn; discriminate.
  - destruct (bulk_read_takes_what_is_left 1 7 0
                {| rock := 0; write_count := 4; read_count := 0;
                   data := [104; 105; 10; 120]; pos := 0; buf := None;
                   buflen := 0; fref := Some slot1;
                   fmode := Some filemode_Write |}
                two_lines_written) as (Hn&_&_);
      [reflexivity|reflexivity|reflexivity| |exact Hn].
    intros [|[|[|[|i]]]] _; cbn; discriminate.
Defined.

Lemma written_units_are_read_back_witness :
  (glk_get_buffer_stream 1 7 2
     (glk_put_buffer_stream 1 [4; 5] file_stream_open)).1 = 2
  ∧ js_array_get
      (arrays (glk_get_buffer_stream 1 7 2
                 (glk_put_buffer_stream 1 [4; 5] file_stream_open)).2
       !!! 7%nat) 1
    = Num 5.
Proof.
  destruct (written_units_are_read_back 1 7 [4; 5]
              {| rock := 0; write_count := 0; read_count := 0; data := [];
                 pos := 0; buf := None; buflen := 0; fref := Some slot1;
                 fmode := Some filemode_Write |}
              file_stream_open) as (Hn&Hcells&_);
    [reflexivity|reflexivity|reflexivity|reflexivity|discriminate
    |repeat constructor; discriminate|].
  split; [exact Hn|]. apply (Hcells 1%nat 5). reflexivity.
Defined.

Lemma line_read_stops_after_newline_witness :
  (glk_get_line_stream 1 7 0 two_lines_written).1 = 3
  ∧ js_array_get
      (arrays (glk_get_line_stream 1 7 0 two_lines_written).2 !!! 7%nat) 2
    = Num 10.
Proof.
  destruct (line_read_stops_after_newline 1 7 0 [104; 105] [120]
              {| rock := 0; write_count := 4; read_count := 0;
                 data := [104; 105; 10; 120]; pos := 0; buf := None;
                 buflen := 0; fref := Some slot1;
                 fmode := Some filemode_Write |}
              two_lines_written) as (Hn&_&Hcells);
    [reflexivity|reflexivity|reflexivity|reflexivity
    |repeat constructor; discriminate|reflexivity|].
  split; [exact Hn|]. apply (Hcells 2%nat 10). reflexivity.
Defined.

Lemma seek_then_read_witness :
  (glk_get_char_stream 1
     (glk_stream_set_position 1 2 seekmode_Start two_lines_written)).1
  = Num 10
  ∧ (glk_get_char_stream 1
       (glk_stream_set_position 1 0 seekmode_End two_lines_written)).1
    = Num (-1).
Proof.
  split.
  - destruct (seek_then_read 1 2
                {| rock := 0; write_count := 4; read_count := 0;
                   data := [104; 105; 10; 120]; pos := 0; buf := None;
                   buflen := 0; fref := Some slot1;
                   fmode := Some filemode_Write |}
                two_lines_written) as (Hstart&_&_);
      [reflexivity|reflexivity|exact Hstart].
  - destruct (seek_then_read 1 0
                {| rock := 0; write_count := 4; read_count := 0;
                   data := [104; 105; 10; 120]; pos := 0; buf := None;
                   buflen := 0; fref := Some slot1;
                   fmode := Some filemode_Write |}
                two_lines_written) as (_&_&Hend);
      [reflexivity|reflexivity|exact Hend].
Defined.

Lemma memory_stream_keeps_what_fits_witness :
  capacity 7 (put_chars 1 [1; 2; 3; 4; 5; 6] memory_stream_open) = 4
  ∧ js_array_get
      (arrays (put_chars 1 [1; 2; 3; 4; 5; 6] memory_stream_open) !!! 7%nat) 3
    = Num 4.
Proof.
  destruct (memory_stream_keeps_what_fits 1 7 [1; 2; 3; 4; 5; 6]
              {| rock := 0; write_count := 0; read_count := 0; data := [];
                 pos := 0; buf := Some 7%nat; buflen := 4; fref := None;
                 fmode := Some filemode_Write |}
              memory_stream_open) as (_&Hcells&Hcap);
    [reflexivity|reflexivity|reflexivity|reflexivity|].
  split.
  - rewrite Hcap; [reflexivity|]. vm_compute. discriminate.
  - exact (Hcells 3).
Defined.

Lemma memory_stream_reads_back_witness :
  (glk_get_char_stream 1
     (glk_stream_set_position 1 0 seekmode_Start
        (glk_put_char_stream 1 72 memory_stream_open))).1
  = Num 72.
Proof.
  destruct (memory_stream_reads_back 1 7 72
              {| rock := 0; write_count := 0; read_count := 0; data := [];
                 pos := 0; buf := Some 7%nat; buflen := 4; fref := None;
                 fmode := Some filemode_Write |}
              memory_stream_open) as (Hread&_);
    [reflexivity|reflexivity|reflexivity|cbn; lia|exact Hread].
Defined.

Lemma long_input_is_truncated_witness :
  capacity 7
    (line_input_callback (jstr "go north and then west") waiting_for_line)
  = capacity 7 waiting_for_line
  ∧ js_array_get
      (structs
         (line_input_callback (jstr "go north and then west")
            waiting_for_line) !!! 9%nat) 2
    = Num 10.
Proof.
  destruct (long_input_is_truncated (jstr "go north and then west") 7
              waiting_for_line) as (Hcap&_&Hlen&_);
    [reflexivity|reflexivity|vm_compute; split; discriminate
    |vm_compute; reflexivity|].
  split; [exact Hcap|]. apply (Hlen 9%nat). reflexivity.
Defined.

Lemma code_point_writes_witness :
  glk_put_char_uni 65 (createGlk ∅ ∅ ∅)
  = Returned (glk_put_char 65 (createGlk ∅ ∅ ∅))
  ∧ (∃ hi lo,
       glk_put_char_uni 0x1F600 (createGlk ∅ ∅ ∅)
       = Returned (append_output [hi; lo] (createGlk ∅ ∅ ∅))
       ∧ 0xD800 ≤ hi ≤ 0xDBFF ∧ 0xDC00 ≤ lo ≤ 0xDFFF
       ∧ 0x1F600 = 0x10000 + (hi - 0xD800) * 0x400 + (lo - 0xDC00))
  ∧ glk_put_char_uni 0x110000 (createGlk ∅ ∅ ∅)
    = Thrown (createGlk ∅ ∅ ∅)
  ∧ outputBuffer (glk_put_char_stream_uni mainStream 0x1F600 (createGlk ∅ ∅ ∅))
    = [0xF600]
  ∧ data <$> streams (glk_put_char_stream_uni 1 0x1F600 file_stream_open)
               !! 1%nat
    = Some [0x1F600]
  ∧ js_array_get
      (arrays (glk_put_char_stream_uni 1 0x1F600 memory_stream_open)
       !!! 7%nat) 0
    = Num 0x1F600.
Proof.
  split; [|split; [|split; [|split; [|split]]]].
  - apply (code_point_writes 65 (createGlk ∅ ∅ ∅)). lia.
  - apply (code_point_writes 0x1F600 (createGlk ∅ ∅ ∅)). lia.
  - apply (code_point_writes 0x110000 (createGlk ∅ ∅ ∅)). lia.
  - destruct (code_point_writes 0x1F600 (createGlk ∅ ∅ ∅)) as (_&_&_&Hstr).
    destruct (Hstr mainStream) as (_&Hscr&_). apply Hscr. reflexivity.
  - destruct (code_point_writes 0x1F600 file_stream_open) as (_&_&_&Hstr).
    destruct (Hstr 1%nat) as (_&_&Hdata&_).
    apply (Hdata {| rock := 0; write_count := 0; read_count := 0;
                    data := []; pos := 0; buf := None; buflen := 0;
                    fref := Some slot1; fmode := Some filemode_Write |});
      reflexivity.
  - destruct (code_point_writes 0x1F600 memory_stream_open) as (_&_&_&Hstr).
    destruct (Hstr 1%nat) as (_&_&_&Hcell).
    apply (Hcell {| rock := 0; write_count := 0; read_count := 0;
                    data := []; pos := 0; buf := Some 7%nat; buflen := 4;
                    fref := None; fmode := Some filemode_Write |} 7%nat);
      try reflexivity. cbn. lia.
Defined.

Lemma code_point_buffer_all_or_prefix_witness :
  glk_put_buffer_uni [72; 105] (createGlk ∅ ∅ ∅)
  = Returned (append_output (code_points_text [72; 105]) (createGlk ∅ ∅ ∅))
  ∧ glk_put_buffer_uni [72; 0x110000; 105] (createGlk ∅ ∅ ∅)
    = Thrown (append_output (code_points_text [72]) (createGlk ∅ ∅ ∅)).
Proof.
  split.
  - apply (code_point_buffer_all_or_prefix [72; 105] (createGlk ∅ ∅ ∅)).
    repeat constructor; unfold valid_code_point; lia.
  - apply (code_point_buffer_all_or_prefix [72; 0x110000; 105]
             (createGlk ∅ ∅ ∅) ) with (pre := [72]) (c := 0x110000)
                                      (post := [105]).
    + reflexivity.
    + repeat constructor; unfold valid_code_point; lia.
    + unfold valid_code_point. lia.
Defined.
